(** * The GWAS workflow of aws-regenie: state machine, job definition and
      manifest trigger, with their behaviour under the Amazon States Language.

    The repository is a CDK application.  Its stacks do not compute: they
    build a description (a Step Functions state machine, a Batch job
    definition, an EventBridge rule with its targets) that AWS services then
    run.  The development therefore has two layers:

    - the constructs, translated field by field from the TypeScript sources
      ([WorkflowStack.createGwasWorkflow], [RegenieJobDefinition],
      [StorageStack.manifestRule], [QueueProcessingStack]);
    - an interpreter for the part of the Amazon States Language those
      constructs use (Task, Map, Fail, Succeed, Catch, JSONPath input and
      output processing), driven by the answers of the outside world (Lambda
      results, Batch job attempts, the scheduler's choices). *)

From Stdlib Require Import List String Ascii ZArith Lia Bool Arith PeanoNat.
Import ListNotations.
Open Scope string_scope.
Open Scope list_scope.
Set Warnings "-register-all".

(* ===================================================================== *)
(** ** JSON documents and the JSONPath subset used by the workflow        *)
(* ===================================================================== *)

Module Json.

Inductive json : Type :=
| JNull
| JBool (b : bool)
| JNum (n : Z)
| JStr (s : string)
| JArr (items : list json)
| JObj (fields : list (string * json)).

Fixpoint assoc (k : string) (m : list (string * json)) : option json :=
  match m with
  | [] => None
  | (k', v) :: m' => if String.eqb k k' then Some v else assoc k m'
  end.

Definition field (k : string) (v : json) : option json :=
  match v with
  | JObj m => assoc k m
  | _ => None
  end.

(** Writing one member of an object: replaces the member when present,
    appends it otherwise. *)
Fixpoint put (k : string) (v : json) (m : list (string * json))
  : list (string * json) :=
  match m with
  | [] => [(k, v)]
  | (k', v') :: m' =>
      if String.eqb k k' then (k, v) :: m' else (k', v') :: put k v m'
  end.

Definition set_field (k : string) (v : json) (doc : json) : option json :=
  match doc with
  | JObj m => Some (JObj (put k v m))
  | _ => None
  end.

(** [endsWith suf s]: some tail of [s] is [suf]. *)
Fixpoint endsWith (suf s : string) : bool :=
  String.eqb s suf ||
  match s with
  | EmptyString => false
  | String _ s' => endsWith suf s'
  end.

(** Removes the last [n] characters. *)
Definition dropLast (n : nat) (s : string) : string :=
  substring 0 (String.length s - n) s.

(** Path segments: a member name, or the wildcard [[*]]. *)
Inductive seg : Type :=
| Key (k : string)
| Star.

(** [$] addresses the state input, [$$] the context object. *)
Inductive root : Type :=
| Input
| Context.

Record path : Type := { base : root; segs : list seg }.

(** Splits at every dot. *)
Fixpoint tokens (s : string) : list string :=
  match s with
  | EmptyString => [EmptyString]
  | String c s' =>
      if Ascii.eqb c "."%char then EmptyString :: tokens s'
      else match tokens s' with
           | [] => [String c EmptyString]
           | t :: ts => String c t :: ts
           end
  end.

Definition seg_of (t : string) : list seg :=
  if endsWith "[*]" t then [Key (dropLast 3 t); Star] else [Key t].

(** Reads ["$.a.b[*].c"] and ["$$.a.b"]. *)
Definition parse (s : string) : option path :=
  match tokens s with
  | r :: ks =>
      if String.eqb r "$" then
        Some {| base := Input; segs := flat_map seg_of ks |}
      else if String.eqb r "$$" then
        Some {| base := Context; segs := flat_map seg_of ks |}
      else None
  | [] => None
  end.

(** All the values a path selects. *)
Fixpoint select (p : list seg) (v : json) : list json :=
  match p with
  | [] => [v]
  | Key k :: p' =>
      match field k v with
      | Some x => select p' x
      | None => []
      end
  | Star :: p' =>
      match v with
      | JArr l => flat_map (select p') l
      | JObj m => flat_map (fun kv => select p' (snd kv)) m
      | _ => []
      end
  end.

Definition definite (p : list seg) : bool :=
  forallb (fun s => match s with Key _ => true | Star => false end) p.

(** A definite path denotes one value and fails when it is absent; a path
    with a wildcard denotes the array of its matches, possibly empty. *)
Definition resolve (p : list seg) (v : json) : option json :=
  if definite p then
    match select p v with
    | [x] => Some x
    | _ => None
    end
  else Some (JArr (select p v)).

(** [eval s ctx input]: the value of path string [s]. *)
Definition eval (s : string) (ctx input : json) : option json :=
  match parse s with
  | Some p =>
      match base p with
      | Input => resolve (segs p) input
      | Context => resolve (segs p) ctx
      end
  | None => None
  end.

(** A payload or selector template: every member is computed from a path
    (the source writes the member names with the suffix [.$]). *)
Fixpoint fill (tpl : list (string * string)) (ctx input : json)
  : option (list (string * json)) :=
  match tpl with
  | [] => Some []
  | (k, p) :: tpl' =>
      match eval p ctx input, fill tpl' ctx input with
      | Some v, Some rest => Some ((dropLast 2 k, v) :: rest)
      | _, _ => None
      end
  end.

(** ResultPath: [$] replaces the document, [$.name] writes one member. *)
Definition store (s : string) (v : json) (doc : json) : option json :=
  match parse s with
  | Some {| base := Input; segs := [] |} => Some v
  | Some {| base := Input; segs := [Key k] |} => set_field k v doc
  | _ => None
  end.

End Json.

(* ===================================================================== *)
(** ** The resources the stacks create                                    *)
(* ===================================================================== *)

Module Resources.

(** [lambda.Function], as [LambdaFactory.createFunction] is called. *)
Record LambdaFunction : Type := {
  functionName : string;
  description : string;
  lambdaModule : string;
  timeoutSeconds : Z;
  memorySize : Z
}.

(** [batch.CfnJobDefinition]: the fields the job's life depends on; the two
    resource requirements as numbers. *)
Record CfnJobDefinition : Type := {
  jobType : string;
  vcpus : Z;
  memory : Z;
  retryAttempts : nat;
  attemptDurationSeconds : Z;
  propagateTags : bool
}.

(** [batch.CfnComputeEnvironment] and [batch.CfnJobQueue]. *)
Record CfnComputeEnvironment : Type := {
  computeType : string;
  maxvCpus : Z;
  minvCpus : Z;
  desiredvCpus : Z
}.

Record CfnJobQueue : Type := {
  priority : Z;
  computeEnvironmentOrder : list (Z * CfnComputeEnvironment)
}.

End Resources.

(* ===================================================================== *)
(** ** Amazon States Language: the constructs and how they run            *)
(* ===================================================================== *)

Module ASL.
Import Json Resources.

Inductive IntegrationPattern : Type :=
| REQUEST_RESPONSE
| RUN_JOB.

(** [tasks.LambdaInvoke].  A path the source leaves out holds the
    construct's default, ["$"]; [payload] left out sends the whole input. *)
Record LambdaInvokeProps : Type := {
  lambdaFunction : LambdaFunction;
  inputPath : string;
  resultPath : string;
  outputPath : string;
  payload : option (list (string * string))
}.

(** [tasks.BatchSubmitJob]; [command] is [containerOverrides.command]. *)
Record BatchSubmitJobProps : Type := {
  jobName : string;
  jobQueue : CfnJobQueue;
  jobDefinition : CfnJobDefinition;
  command : string;
  integrationPattern : IntegrationPattern
}.

(** [sfn.Map]; [maxConcurrency] 0 is the language's "no limit". *)
Record MapProps : Type := {
  maxConcurrency : nat;
  itemsPath : string;
  itemSelector : option (list (string * string));
  mapResultPath : string
}.

Record FailProps : Type := { cause : string; error : string }.

(** The options of [addCatch]. *)
Record CatchProps : Type := { errors : list string; catchResultPath : string }.

Section Machine.

(** The construct ids of the states. *)
Variable name : Type.

Inductive Kind : Type :=
| LambdaInvoke (p : LambdaInvokeProps)
| BatchSubmitJob (p : BatchSubmitJobProps)
| Map (p : MapProps) (itemProcessor : name)
| Fail (p : FailProps)
| Succeed.

(** A state with what [.next] and [.addCatch] attached to it. *)
Record State : Type := {
  kind : Kind;
  next : option name;
  catchers : list (CatchProps * name)
}.

Record StateMachine : Type := {
  startAt : name;
  states : name -> State
}.

(** *** What an execution consists of *)

(** Entries of the execution history. *)
Inductive Ev : Type :=
| StateEntered (s : name)
| LambdaInvoked (f : LambdaFunction) (input : json)
| StateSucceeded (s : name)
| StateFailed (s : name) (e : string)
| Caught (s : name) (e : string) (target : name)
| MapStarted (s : name) (count : nat)
| IterationStarted
| IterationSucceeded
| IterationFailed
| JobSubmitted (s : name) (jobName command : json)
| JobRejected (s : name)
| AttemptStarted (s : name) (a : nat)
| JobSucceeded (s : name)
| JobFailed (s : name).

(** An entry belongs to the main flow or to iteration [k] of Map state
    [m]; the last entry of an execution is its outcome. *)
Inductive Event : Type :=
| Top (e : Ev)
| Item (m : name) (k : nat) (e : Ev)
| ExecutionSucceeded
| ExecutionFailed (e : string) (c : json).

(** What the world answers to an outstanding request: a Lambda's return
    value or exception, Batch accepting or rejecting SubmitJob, a job
    attempt ending well or badly. *)
Inductive Response : Type :=
| Ok (r : json)
| Err (e : string) (c : json).

Inductive Move : Type :=
| Enter
| Respond (r : Response).

(** A flow of control: about to enter state [s] with input [d], or inside
    task [s] waiting for an answer.  For a Batch task [a] is 0 while
    SubmitJob is outstanding and the number of the running attempt
    afterwards. *)
Inductive Thread : Type :=
| Pending (s : name) (d : json)
| Waiting (s : name) (d : json) (a : nat).

Inductive Outcome : Type :=
| Continue (t : Thread)
| Complete (out : json)
| Failure (e : string) (c : json).

Record Iteration : Type := { index : nat; item : json; thread : Thread }.

Inductive Status : Type :=
| SUCCEEDED
| FAILED (e : string) (c : json).

Inductive Config : Type :=
| Run (t : Thread)
| AtMap (s : name) (d : json) (n : nat) (pending : list json)
        (inflight : list Iteration) (done : list (nat * json))
| Ended (st : Status).

(** What can happen next: the main flow moves, iteration [k] moves, the
    Map starts its next item, the Map finds all its items done. *)
Inductive Action : Type :=
| Main (m : Move)
| Iter (k : nat) (m : Move)
| Dispatch
| MapDone.

(** *** How a state machine runs *)

Variable M : StateMachine.

(** The context object [$$] of a state of the main flow and of a state
    inside iteration [k] over [item]. *)
Definition stateCtx (now : json) : json :=
  JObj [("State", JObj [("EnteredTime", now)])].

Definition itemCtx (now : json) (k : nat) (v : json) : json :=
  JObj [("State", JObj [("EnteredTime", now)]);
        ("Map", JObj [("Item", JObj [("Index", JNum (Z.of_nat k));
                                     ("Value", v)])])].

(** The error output a catcher stores. *)
Definition errorOutput (e : string) (c : json) : json :=
  JObj [("Error", JStr e); ("Cause", c)].

(** [States.ALL] matches every error name except the two the language
    reserves as terminal. *)
Definition uncatchable (e : string) : bool :=
  String.eqb e "States.Runtime" || String.eqb e "States.DataLimitExceeded".

Definition handles (cp : CatchProps) (e : string) : bool :=
  existsb (String.eqb e) (errors cp) ||
  (existsb (String.eqb "States.ALL") (errors cp) && negb (uncatchable e)).

(** The first catcher of the state that handles [e], applied: the state to
    go to and its input. *)
Definition recover (st : State) (d : json) (e : string) (c : json)
  : option (name * json) :=
  match find (fun cn => handles (fst cn) e) (catchers st) with
  | Some (cp, target) =>
      match store (catchResultPath cp) (errorOutput e c) d with
      | Some d' => Some (target, d')
      | None => None
      end
  | None => None
  end.

(** State [s], entered with input [d], fails with error [e]. *)
Definition failed (s : name) (d : json) (e : string) (c : json)
  : Outcome * list Ev :=
  match recover (states M s) d e c with
  | Some (target, d') =>
      (Continue (Pending target d'), [StateFailed s e; Caught s e target])
  | None => (Failure e c, [StateFailed s e])
  end.

(** State [s], entered with input [d], produces result [r]: ResultPath,
    OutputPath, then the transition. *)
Definition finish (s : name) (d : json) (resPath outPath : string)
  (ctx : json) (r : json) : Outcome * list Ev :=
  match store resPath r d with
  | Some d1 =>
      match eval outPath ctx d1 with
      | Some d2 =>
          (match next (states M s) with
           | Some s' => Continue (Pending s' d2)
           | None => Complete d2
           end, [StateSucceeded s])
      | None => failed s d "States.Runtime" (JStr outPath)
      end
  | None => failed s d "States.ResultPathMatchFailure" (JStr resPath)
  end.

(** What a Lambda task hands back: the invocation result, the function's
    return value under [Payload]. *)
Definition lambdaResult (r : json) : json :=
  JObj [("ExecutedVersion", JStr "$LATEST"); ("Payload", r);
        ("StatusCode", JNum 200)].

Definition prepend (e : Ev) (o : Outcome * list Ev) : Outcome * list Ev :=
  (fst o, e :: snd o).

(** Entering a task state: the request is built from the input and sent. *)
Definition enterTask (ctx : json) (s : name) (d : json) : Outcome * list Ev :=
  match kind (states M s) with
  | LambdaInvoke p =>
      match eval (inputPath p) ctx d with
      | Some eff =>
          match match payload p with
                | Some tpl => option_map JObj (fill tpl ctx eff)
                | None => Some eff
                end with
          | Some pl =>
              (Continue (Waiting s d 0),
               [StateEntered s; LambdaInvoked (lambdaFunction p) pl])
          | None =>
              prepend (StateEntered s) (failed s d "States.Runtime" (JStr "Payload"))
          end
      | None =>
          prepend (StateEntered s)
                  (failed s d "States.Runtime" (JStr (inputPath p)))
      end
  | BatchSubmitJob p =>
      match eval (jobName p) ctx d, eval (command p) ctx d with
      | Some n, Some cmd =>
          (Continue (Waiting s d 0), [StateEntered s; JobSubmitted s n cmd])
      | _, _ =>
          prepend (StateEntered s)
                  (failed s d "States.Runtime" (JStr "Parameters"))
      end
  | _ => (Failure "States.Runtime" (JStr "not a task"), [StateEntered s])
  end.

(** An answer arrives for the request of task [s].  A job that ends badly
    is run again by Batch while its definition's [retryStrategy.attempts]
    allows; only the failure of the last attempt fails the task. *)
Definition respond (ctx : json) (s : name) (d : json) (a : nat) (r : Response)
  : Outcome * list Ev :=
  match kind (states M s), r with
  | LambdaInvoke p, Ok v =>
      finish s d (resultPath p) (outputPath p) ctx (lambdaResult v)
  | LambdaInvoke p, Err e c => failed s d e c
  | BatchSubmitJob p, Ok v =>
      match a with
      | O =>
          match integrationPattern p with
          | REQUEST_RESPONSE => finish s d "$" "$" ctx v
          | RUN_JOB => (Continue (Waiting s d 1), [AttemptStarted s 1])
          end
      | S _ => prepend (JobSucceeded s) (finish s d "$" "$" ctx v)
      end
  | BatchSubmitJob p, Err e c =>
      match a with
      | O => prepend (JobRejected s) (failed s d e c)
      | S _ =>
          if (a <? retryAttempts (jobDefinition p))%nat then
            (Continue (Waiting s d (S a)), [AttemptStarted s (S a)])
          else prepend (JobFailed s) (failed s d "States.TaskFailed" c)
      end
  | _, _ => (Failure "States.Runtime" (JStr "not a task"), [])
  end.

Definition move (ctx : json) (t : Thread) (m : Move)
  : option (Outcome * list Ev) :=
  match t, m with
  | Pending s d, Enter => Some (enterTask ctx s d)
  | Waiting s d a, Respond r => Some (respond ctx s d a r)
  | _, _ => None
  end.

(** The main flow: where it goes on, or how the execution ends. *)
Definition conclude (o : Outcome * list Ev) : Config * list Event :=
  match fst o with
  | Continue t => (Run t, map Top (snd o))
  | Complete _ => (Ended SUCCEEDED, map Top (snd o) ++ [ExecutionSucceeded])
  | Failure e c => (Ended (FAILED e c), map Top (snd o) ++ [ExecutionFailed e c])
  end.

Definition after (evs : list Event) (r : Config * list Event)
  : Config * list Event :=
  (fst r, evs ++ snd r).

(** The main flow enters state [s]. *)
Definition enterState (now : json) (s : name) (d : json) : Config * list Event :=
  match kind (states M s) with
  | Map p _ =>
      match eval (itemsPath p) (stateCtx now) d with
      | Some (JArr items) =>
          (AtMap s d 0 items [] [],
           [Top (StateEntered s); Top (MapStarted s (List.length items))])
      | _ =>
          after [Top (StateEntered s)]
                (conclude (failed s d "States.Runtime" (JStr (itemsPath p))))
      end
  | Fail p =>
      (Ended (FAILED (error p) (JStr (cause p))),
       [Top (StateEntered s); ExecutionFailed (error p) (JStr (cause p))])
  | Succeed => (Ended SUCCEEDED, [Top (StateEntered s); ExecutionSucceeded])
  | _ => conclude (enterTask (stateCtx now) s d)
  end.

(** A Map starts an item only while fewer than [maxConcurrency] iterations
    are in flight. *)
Definition hasRoom (p : MapProps) (inflight : list Iteration) : bool :=
  (maxConcurrency p =? 0)%nat || (List.length inflight <? maxConcurrency p)%nat.

Definition isIter (k : nat) (it : Iteration) : bool := (index it =? k)%nat.

Definition setThread (k : nat) (t : Thread) (it : Iteration) : Iteration :=
  if isIter k it then {| index := index it; item := item it; thread := t |}
  else it.

(** Results are kept in item order. *)
Fixpoint insertResult (k : nat) (v : json) (done : list (nat * json))
  : list (nat * json) :=
  match done with
  | [] => [(k, v)]
  | (k', v') :: rest =>
      if (k <? k')%nat then (k, v) :: done else (k', v') :: insertResult k v rest
  end.

(** The input of an iteration. *)
Definition itemInput (p : MapProps) (now : json) (k : nat) (v d : json)
  : option json :=
  match itemSelector p with
  | Some tpl => option_map JObj (fill tpl (itemCtx now k v) d)
  | None => Some v
  end.

Definition stepMap (now : json) (s : name) (p : MapProps) (proc : name)
  (d : json) (n : nat) (pending : list json) (inflight : list Iteration)
  (done : list (nat * json)) (a : Action) : option (Config * list Event) :=
  match a with
  | Dispatch =>
      match pending with
      | v :: rest =>
          if hasRoom p inflight then
            match itemInput p now n v d with
            | Some input =>
                Some (AtMap s d (S n) rest
                        (inflight ++
                         [{| index := n; item := v;
                             thread := Pending proc input |}]) done,
                      [Item s n IterationStarted])
            | None =>
                Some (conclude (failed s d "States.Runtime" (JStr "ItemSelector")))
            end
          else None
      | [] => None
      end
  | Iter k m =>
      match find (isIter k) inflight with
      | Some it =>
          match move (itemCtx now k (item it)) (thread it) m with
          | Some (Continue t', evs) =>
              Some (AtMap s d n pending (map (setThread k t') inflight) done,
                    map (Item s k) evs)
          | Some (Complete out, evs) =>
              Some (AtMap s d n pending
                      (filter (fun it' => negb (isIter k it')) inflight)
                      (insertResult k out done),
                    map (Item s k) (evs ++ [IterationSucceeded]))
          | Some (Failure e c, evs) =>
              Some (after (map (Item s k) (evs ++ [IterationFailed]))
                          (conclude (failed s d e c)))
          | None => None
          end
      | None => None
      end
  | MapDone =>
      match pending, inflight with
      | [], [] =>
          Some (conclude (finish s d (mapResultPath p) "$" (stateCtx now)
                                 (JArr (map snd done))))
      | _, _ => None
      end
  | Main _ => None
  end.

(** One step of an execution; [None] when the action cannot happen in this
    configuration.  An ended execution takes no step. *)
Definition step (now : json) (c : Config) (a : Action)
  : option (Config * list Event) :=
  match c with
  | Run (Pending s d) =>
      match a with
      | Main Enter => Some (enterState now s d)
      | _ => None
      end
  | Run (Waiting s d k) =>
      match a with
      | Main (Respond r) => Some (conclude (respond (stateCtx now) s d k r))
      | _ => None
      end
  | AtMap s d n pending inflight done =>
      match kind (states M s) with
      | Map p proc => stepMap now s p proc d n pending inflight done a
      | _ => None
      end
  | Ended _ => None
  end.

(** A run: the actions taken one after the other, the [t]-th at logical
    time [t]; the history is the concatenation of the steps' entries. *)
Fixpoint exec (t : nat) (c : Config) (acts : list Action)
  : option (Config * list Event) :=
  match acts with
  | [] => Some (c, [])
  | a :: rest =>
      match step (JNum (Z.of_nat t)) c a with
      | Some (c', evs) =>
          match exec (S t) c' rest with
          | Some (c'', evs') => Some (c'', evs ++ evs')
          | None => None
          end
      | None => None
      end
  end.

Definition start (input : json) : Config := Run (Pending (startAt M) input).

Definition run (input : json) (acts : list Action)
  : option (Config * list Event) :=
  exec 0 (start input) acts.

End Machine.

Arguments LambdaInvoke {name}.
Arguments BatchSubmitJob {name}.
Arguments Map {name}.
Arguments Fail {name}.
Arguments Succeed {name}.
Arguments Build_State {name}.
Arguments kind {name}.
Arguments next {name}.
Arguments catchers {name}.
Arguments Build_StateMachine {name}.
Arguments startAt {name}.
Arguments states {name}.
Arguments StateEntered {name}.
Arguments LambdaInvoked {name}.
Arguments StateSucceeded {name}.
Arguments StateFailed {name}.
Arguments Caught {name}.
Arguments MapStarted {name}.
Arguments IterationStarted {name}.
Arguments IterationSucceeded {name}.
Arguments IterationFailed {name}.
Arguments JobSubmitted {name}.
Arguments JobRejected {name}.
Arguments AttemptStarted {name}.
Arguments JobSucceeded {name}.
Arguments JobFailed {name}.
Arguments Top {name}.
Arguments Item {name}.
Arguments ExecutionSucceeded {name}.
Arguments ExecutionFailed {name}.
Arguments Pending {name}.
Arguments Waiting {name}.
Arguments Continue {name}.
Arguments Complete {name}.
Arguments Failure {name}.
Arguments Build_Iteration {name}.
Arguments index {name}.
Arguments item {name}.
Arguments thread {name}.
Arguments Run {name}.
Arguments AtMap {name}.
Arguments Ended {name}.
Arguments recover {name}.
Arguments failed {name}.
Arguments finish {name}.
Arguments enterTask {name}.
Arguments respond {name}.
Arguments move {name}.
Arguments conclude {name}.
Arguments after {name}.
Arguments enterState {name}.
Arguments hasRoom {name}.
Arguments isIter {name}.
Arguments setThread {name}.
Arguments stepMap {name}.
Arguments step {name}.
Arguments exec {name}.
Arguments start {name}.
Arguments run {name}.

End ASL.

(* ===================================================================== *)
(** ** LambdaStack, RegenieJobDefinition, ComputeStack                    *)
(* ===================================================================== *)

Module LambdaStack.
Import Resources.

Definition workflowInitFunction : LambdaFunction :=
  {| functionName := "WorkflowInitFunction";
     description := "Initializes GWAS workflows and validates input data";
     lambdaModule := "workflow_init";
     timeoutSeconds := 300;
     memorySize := 512 |}.

Definition jobCalculatorFunction : LambdaFunction :=
  {| functionName := "JobCalculatorFunction";
     description := "Calculates and creates batch jobs for GWAS analysis";
     lambdaModule := "job_calculator";
     timeoutSeconds := 15 * 60;
     memorySize := 512 |}.

Definition commandParserFunction : LambdaFunction :=
  {| functionName := "CommandParserFunction";
     description := "Parses and validates GWAS analysis commands";
     lambdaModule := "command_parser";
     timeoutSeconds := 60;
     memorySize := 256 |}.

Definition errorHandlerFunction : LambdaFunction :=
  {| functionName := "ErrorHandlerFunction";
     description := "Handles workflow and job errors";
     lambdaModule := "error_handler";
     timeoutSeconds := 180;
     memorySize := 256 |}.

Definition successHandlerFunction : LambdaFunction :=
  {| functionName := "SuccessHandlerFunction";
     description := "Handles successful workflow completion";
     lambdaModule := "success_handler";
     timeoutSeconds := 60;
     memorySize := 256 |}.

End LambdaStack.

Module ComputeStack.
Import Resources.

(** [RegenieJobDefinitionProps]: the two optional sizes.  The source renders
    them with [toString]; they are kept as numbers here. *)
Record RegenieJobDefinitionProps : Type := {
  propVcpus : option Z;
  propMemoryMiB : option Z
}.

Definition orElse (o : option Z) (dflt : Z) : Z :=
  match o with
  | Some v => v
  | None => dflt
  end.

(** [new RegenieJobDefinition(...)]: the job definition it creates. *)
Definition RegenieJobDefinition (props : RegenieJobDefinitionProps)
  : CfnJobDefinition :=
  {| jobType := "container";
     vcpus := orElse (propVcpus props) 4;
     memory := orElse (propMemoryMiB props) 16384;
     retryAttempts := 2;
     attemptDurationSeconds := 7200;
     propagateTags := true |}.

Definition computeEnvironment : CfnComputeEnvironment :=
  {| computeType := "SPOT"; maxvCpus := 1000; minvCpus := 1; desiredvCpus := 1 |}.

Definition batchJobQueue : CfnJobQueue :=
  {| priority := 1; computeEnvironmentOrder := [(1%Z, computeEnvironment)] |}.

(** [ComputeStackProps]: the job sizes read from the CDK context. *)
Definition batchJobDefinition (jobVcpus jobMemoryMiB : option Z)
  : CfnJobDefinition :=
  RegenieJobDefinition {| propVcpus := jobVcpus; propMemoryMiB := jobMemoryMiB |}.

End ComputeStack.

(* ===================================================================== *)
(** ** WorkflowStack                                                      *)
(* ===================================================================== *)

Module WorkflowStack.
Import Json Resources ASL.

Record WorkflowStackProps : Type := {
  workflowInitFunction : LambdaFunction;
  jobCalculatorFunction : LambdaFunction;
  errorHandlerFunction : LambdaFunction;
  commandParserFunction : LambdaFunction;
  successHandlerFunction : LambdaFunction;
  batchJobQueue : CfnJobQueue;
  batchJobDefinition : CfnJobDefinition
}.

(** The states, by the id each construct is created with. *)
Inductive StateName : Type :=
| InitializeWorkflow
| CalculateBatchJobs
| ParseStep1Command
| ParseStep2Command
| SubmitStep1Job
| SubmitStep2Job
| HandleJobErrors
| WorkflowFailed
| SubmitStep1Jobs
| SubmitStep2Jobs
| HandleSuccess
| WorkflowSucceeded.

(** The constructs [createGwasWorkflow] creates. *)
Definition construct (props : WorkflowStackProps) (s : StateName)
  : Kind StateName :=
  match s with
  | InitializeWorkflow =>
      LambdaInvoke {| lambdaFunction := workflowInitFunction props;
                      inputPath := "$";
                      resultPath := "$";
                      outputPath := "$.Payload";
                      payload := None |}
  | CalculateBatchJobs =>
      LambdaInvoke {| lambdaFunction := jobCalculatorFunction props;
                      inputPath := "$";
                      resultPath := "$.JobCalculation";
                      outputPath := "$";
                      payload := Some [
                        ("workflowId.$", "$.workflowId");
                        ("s3Path.$", "$.s3Path");
                        ("analysisSubdir.$", "$.dataBucketPrefix");
                        ("inputData.$", "$.parameters.inputData");
                        ("analysisParams.$", "$.parameters.analysisParams");
                        ("outputParams.$", "$.parameters.outputParams") ] |}
  | ParseStep1Command =>
      LambdaInvoke {| lambdaFunction := commandParserFunction props;
                      inputPath := "$";
                      resultPath := "$.parsedCommand";
                      outputPath := "$";
                      payload := None |}
  | ParseStep2Command =>
      LambdaInvoke {| lambdaFunction := commandParserFunction props;
                      inputPath := "$";
                      resultPath := "$.parsedCommand";
                      outputPath := "$";
                      payload := None |}
  | SubmitStep1Job =>
      BatchSubmitJob {|
        jobName := "$.jobId";
        jobQueue := batchJobQueue props;
        jobDefinition := batchJobDefinition props;
        command :=
          "$.parsedCommand.Payload.jobSubmission.ContainerOverrides.Command";
        integrationPattern := RUN_JOB |}
  | SubmitStep2Job =>
      BatchSubmitJob {|
        jobName := "$.jobId";
        jobQueue := batchJobQueue props;
        jobDefinition := batchJobDefinition props;
        command :=
          "$.parsedCommand.Payload.jobSubmission.ContainerOverrides.Command";
        integrationPattern := RUN_JOB |}
  | HandleJobErrors =>
      LambdaInvoke {| lambdaFunction := errorHandlerFunction props;
                      inputPath := "$";
                      resultPath := "$.errorHandlingResult";
                      outputPath := "$";
                      payload := Some [
                        ("workflowId.$", "$.workflowId");
                        ("failedJobs.$", "$.error.Cause[*].ErrorDetails") ] |}
  | WorkflowFailed =>
      Fail {| cause := "Job execution failed"; error := "BatchJobError" |}
  | SubmitStep1Jobs =>
      Map {| maxConcurrency := 1;
             itemsPath := "$.JobCalculation.Payload.step1Jobs";
             itemSelector := Some [
               ("jobId.$", "$$.Map.Item.Value.jobId");
               ("Command.$", "$$.Map.Item.Value.Command");
               ("stepNumber.$", "$$.Map.Item.Value.stepNumber");
               ("workflowId.$", "$.workflowId") ];
             mapResultPath := "$.Step1BatchJobs" |}
          ParseStep1Command
  | SubmitStep2Jobs =>
      Map {| maxConcurrency := 50;
             itemsPath := "$.JobCalculation.Payload.step2Jobs";
             itemSelector := Some [
               ("jobId.$", "$$.Map.Item.Value.jobId");
               ("Command.$", "$$.Map.Item.Value.Command");
               ("stepNumber.$", "$$.Map.Item.Value.stepNumber");
               ("workflowId.$", "$.workflowId") ];
             mapResultPath := "$.Step2BatchJobs" |}
          ParseStep2Command
  | HandleSuccess =>
      LambdaInvoke {| lambdaFunction := successHandlerFunction props;
                      inputPath := "$";
                      resultPath := "$.successResult";
                      outputPath := "$";
                      payload := Some [
                        ("workflowId.$", "$.workflowId");
                        ("resultsBucketPath.$", "$.resultsBucketPath");
                        ("completionTime.$", "$$.State.EnteredTime") ] |}
  | WorkflowSucceeded => Succeed
  end.

(** The [.next] calls: the two processor chains, the error branch and the
    workflow flow. *)
Definition nextOf (s : StateName) : option StateName :=
  match s with
  | ParseStep1Command => Some SubmitStep1Job
  | ParseStep2Command => Some SubmitStep2Job
  | HandleJobErrors => Some WorkflowFailed
  | InitializeWorkflow => Some CalculateBatchJobs
  | CalculateBatchJobs => Some SubmitStep1Jobs
  | SubmitStep1Jobs => Some SubmitStep2Jobs
  | SubmitStep2Jobs => Some HandleSuccess
  | HandleSuccess => Some WorkflowSucceeded
  | SubmitStep1Job | SubmitStep2Job | WorkflowFailed | WorkflowSucceeded => None
  end.

(** The [.addCatch] calls. *)
Definition catchOf (s : StateName) : list (CatchProps * StateName) :=
  match s with
  | SubmitStep1Jobs =>
      [({| errors := ["States.ALL"]; catchResultPath := "$.error" |},
        HandleJobErrors)]
  | SubmitStep2Jobs =>
      [({| errors := ["States.ALL"]; catchResultPath := "$.error" |},
        HandleJobErrors)]
  | _ => []
  end.

(** [createGwasWorkflow]: the chain it returns starts at
    [initializeWorkflow]. *)
Definition createGwasWorkflow (props : WorkflowStackProps)
  : StateMachine StateName :=
  {| startAt := InitializeWorkflow;
     states := fun s =>
       {| kind := construct props s; next := nextOf s; catchers := catchOf s |} |}.

End WorkflowStack.

(* ===================================================================== *)
(** ** StorageStack and QueueProcessingStack: the manifest trigger        *)
(* ===================================================================== *)

Module Trigger.
Import Json Resources.

(** An EventBridge event of S3, reduced to the fields the rule reads. *)
Record S3Event : Type := {
  source : string;
  detailType : string;
  bucketName : string;
  objectKey : string
}.

(** A value of a pattern array: a literal or a [{ suffix: ... }] filter. *)
Inductive Matcher : Type :=
| Exactly (s : string)
| Suffix (s : string).

Definition matchOne (m : Matcher) (v : string) : bool :=
  match m with
  | Exactly s => String.eqb v s
  | Suffix s => endsWith s v
  end.

(** A pattern field matches when one of its values does. *)
Definition matchAny (ms : list Matcher) (v : string) : bool :=
  existsb (fun m => matchOne m v) ms.

Record EventPattern : Type := {
  patSource : list Matcher;
  patDetailType : list Matcher;
  patBucketName : list Matcher;
  patObjectKey : list Matcher
}.

Definition matchesPattern (p : EventPattern) (e : S3Event) : bool :=
  matchAny (patSource p) (source e) &&
  matchAny (patDetailType p) (detailType e) &&
  matchAny (patBucketName p) (bucketName e) &&
  matchAny (patObjectKey p) (objectKey e).

(** Where a notification can be: at a topic, in a queue, at a function. *)
Inductive Hop : Type :=
| SnsTopic (id : string)
| SqsQueue (id : string)
| Lambda (f : LambdaFunction).

Record Rule : Type := {
  ruleDescription : string;
  eventPattern : EventPattern;
  targets : list Hop
}.

(** [StorageStack]: the rule on the data bucket and its target. *)
Definition manifestRule (dataBucketName : string) : Rule :=
  {| ruleDescription := "Trigger on .json manifest file uploads to data bucket";
     eventPattern :=
       {| patSource := [Exactly "aws.s3"];
          patDetailType := [Exactly "Object Created"];
          patBucketName := [Exactly dataBucketName];
          patObjectKey := [Suffix ".json"] |};
     targets := [SnsTopic "ManifestNotificationTopic"] |}.

(** [QueueProcessingStack]: the function that consumes the queue. *)
Definition manifestProcessorFunction : LambdaFunction :=
  {| functionName := "ManifestProcessorFunction";
     description := "Processes manifest files and triggers GWAS workflows";
     lambdaModule := "manifest_trigger";
     timeoutSeconds := 300;
     memorySize := 512 |}.

(** The subscription of the queue to the topic and the event source mapping
    from the queue to the function. *)
Definition forwards (h : Hop) : list Hop :=
  match h with
  | SnsTopic id =>
      if String.eqb id "ManifestNotificationTopic"
      then [SqsQueue "ManifestQueue"] else []
  | SqsQueue id =>
      if String.eqb id "ManifestQueue"
      then [Lambda manifestProcessorFunction] else []
  | Lambda _ => []
  end.

(** The hops a notification makes in [n] rounds of forwarding. *)
Fixpoint relay (n : nat) (hs : list Hop) : list Hop :=
  match n with
  | O => hs
  | S n' => relay n' (flat_map forwards hs)
  end.

(** The functions an event ends at: rule, topic, queue, function. *)
Definition delivered (r : Rule) (e : S3Event) : list Hop :=
  if matchesPattern (eventPattern r) e then relay 2 (targets r) else [].

End Trigger.

(* ===================================================================== *)
(** ** The application: how [bin/cdk.ts] wires the stacks                 *)
(* ===================================================================== *)

Module App.
Import Resources ASL WorkflowStack.

(** The props [bin/cdk.ts] passes to [WorkflowStack]; the two job sizes come
    from the CDK context and may be absent. *)
Definition workflowStackProps (jobVcpus jobMemoryMiB : option Z)
  : WorkflowStackProps :=
  {| workflowInitFunction := LambdaStack.workflowInitFunction;
     jobCalculatorFunction := LambdaStack.jobCalculatorFunction;
     errorHandlerFunction := LambdaStack.errorHandlerFunction;
     commandParserFunction := LambdaStack.commandParserFunction;
     successHandlerFunction := LambdaStack.successHandlerFunction;
     batchJobQueue := ComputeStack.batchJobQueue;
     batchJobDefinition := ComputeStack.batchJobDefinition jobVcpus jobMemoryMiB |}.

Definition stateMachine (jobVcpus jobMemoryMiB : option Z)
  : StateMachine StateName :=
  createGwasWorkflow (workflowStackProps jobVcpus jobMemoryMiB).

End App.

(* ===================================================================== *)
(** ** Executions of the workflow                                         *)
(* ===================================================================== *)

Module Behaviour.
Import Json Resources ASL WorkflowStack.

Definition cur (t : Thread StateName) : StateName :=
  match t with
  | Pending s _ => s
  | Waiting s _ _ => s
  end.

Definition isObj (d : json) : Prop :=
  match d with
  | JObj _ => True
  | _ => False
  end.

(** The two Map states and, for each, the states of its item processor and
    the state that follows it. *)
Definition isMap (m : StateName) : Prop :=
  m = SubmitStep1Jobs \/ m = SubmitStep2Jobs.

Definition parseOf (m : StateName) : StateName :=
  match m with
  | SubmitStep1Jobs => ParseStep1Command
  | _ => ParseStep2Command
  end.

Definition submitOf (m : StateName) : StateName :=
  match m with
  | SubmitStep1Jobs => SubmitStep1Job
  | _ => SubmitStep2Job
  end.

Definition afterMap (m : StateName) : StateName :=
  match m with
  | SubmitStep1Jobs => SubmitStep2Jobs
  | _ => HandleSuccess
  end.

Definition limitOf (m : StateName) : nat :=
  match m with
  | SubmitStep1Jobs => 1
  | _ => 50
  end.

(** The Lambda tasks of the main flow, the Lambda tasks, the Batch tasks. *)
Definition isMainTask (s : StateName) : Prop :=
  s = InitializeWorkflow \/ s = CalculateBatchJobs \/
  s = HandleJobErrors \/ s = HandleSuccess.

Definition isLambda (s : StateName) : Prop :=
  isMainTask s \/ s = ParseStep1Command \/ s = ParseStep2Command.

Definition isBatch (s : StateName) : Prop :=
  s = SubmitStep1Job \/ s = SubmitStep2Job.

Definition isJobSubmitted (e : Ev StateName) : Prop :=
  match e with
  | JobSubmitted _ _ _ => True
  | _ => False
  end.

(** The end of a job: it ran to success, failed its last attempt, or was
    refused at submission. *)
Definition isJobEnd (e : Ev StateName) : Prop :=
  match e with
  | JobSucceeded _ | JobFailed _ | JobRejected _ => True
  | _ => False
  end.


(** *** Histories *)

Abbreviation History := (list (Event StateName)).

(** Nothing of Map state [m] has happened. *)
Definition untouched (m : StateName) (tr : History) : Prop :=
  ~ In (Top (StateEntered m)) tr /\
  (forall n, ~ In (Top (MapStarted m n)) tr) /\
  (forall k e, ~ In (Item m k e) tr).

(** Map state [m] was entered, ran the job of every one of its items to
    success, and succeeded. *)
Definition allSucceeded (m : StateName) (tr : History) : Prop :=
  In (Top (StateEntered m)) tr /\
  In (Top (StateSucceeded m)) tr /\
  (exists n, In (Top (MapStarted m n)) tr) /\
  (forall n, In (Top (MapStarted m n)) tr ->
     forall k, k < n -> In (Item m k (JobSucceeded (submitOf m))) tr).

(** Map state [m] is at work: it started with [n + |pending|] items, the
    first [n] have been started, and each of those is in flight or has had
    its job succeed. *)
Definition underway (m : StateName) (n : nat) (pending : list json)
  (inflight : list (Iteration StateName)) (tr : History) : Prop :=
  In (Top (StateEntered m)) tr /\
  In (Top (MapStarted m (n + List.length pending))) tr /\
  (forall n0, In (Top (MapStarted m n0)) tr -> n0 = n + List.length pending) /\
  (forall k e, In (Item m k e) tr -> k < n) /\
  (forall k, k < n ->
     (exists it, In it inflight /\ index it = k) \/
     In (Item m k (JobSucceeded (submitOf m))) tr).

(** An entry that shows Map state [m] at work. *)
Definition touches (m : StateName) (e : Event StateName) : Prop :=
  match e with
  | Top (StateEntered m') | Top (MapStarted m' _) => m' = m
  | Item m' _ _ => m' = m
  | _ => False
  end.

(** An entry that records a failure. *)
Definition isFailure (e : Event StateName) : Prop :=
  match e with
  | Top (StateFailed _ _) | Top (Caught _ _ _) => True
  | Item _ _ (StateFailed _ _) | Item _ _ IterationFailed => True
  | Item _ _ (JobFailed _) | Item _ _ (JobRejected _) => True
  | ExecutionFailed _ _ => True
  | _ => False
  end.

Definition flawless (tr : History) : Prop :=
  forall e, In e tr -> ~ isFailure e.

(** An entry that records the submission of a job. *)
Definition isSubmission (e : Event StateName) : Prop :=
  match e with
  | Item _ _ (JobSubmitted _ _ _) => True
  | _ => False
  end.

(** Where an execution is. *)
Inductive Phase : Type :=
| Early
| InStep1
| Between
| InStep2
| Late
| Broken.

Definition phaseOfState (s : StateName) : Phase :=
  match s with
  | InitializeWorkflow | CalculateBatchJobs | SubmitStep1Jobs => Early
  | SubmitStep2Jobs => Between
  | HandleSuccess | WorkflowSucceeded => Late
  | _ => Broken
  end.

Definition phase (c : Config StateName) : Phase :=
  match c with
  | Run t => phaseOfState (cur t)
  | AtMap SubmitStep1Jobs _ _ _ _ _ => InStep1
  | AtMap _ _ _ _ _ _ => InStep2
  | Ended SUCCEEDED => Late
  | Ended (FAILED _ _) => Broken
  end.

(** What the history holds in each phase. *)
Definition Ordered (c : Config StateName) (tr : History) : Prop :=
  match c with
  | AtMap m d n pending inflight done =>
      underway m n pending inflight tr /\
      match m with
      | SubmitStep1Jobs => untouched SubmitStep2Jobs tr
      | _ => allSucceeded SubmitStep1Jobs tr
      end
  | _ =>
      match phase c with
      | Early => untouched SubmitStep1Jobs tr /\ untouched SubmitStep2Jobs tr
      | Between =>
          allSucceeded SubmitStep1Jobs tr /\ untouched SubmitStep2Jobs tr
      | Late =>
          allSucceeded SubmitStep1Jobs tr /\ allSucceeded SubmitStep2Jobs tr
      | _ => True
      end
  end.

(** The phase-1 jobs in flight after a history: submitted and not ended. *)
Definition openStep1 (acc : list nat) (e : Event StateName) : list nat :=
  match e with
  | Item SubmitStep1Jobs k (JobSubmitted _ _ _) => k :: acc
  | Item SubmitStep1Jobs k (JobSucceeded _)
  | Item SubmitStep1Jobs k (JobFailed _)
  | Item SubmitStep1Jobs k (JobRejected _) => remove Nat.eq_dec k acc
  | _ => acc
  end.

Definition openJobs (tr : History) : list nat := fold_left openStep1 tr [].

(** The iterations of the phase-1 Map whose job is awaited. *)
Definition awaitsJob (it : Iteration StateName) : bool :=
  match thread it with
  | Waiting SubmitStep1Job _ _ | Waiting SubmitStep2Job _ _ => true
  | _ => false
  end.

Definition flying (c : Config StateName) : list nat :=
  match c with
  | AtMap SubmitStep1Jobs _ _ _ inflight _ =>
      map (@index StateName) (filter awaitsJob inflight)
  | _ => []
  end.

(** A flow that has not yet asked Batch for its job. *)
Definition unsubmitted (m : StateName) (t : Thread StateName) : Prop :=
  match t with
  | Pending _ _ => True
  | Waiting s _ _ => s = parseOf m
  end.

(** How many more steps an execution on the failure branch can take. *)
Definition rank (c : Config StateName) : nat :=
  match c with
  | Run (Pending HandleJobErrors _) => 3
  | Run (Waiting HandleJobErrors _ _) => 2
  | Run (Pending WorkflowFailed _) => 1
  | _ => 0
  end.

(** An entry that does not change the phase-1 jobs in flight. *)
Definition inert (e : Event StateName) : Prop :=
  forall acc, openStep1 acc e = acc.

(** An iteration that has not asked for its job has no submission in the
    history. *)
Definition fresh (c : Config StateName) (tr : History) : Prop :=
  match c with
  | AtMap m d n p i dn =>
      forall it, In it i -> unsubmitted m (thread it) ->
      forall s j cmd, ~ In (Item m (index it) (JobSubmitted s j cmd)) tr
  | _ => True
  end.

(** Where an execution can be once the phase-2 Map state has succeeded;
    a failed end then shows the failure of the success handler step. *)
Definition afterStep2 (c : Config StateName) (tr : History) : Prop :=
  match c with
  | Run (Pending HandleSuccess _) | Run (Waiting HandleSuccess _ _)
  | Run (Pending WorkflowSucceeded _) | Ended SUCCEEDED => True
  | Ended (FAILED e _) => In (Top (StateFailed HandleSuccess e)) tr
  | _ => False
  end.

Section Executions.

Variable props : WorkflowStackProps.

Local Abbreviation M := (createGwasWorkflow props).
Local Abbreviation attempts := (retryAttempts (batchJobDefinition props)).

Definition lambdaOf (s : StateName) : LambdaFunction :=
  match construct props s with
  | LambdaInvoke p => lambdaFunction p
  | _ => workflowInitFunction props
  end.

(** What the two handlers are sent. *)
Definition payloadShape (s : StateName) (d pl : json) : Prop :=
  match s with
  | HandleJobErrors =>
      exists w, field "workflowId" d = Some w /\
        pl = JObj [("workflowId", w);
                   ("failedJobs",
                    JArr (select [Key "error"; Key "Cause"; Star;
                                  Key "ErrorDetails"] d))]
  | HandleSuccess =>
      exists w b t, field "workflowId" d = Some w /\
        field "resultsBucketPath" d = Some b /\
        pl = JObj [("workflowId", w); ("resultsBucketPath", b);
                   ("completionTime", t)]
  | _ => True
  end.

(** The configurations and histories a run from [input] goes through. *)
Inductive Reach (input : json)
  : Config StateName -> list (Event StateName) -> Prop :=
| reach_start : Reach input (start M input) []
| reach_step c tr now a c' evs :
    Reach input c tr ->
    step M now c a = Some (c', evs) ->
    Reach input c' (tr ++ evs).

(** The moves of a flow of control in this workflow, read off [move]: what
    the flow was, how it goes on, the history entries made. *)
Inductive Moves : Thread StateName -> Outcome StateName ->
                  list (Ev StateName) -> Prop :=
| mv_invoke s d pl :
    isLambda s -> payloadShape s d pl ->
    Moves (Pending s d) (Continue (Waiting s d 0))
          [StateEntered s; LambdaInvoked (lambdaOf s) pl]
| mv_invoke_fail s d c :
    isLambda s ->
    Moves (Pending s d) (Failure "States.Runtime" c)
          [StateEntered s; StateFailed s "States.Runtime"]
| mv_return s d a s' d' :
    isLambda s -> nextOf s = Some s' ->
    (s = InitializeWorkflow \/ isObj d') ->
    Moves (Waiting s d a) (Continue (Pending s' d')) [StateSucceeded s]
| mv_return_fail s d a e c :
    isLambda s ->
    Moves (Waiting s d a) (Failure e c) [StateFailed s e]
| mv_submit s d n cmd :
    isBatch s ->
    Moves (Pending s d) (Continue (Waiting s d 0))
          [StateEntered s; JobSubmitted s n cmd]
| mv_submit_fail s d c :
    isBatch s ->
    Moves (Pending s d) (Failure "States.Runtime" c)
          [StateEntered s; StateFailed s "States.Runtime"]
| mv_accept s d :
    isBatch s ->
    Moves (Waiting s d 0) (Continue (Waiting s d 1)) [AttemptStarted s 1]
| mv_reject s d e c :
    isBatch s ->
    Moves (Waiting s d 0) (Failure e c) [JobRejected s; StateFailed s e]
| mv_job_ok s d a out :
    isBatch s ->
    Moves (Waiting s d (S a)) (Complete out)
          [JobSucceeded s; StateSucceeded s]
| mv_retry s d a :
    isBatch s -> S a < attempts ->
    Moves (Waiting s d (S a)) (Continue (Waiting s d (S (S a))))
          [AttemptStarted s (S (S a))]
| mv_job_fail s d a c :
    isBatch s -> ~ S a < attempts ->
    Moves (Waiting s d (S a)) (Failure "States.TaskFailed" c)
          [JobFailed s; StateFailed s "States.TaskFailed"].

(** The steps of an execution of this workflow, read off [step]. *)
Inductive Trans : Config StateName -> list (Event StateName) ->
                  Config StateName -> Prop :=
| tr_invoke s d pl :
    isMainTask s -> payloadShape s d pl ->
    Trans (Run (Pending s d))
          [Top (StateEntered s); Top (LambdaInvoked (lambdaOf s) pl)]
          (Run (Waiting s d 0))
| tr_invoke_fail s d c :
    isMainTask s ->
    Trans (Run (Pending s d))
          [Top (StateEntered s); Top (StateFailed s "States.Runtime");
           ExecutionFailed "States.Runtime" c]
          (Ended (FAILED "States.Runtime" c))
| tr_return s d a s' d' :
    isMainTask s -> nextOf s = Some s' ->
    (s = InitializeWorkflow \/ isObj d') ->
    Trans (Run (Waiting s d a)) [Top (StateSucceeded s)] (Run (Pending s' d'))
| tr_return_fail s d a e c :
    isMainTask s ->
    Trans (Run (Waiting s d a))
          [Top (StateFailed s e); ExecutionFailed e c]
          (Ended (FAILED e c))
| tr_map_enter m d items :
    isMap m -> isObj d ->
    Trans (Run (Pending m d))
          [Top (StateEntered m); Top (MapStarted m (List.length items))]
          (AtMap m d 0 items [] [])
| tr_map_enter_fail m d c :
    isMap m ->
    Trans (Run (Pending m d))
          [Top (StateEntered m); Top (StateFailed m "States.Runtime");
           ExecutionFailed "States.Runtime" c]
          (Ended (FAILED "States.Runtime" c))
| tr_fail d :
    Trans (Run (Pending WorkflowFailed d))
          [Top (StateEntered WorkflowFailed);
           ExecutionFailed "BatchJobError" (JStr "Job execution failed")]
          (Ended (FAILED "BatchJobError" (JStr "Job execution failed")))
| tr_succeed d :
    Trans (Run (Pending WorkflowSucceeded d))
          [Top (StateEntered WorkflowSucceeded); ExecutionSucceeded]
          (Ended SUCCEEDED)
| tr_dispatch m d n v rest inflight done input :
    isMap m -> List.length inflight < limitOf m ->
    Trans (AtMap m d n (v :: rest) inflight done)
          [Item m n IterationStarted]
          (AtMap m d (S n) rest
                 (inflight ++ [{| index := n; item := v;
                                  thread := Pending (parseOf m) input |}])
                 done)
| tr_dispatch_fail m d n v rest inflight done c :
    isMap m -> List.length inflight < limitOf m ->
    Trans (AtMap m d n (v :: rest) inflight done)
          [Top (StateFailed m "States.Runtime");
           ExecutionFailed "States.Runtime" c]
          (Ended (FAILED "States.Runtime" c))
| tr_iter m d n pending inflight done k it t' evs :
    isMap m -> find (isIter k) inflight = Some it ->
    Moves (thread it) (Continue t') evs ->
    Trans (AtMap m d n pending inflight done)
          (map (Item m k) evs)
          (AtMap m d n pending (map (setThread k t') inflight) done)
| tr_iter_done m d n pending inflight done k it out evs :
    isMap m -> find (isIter k) inflight = Some it ->
    Moves (thread it) (Complete out) evs ->
    Trans (AtMap m d n pending inflight done)
          (map (Item m k) (evs ++ [IterationSucceeded]))
          (AtMap m d n pending
                 (filter (fun it' => negb (isIter k it')) inflight)
                 (insertResult k out done))
| tr_iter_caught m d n pending inflight done k it e c evs d' :
    isMap m -> find (isIter k) inflight = Some it ->
    Moves (thread it) (Failure e c) evs ->
    uncatchable e = false ->
    store "$.error" (errorOutput e c) d = Some d' ->
    Trans (AtMap m d n pending inflight done)
          (map (Item m k) (evs ++ [IterationFailed]) ++
           [Top (StateFailed m e); Top (Caught m e HandleJobErrors)])
          (Run (Pending HandleJobErrors d'))
| tr_iter_fatal m d n pending inflight done k it e c evs :
    isMap m -> find (isIter k) inflight = Some it ->
    Moves (thread it) (Failure e c) evs ->
    uncatchable e = true ->
    Trans (AtMap m d n pending inflight done)
          (map (Item m k) (evs ++ [IterationFailed]) ++
           [Top (StateFailed m e); ExecutionFailed e c])
          (Ended (FAILED e c))
| tr_map_done m d n done d' :
    isMap m -> isObj d' ->
    Trans (AtMap m d n [] [] done) [Top (StateSucceeded m)]
          (Run (Pending (afterMap m) d')).

(** The shape every reachable configuration has. *)
Definition iterOk (m : StateName) (n : nat) (it : Iteration StateName) : Prop :=
  index it < n /\ (cur (thread it) = parseOf m \/ cur (thread it) = submitOf m).

Definition Shaped (c : Config StateName) : Prop :=
  match c with
  | Run (Pending s d) =>
      isMainTask s \/ isMap s \/ s = WorkflowFailed \/ s = WorkflowSucceeded
  | Run (Waiting s d a) => isMainTask s
  | AtMap m d n pending inflight done =>
      isMap m /\ isObj d /\ List.length inflight <= limitOf m /\
      Forall (iterOk m n) inflight /\ NoDup (map (@index StateName) inflight)
  | Ended _ => True
  end.

(** The entries a step of the main flow at state [s] can make, and those a
    step inside Map state [m] can make. *)
Definition mainEntry (s : StateName) (e : Event StateName) : Prop :=
  match e with
  | Top (StateEntered s') | Top (StateSucceeded s')
  | Top (StateFailed s' _) | Top (MapStarted s' _) => s' = s
  | Top (LambdaInvoked f _) => f = lambdaOf s /\ isMainTask s
  | ExecutionSucceeded => s = WorkflowSucceeded
  | ExecutionFailed _ _ => True
  | _ => False
  end.

Definition mapEntry (m : StateName) (e : Event StateName) : Prop :=
  match e with
  | Item m' _ (Caught _ _ _) | Item m' _ (MapStarted _ _) => False
  | Item m' _ (StateEntered s) | Item m' _ (StateSucceeded s)
  | Item m' _ (StateFailed s _) =>
      m' = m /\ (s = parseOf m \/ s = submitOf m)
  | Item m' _ (JobSubmitted s _ _) | Item m' _ (JobRejected s)
  | Item m' _ (AttemptStarted s _) | Item m' _ (JobSucceeded s)
  | Item m' _ (JobFailed s) => m' = m /\ s = submitOf m
  | Item m' _ _ => m' = m
  | Top (StateFailed s _) | Top (StateSucceeded s) => s = m
  | Top (Caught s _ t) => s = m /\ t = HandleJobErrors
  | ExecutionFailed _ _ => True
  | _ => False
  end.

Definition entryOf (c : Config StateName) (e : Event StateName) : Prop :=
  match c with
  | Run t => mainEntry (cur t) e
  | AtMap m _ _ _ _ _ => mapEntry m e
  | Ended _ => False
  end.


(** What the history holds while the error handler runs and after. *)
Definition handled (tr : History) : Prop :=
  In (Top (StateEntered HandleJobErrors)) tr /\
  exists w fj,
    In (Top (LambdaInvoked (errorHandlerFunction props)
                           (JObj [("workflowId", w); ("failedJobs", JArr fj)])))
       tr.

(** What the history holds once the success handler was invoked. *)
Definition completing (tr : History) : Prop :=
  In (Top (StateEntered HandleSuccess)) tr /\
  exists w b t,
    In (Top (LambdaInvoked (successHandlerFunction props)
                           (JObj [("workflowId", w); ("resultsBucketPath", b);
                                  ("completionTime", t)])))
       tr.

(** The success handler step has succeeded exactly in the last two
    configurations of a successful execution. *)
Definition succeededAt (c : Config StateName) (tr : History) : Prop :=
  match c with
  | Run (Waiting HandleSuccess _ _) =>
      completing tr /\ ~ In (Top (StateSucceeded HandleSuccess)) tr
  | Run (Pending WorkflowSucceeded _) | Ended SUCCEEDED =>
      completing tr /\ In (Top (StateSucceeded HandleSuccess)) tr
  | _ => ~ In (Top (StateSucceeded HandleSuccess)) tr
  end.

(** The failure branch: the error handler, the Fail state, the failed end. *)
Definition onFailureBranch (c : Config StateName) : Prop :=
  match c with
  | Run (Pending HandleJobErrors _)
  | Run (Waiting HandleJobErrors _ _)
  | Run (Pending WorkflowFailed _)
  | Ended (FAILED _ _) => True
  | _ => False
  end.

(** The execution can only end FAILED, and does so within three steps:
    whatever happens next keeps it on the failure branch, submits no job,
    and leaves it ended or with a step to take. *)
Definition settlesFailed (c : Config StateName) : Prop :=
  onFailureBranch c /\
  forall t acts c' tr',
    exec M t c acts = Some (c', tr') ->
    onFailureBranch c' /\ List.length acts <= 3 /\
    (forall e, In e tr' -> ~ isSubmission e) /\
    ((exists e ca, c' = Ended (FAILED e ca)) \/
     (exists a, forall now, step M now c' a <> None)).

End Executions.

End Behaviour.

(* ===================================================================== *)
(** ** Sample executions                                                  *)
(* ===================================================================== *)

Module Scenario.
Import Json Resources ASL WorkflowStack.

Definition props : WorkflowStackProps := App.workflowStackProps None None.

Definition machine : StateMachine StateName := App.stateMachine None None.

(** What the Lambda functions return in these executions. *)
Definition initialized : json :=
  JObj [("workflowId", JStr "wf-1");
        ("s3Path", JStr "s3://data/exp-1");
        ("dataBucketPrefix", JStr "exp-1");
        ("parameters", JObj [("inputData", JStr "bed");
                             ("analysisParams", JStr "bt");
                             ("outputParams", JStr "out")]);
        ("resultsBucketPath", JStr "s3://results/exp-1")].

Definition job (id : string) (stepNumber : Z) : json :=
  JObj [("jobId", JStr id); ("Command", JStr "regenie");
        ("stepNumber", JNum stepNumber)].

Definition plan (step1 step2 : list json) : json :=
  JObj [("step1Jobs", JArr step1); ("step2Jobs", JArr step2)].

Definition parsed : json :=
  JObj [("jobSubmission",
         JObj [("ContainerOverrides",
                JObj [("Command", JArr [JStr "regenie"; JStr "--step"])])])].

Definition good : Move := Respond (Ok JNull).

Definition bad : Move := Respond (Err "States.TaskFailed" (JStr "exit 1")).

(** The two Lambda steps every execution begins with, up to the entry of
    the phase-1 Map. *)
Definition prologue (p : json) : list Action :=
  [Main Enter; Main (Respond (Ok initialized));
   Main Enter; Main (Respond (Ok p)); Main Enter].

(** Iteration [k] from its first state to the success of its job. *)
Definition oneJob (k : nat) : list Action :=
  [Iter k Enter; Iter k (Respond (Ok parsed)); Iter k Enter;
   Iter k good; Iter k good].

Definition epilogue : list Action := [Main Enter; Main good; Main Enter].

(** One phase-1 job and two chromosomes, everything succeeds. *)
Definition happy : list Action :=
  prologue (plan [job "step1" 1] [job "chr1" 2; job "chr2" 2]) ++
  [Dispatch] ++ oneJob 0 ++ [MapDone; Main Enter; Dispatch; Dispatch] ++
  oneJob 0 ++ oneJob 1 ++ [MapDone] ++ epilogue.

(** The phase-1 job fails both of its attempts; the error handler runs. *)
Definition step1Fails : list Action :=
  prologue (plan [job "step1" 1] [job "chr1" 2; job "chr2" 2]) ++
  [Dispatch; Iter 0 Enter; Iter 0 (Respond (Ok parsed)); Iter 0 Enter;
   Iter 0 good; Iter 0 bad; Iter 0 bad] ++ epilogue.


(** A plan without phase-1 job, one chromosome. *)
Definition step2Only : list Action :=
  prologue (plan [] [job "chr1" 2]) ++
  [MapDone; Main Enter; Dispatch] ++ oneJob 0 ++ [MapDone] ++ epilogue.

(** The same, but the success handler throws. *)
Definition successHandlerThrows : list Action :=
  prologue (plan [] [job "chr1" 2]) ++
  [MapDone; Main Enter; Dispatch] ++ oneJob 0 ++
  [MapDone; Main Enter;
   Main (Respond (Err "ClientError" (JStr "table not found")))].


(** Fifty-one chromosomes; the Map is asked to start [n] of them at once. *)
Definition crowd (n : nat) : list Action :=
  prologue (plan [] (repeat (job "chr" 2) 51)) ++
  [MapDone; Main Enter] ++ repeat Dispatch n.

End Scenario.

(* ===================================================================== *)
(** ** What an execution does with its data, and how long it can run     *)
(* ===================================================================== *)

Module DataFlow.
Import Json Resources ASL WorkflowStack Behaviour.

Definition dataOf (t : Thread StateName) : json :=
  match t with
  | Pending _ d => d
  | Waiting _ d _ => d
  end.

(** A member of a member. *)
Definition field2 (a b : string) (d : json) : option json :=
  match field a d with
  | Some x => field b x
  | None => None
  end.

(** The members the states after [InitializeWorkflow] write: the result
    paths of the tasks and of the Maps, and the result path of the two
    catchers. *)
Definition resultKeys : list string :=
  ["JobCalculation"; "Step1BatchJobs"; "Step2BatchJobs"; "error";
   "errorHandlingResult"; "successResult"].

(** The plan of a Map state: the array its items path points at in the
    job calculator's return value. *)
Definition itemsKey (m : StateName) : string :=
  match m with
  | SubmitStep1Jobs => "step1Jobs"
  | _ => "step2Jobs"
  end.

Definition itemsOf (m : StateName) (plan : json) : list json :=
  match field (itemsKey m) plan with
  | Some (JArr items) => items
  | _ => []
  end.

(** The order in which the main flow can enter its states. *)
Definition order (s : StateName) : nat :=
  match s with
  | InitializeWorkflow => 0
  | CalculateBatchJobs => 1
  | SubmitStep1Jobs => 2
  | SubmitStep2Jobs => 3
  | HandleSuccess => 4
  | WorkflowSucceeded => 5
  | HandleJobErrors => 6
  | WorkflowFailed => 7
  | _ => 8
  end.

Definition field3 (a b c : string) (d : json) : option json :=
  match field2 a b d with
  | Some x => field c x
  | None => None
  end.

Section Plan.

Variable props : WorkflowStackProps.

(** What the init function returned, what the job calculator returned, and
    the workflow id of the former. *)
Variables r plan w : json.

(** The main flow's data after the job calculation: the calculation is
    where its result path put it, and every member no state writes is as
    the init function returned it. *)
Definition kept (d : json) : Prop :=
  field "JobCalculation" d = Some (lambdaResult plan) /\
  forall k, ~ In k resultKeys -> field k d = field k r.

(** What the item selector of the two Map states makes of item [v]. *)
Definition selected (v : json) : option (list (string * json)) :=
  match field "jobId" v, field "Command" v, field "stepNumber" v with
  | Some j, Some c, Some s =>
      Some [("jobId", j); ("Command", c); ("stepNumber", s); ("workflowId", w)]
  | _, _, _ => None
  end.

(** The data of an iteration of Map state [m] whose input was [JObj b]:
    the input at the command parser, the input with the parser's result
    under [parsedCommand] at the job submission. *)
Definition iterData (m : StateName) (b : list (string * json))
  (t : Thread StateName) : Prop :=
  (cur t = parseOf m /\ dataOf t = JObj b) \/
  (cur t = submitOf m /\
   exists v, dataOf t = JObj (b ++ [("parsedCommand", lambdaResult v)])).

Definition iterPlanned (m : StateName) (it : Iteration StateName) : Prop :=
  nth_error (itemsOf m plan) (index it) = Some (item it) /\
  exists b, selected (item it) = Some b /\ iterData m b (thread it).

(** The configurations an execution goes through once the job calculator
    has returned. *)
Definition planned (c : Config StateName) : Prop :=
  match c with
  | Run (Pending s d) =>
      match s with
      | SubmitStep1Jobs | SubmitStep2Jobs | HandleSuccess | HandleJobErrors =>
          kept d
      | WorkflowFailed | WorkflowSucceeded => True
      | _ => False
      end
  | Run (Waiting s d a) => s = HandleJobErrors \/ s = HandleSuccess
  | AtMap m d n pending inflight done =>
      kept d /\ pending = skipn n (itemsOf m plan) /\
      forall it, In it inflight -> iterPlanned m it
  | Ended _ => True
  end.

(** What the entries of such an execution say. *)
Definition asPlanned (e : Event StateName) : Prop :=
  match e with
  | Top (LambdaInvoked f pl) =>
      (f = errorHandlerFunction props /\
       exists fj, pl = JObj [("workflowId", w); ("failedJobs", fj)]) \/
      (f = successHandlerFunction props /\
       exists b t, field "resultsBucketPath" r = Some b /\
         pl = JObj [("workflowId", w); ("resultsBucketPath", b);
                    ("completionTime", t)])
  | Top (MapStarted m n) => n = List.length (itemsOf m plan)
  | Item m k x =>
      exists v b,
        nth_error (itemsOf m plan) k = Some v /\ selected v = Some b /\
        match x with
        | LambdaInvoked f pl => f = commandParserFunction props /\ pl = JObj b
        | JobSubmitted s nm cmd => field "jobId" v = Some nm
        | _ => True
        end
  | _ => True
  end.

(** What the history holds once the success handler was invoked: the
    invocation, with the workflow id and the results path the init function
    returned. *)
Definition completes (tr : History) : Prop :=
  exists b t,
    field "resultsBucketPath" r = Some b /\
    In (Top (LambdaInvoked (successHandlerFunction props)
              (JObj [("workflowId", w); ("resultsBucketPath", b);
                     ("completionTime", t)]))) tr.

(** What holds of a configuration and the history that led to it, after the
    job calculation. *)
Definition flows (c : Config StateName) (tr : History) : Prop :=
  planned c /\
  (forall e, In e tr -> asPlanned e) /\
  (match c with
   | Run (Waiting HandleSuccess _ _) | Run (Pending WorkflowSucceeded _)
   | Ended SUCCEEDED => completes tr
   | _ => True
   end) /\
  (In (Top (StateEntered HandleSuccess)) tr ->
   field "resultsBucketPath" r = None ->
   (exists ca, c = Ended (FAILED "States.Runtime" ca)) /\
   In (Top (StateFailed HandleSuccess "States.Runtime")) tr).

End Plan.

(** The entries of the job calculation step, in an execution whose init
    function returned [r]. *)
Definition calculating (props : WorkflowStackProps) (r : json)
  (e : Event StateName) : Prop :=
  match e with
  | Top (StateEntered s) | Top (StateFailed s _) | Top (StateSucceeded s) =>
      s = CalculateBatchJobs
  | Top (LambdaInvoked f pl) =>
      f = jobCalculatorFunction props /\
      exists w, field "workflowId" r = Some w /\ field "workflowId" pl = Some w
  | ExecutionFailed _ _ => True
  | _ => False
  end.

(** [isFailure], decided. *)
Definition failureB (e : Event StateName) : bool :=
  match e with
  | Top (StateFailed _ _) | Top (Caught _ _ _) => true
  | Item _ _ (StateFailed _ _) | Item _ _ IterationFailed => true
  | Item _ _ (JobFailed _) | Item _ _ (JobRejected _) => true
  | ExecutionFailed _ _ => true
  | _ => false
  end.

(** After the first failure of a list of entries come only failures. *)
Fixpoint failuresLast (evs : list (Event StateName)) : bool :=
  match evs with
  | [] => true
  | e :: rest => if failureB e then forallb failureB rest else failuresLast rest
  end.

(** The entries that can follow a failure: failures, and the entries of
    the error handler step and of the Fail state. *)
Definition afterFailure (props : WorkflowStackProps) (e : Event StateName)
  : Prop :=
  isFailure e \/
  match e with
  | Top (StateEntered s) => s = HandleJobErrors \/ s = WorkflowFailed
  | Top (StateSucceeded s) => s = HandleJobErrors
  | Top (LambdaInvoked f _) => f = errorHandlerFunction props
  | _ => False
  end.

(** The main-flow states entered so far lie before the state the execution
    is about to enter, or no later than the state it is in. *)
Definition inOrder (c : Config StateName) (tr : History) : Prop :=
  forall s', In (Top (StateEntered s')) tr ->
    match c with
    | Run (Pending s _) => order s' < order s
    | Run (Waiting s _ _) | AtMap s _ _ _ _ _ => order s' <= order s
    | Ended _ => True
    end.

Section Lists.

Variable props : WorkflowStackProps.
Variables input r plan w : json.
Variable pre : History.
Variable m : StateName.

(** The Map state whose list is missing has not started; once it is
    entered the execution has ended with its failure, and the error handler
    has not run. *)
Definition unlisted (c : Config StateName) (tr : History) : Prop :=
  Reach props input c (pre ++ tr) /\ flows props r plan w c tr /\
  (forall n, ~ In (Top (MapStarted m n)) tr) /\
  (In (Top (StateEntered m)) tr ->
   (exists ca, c = Ended (FAILED "States.Runtime" ca)) /\
   In (Top (StateFailed m "States.Runtime")) tr /\
   ~ In (Top (StateEntered HandleJobErrors)) (pre ++ tr)).

End Lists.

(** *** How many steps are left *)

Section Cost.

Variable props : WorkflowStackProps.
Variable plan : json.







End Cost.

End DataFlow.

(* ===================================================================== *)
(** ** WorkflowStack: the role of the state machine                       *)
(* ===================================================================== *)

Module StateMachineRole.
Import Resources WorkflowStack.

(** The functions the constructor calls [grantInvoke] on for the role, in
    the order of the calls. *)
Definition grantInvoke (props : WorkflowStackProps) : list LambdaFunction :=
  [workflowInitFunction props; jobCalculatorFunction props;
   errorHandlerFunction props; commandParserFunction props;
   successHandlerFunction props].

End StateMachineRole.

(* ===================================================================== *)
(** ** NetworkStack: the security groups of the file system and of Batch  *)
(* ===================================================================== *)

Module NetworkStack.









End NetworkStack.

(* ===================================================================== *)
(** ** bin/cdk.ts: the stacks of the application                          *)
(* ===================================================================== *)

Module CdkApp.

(** The stacks, by the id each is created with. *)
Inductive Stack : Type :=
| GwasNetworkStack
| GwasStorageStack
| GwasDatabaseStack
| GwasComputeStack
| GwasLambdaStack
| GwasWorkflowStack
| GwasQueueProcessingStack
| GwasMonitoringStack.

Definition sameStack (a b : Stack) : bool :=
  match a, b with
  | GwasNetworkStack, GwasNetworkStack
  | GwasStorageStack, GwasStorageStack
  | GwasDatabaseStack, GwasDatabaseStack
  | GwasComputeStack, GwasComputeStack
  | GwasLambdaStack, GwasLambdaStack
  | GwasWorkflowStack, GwasWorkflowStack
  | GwasQueueProcessingStack, GwasQueueProcessingStack
  | GwasMonitoringStack, GwasMonitoringStack => true
  | _, _ => false
  end.

(** The stacks whose resources a stack is handed in its props. *)
Definition propsFrom (s : Stack) : list Stack :=
  match s with
  | GwasNetworkStack => []
  | GwasStorageStack => [GwasNetworkStack]
  | GwasDatabaseStack => []
  | GwasComputeStack => [GwasNetworkStack; GwasStorageStack]
  | GwasLambdaStack =>
      [GwasNetworkStack; GwasStorageStack; GwasComputeStack; GwasDatabaseStack]
  | GwasWorkflowStack => [GwasLambdaStack; GwasComputeStack; GwasStorageStack]
  | GwasQueueProcessingStack =>
      [GwasNetworkStack; GwasStorageStack; GwasWorkflowStack]
  | GwasMonitoringStack =>
      [GwasQueueProcessingStack; GwasWorkflowStack; GwasComputeStack]
  end.

(** The [addDependency] calls. *)
Definition dependencies (s : Stack) : list Stack :=
  match s with
  | GwasStorageStack => [GwasNetworkStack]
  | GwasComputeStack => [GwasNetworkStack; GwasStorageStack]
  | GwasLambdaStack =>
      [GwasNetworkStack; GwasStorageStack; GwasComputeStack; GwasDatabaseStack]
  | GwasWorkflowStack => [GwasLambdaStack]
  | GwasQueueProcessingStack =>
      [GwasNetworkStack; GwasStorageStack; GwasWorkflowStack]
  | GwasMonitoringStack => [GwasQueueProcessingStack]
  | GwasNetworkStack | GwasDatabaseStack => []
  end.

(** [t] is deployed before [s]: a chain of at most [n] dependencies leads
    from [s] to [t]. *)
Fixpoint dependsOn (n : nat) (s t : Stack) : bool :=
  match n with
  | O => false
  | S n' =>
      existsb (fun u => sameStack u t || dependsOn n' u t) (dependencies s)
  end.

(** A numbering of the stacks along which dependencies go down. *)
Definition deployRank (s : Stack) : nat :=
  match s with
  | GwasNetworkStack | GwasDatabaseStack => 0
  | GwasStorageStack => 1
  | GwasComputeStack => 2
  | GwasLambdaStack => 3
  | GwasWorkflowStack => 4
  | GwasQueueProcessingStack => 5
  | GwasMonitoringStack => 6
  end.

End CdkApp.

(* ===================================================================== *)
(** ** QueueProcessingStack: the manifest queue and its dead-letter queue *)
(* ===================================================================== *)

Module QueueProcessingStack.

(** [sqs.Queue]: the props the stack sets; [deadLetterQueue] names the
    queue and gives [maxReceiveCount]. *)
Record Queue : Type := {
  queueId : string;
  visibilityTimeoutSeconds : Z;
  retentionPeriodDays : Z;
  deadLetterQueue : option (string * nat)
}.

Definition manifestDeadLetterQueue : Queue :=
  {| queueId := "ManifestDeadLetterQueue";
     visibilityTimeoutSeconds := 30;
     retentionPeriodDays := 14;
     deadLetterQueue := None |}.

Definition manifestQueue : Queue :=
  {| queueId := "ManifestQueue";
     visibilityTimeoutSeconds := 300;
     retentionPeriodDays := 4;
     deadLetterQueue := Some (queueId manifestDeadLetterQueue, 5) |}.

(** Where a message is: in the queue, having been received [n] times; gone
    because the function handled it; or in the dead-letter queue. *)
Inductive Place : Type :=
| Queued (received : nat)
| Handled
| DeadLettered.

(** One receive.  A message that has been received [maxReceiveCount] times
    is moved to the dead-letter queue instead of being handed over again.
    Otherwise the function gets it: when it handles the message the message
    is deleted, when it reports the message as failed (or throws) the
    message becomes visible again. *)
Definition receive (q : Queue) (ok : bool) (p : Place) : Place * nat :=
  match p with
  | Queued n =>
      match deadLetterQueue q with
      | Some (_, max) =>
          if (max <=? n)%nat then (DeadLettered, 0%nat)
          else if ok then (Handled, 1%nat) else (Queued (S n), 1%nat)
      | None => if ok then (Handled, 1%nat) else (Queued (S n), 1%nat)
      end
  | _ => (p, 0%nat)
  end.

(** A new message and the outcomes of the function's attempts, should they
    take place: where the message ends up and how often the function was
    invoked with it. *)
Fixpoint receives (q : Queue) (outcomes : list bool) (p : Place) : Place * nat :=
  match outcomes with
  | [] => (p, 0%nat)
  | ok :: rest =>
      let (p', i) := receive q ok p in
      let (p'', j) := receives q rest p' in
      (p'', (i + j)%nat)
  end.

End QueueProcessingStack.

(* ===================================================================== *)
(** ** LambdaRoles: the execution roles of the functions                  *)
(* ===================================================================== *)

Module LambdaRoles.

Local Open Scope string_scope.

(** [iam.PolicyStatement]. *)
Record PolicyStatement : Type := {
  actions : list string;
  resources : list string
}.

(** The resources a role can be given access to. *)
Record Bucket : Type := { bucketName : string }.

Record Table : Type := { tableArn : string }.

Record JobQueue : Type := { attrJobQueueArn : string }.

(** What the grant methods of the buckets and of the tables are asked
    for. *)
Inductive Grant : Type :=
| GrantRead (b : Bucket)
| GrantReadWrite (b : Bucket)
| GrantReadWriteData (t : Table).

(** The stack a role is created in. *)
Record Scope : Type := { region : string; account : string }.

(** [iam.Role], with what was added to it, in the order of the calls. *)
Record Role : Type := {
  roleName : string;
  env : Scope;
  assumedBy : string;
  managedPolicies : list string;
  statements : list PolicyStatement;
  grants : list Grant
}.

Record LambdaRoleProps : Type := {
  scope : Scope;
  dataBucket : option Bucket;
  resultsBucket : option Bucket;
  batchJobQueue : option JobQueue;
  workflowTable : option Table;
  jobStatusTable : option Table
}.

(** [role.addToPolicy] and the grant methods. *)
Definition addToPolicy (role : Role) (st : PolicyStatement) : Role :=
  {| roleName := roleName role; env := env role; assumedBy := assumedBy role;
     managedPolicies := managedPolicies role;
     statements := (statements role ++ [st])%list;
     grants := grants role |}.

Definition grant (role : Role) (g : Grant) : Role :=
  {| roleName := roleName role; env := env role; assumedBy := assumedBy role;
     managedPolicies := managedPolicies role;
     statements := statements role;
     grants := (grants role ++ [g])%list |}.

(** [if (x) f(role, x)]. *)
Definition whenGiven {A} (x : option A) (f : Role -> A -> Role) (role : Role)
  : Role :=
  match x with
  | Some a => f role a
  | None => role
  end.

(** JavaScript's [s.replace(pat, rep)] with a string pattern and a
    replacement that holds no dollar sign: the first occurrence of [pat] is
    replaced. *)
Fixpoint replace (pat rep s : string) : string :=
  if String.prefix pat s then
    rep ++ substring (String.length pat) (String.length s - String.length pat) s
  else
    match s with
    | EmptyString => EmptyString
    | String c s' => String c (replace pat rep s')
    end.

Definition addCloudWatchLogsPermissions (role : Role)
  (functionNamePrefix region account : string) : Role :=
  addToPolicy role
    {| actions := ["logs:CreateLogGroup"; "logs:CreateLogStream";
                   "logs:PutLogEvents"];
       resources := ["arn:aws:logs:" ++ region ++ ":" ++ account ++
                     ":log-group:/aws/lambda/" ++ functionNamePrefix ++ "*"] |}.

Definition createBaseLambdaRole (scope : Scope) (roleName : string) : Role :=
  {| roleName := roleName; env := scope;
     assumedBy := "lambda.amazonaws.com";
     managedPolicies := ["service-role/AWSLambdaVPCAccessExecutionRole"];
     statements := [];
     grants := [] |}.

Definition addS3ReadPermissions (role : Role) (bucket : Bucket) : Role :=
  grant role (GrantRead bucket).

Definition addS3ReadWritePermissions (role : Role) (bucket : Bucket) : Role :=
  grant role (GrantReadWrite bucket).

Definition addFsxPermissions (role : Role) (region account : string)
  (actions : list string) : Role :=
  addToPolicy role
    {| actions := actions;
       resources := ["arn:aws:fsx:" ++ region ++ ":" ++ account ++ ":file-system/*";
                     "arn:aws:fsx:" ++ region ++ ":" ++ account ++ ":association/*"] |}.

Definition addBatchPermissions (role : Role) (batchJobQueue : JobQueue)
  (region account : string) (actions : list string) : Role :=
  addToPolicy role
    {| actions := actions;
       resources := [attrJobQueueArn batchJobQueue;
                     "arn:aws:batch:" ++ region ++ ":" ++ account ++ ":job-definition/*";
                     "arn:aws:batch:" ++ region ++ ":" ++ account ++ ":job/*"] |}.

Definition addDynamoDBPermissions (role : Role) (table : Table)
  (actions : list string) : Role :=
  addToPolicy role
    {| actions := actions;
       resources := [tableArn table; tableArn table ++ "/index/*"] |}.

Definition addDynamoDBFullPermissions (role : Role) (table : Table) : Role :=
  addDynamoDBPermissions role table
    ["dynamodb:GetItem"; "dynamodb:PutItem"; "dynamodb:UpdateItem";
     "dynamodb:DeleteItem"].

Definition addBatchJobQueuePermissions (role : Role) (batchJobQueue : JobQueue)
  : Role :=
  addBatchPermissions role batchJobQueue (region (env role)) (account (env role))
    ["batch:DescribeJobs"; "batch:ListJobs"; "batch:DescribeJobQueues";
     "batch:DescribeJobDefinitions"].

Definition createWorkflowInitRole (props : LambdaRoleProps) : Role :=
  let role := createBaseLambdaRole (scope props) "WorkflowInitExecutionRole" in
  let role := whenGiven (dataBucket props) addS3ReadPermissions role in
  let role := whenGiven (resultsBucket props) addS3ReadWritePermissions role in
  let role := whenGiven (workflowTable props) addDynamoDBFullPermissions role in
  let role := whenGiven (jobStatusTable props) addDynamoDBFullPermissions role in
  addCloudWatchLogsPermissions role "WorkflowInitFunction"
    (region (scope props)) (account (scope props)).

Definition createAssociationHandlerRole (props : LambdaRoleProps) : Role :=
  let role := createBaseLambdaRole (scope props) "AssociationHandlerExecutionRole" in
  let role := addFsxPermissions role (region (scope props)) (account (scope props))
                ["fsx:DescribeFileSystems";
                 "fsx:DescribeDataRepositoryAssociations";
                 "fsx:CreateDataRepositoryAssociation";
                 "fsx:DeleteDataRepositoryAssociation"] in
  let role := whenGiven (dataBucket props)
                (fun role dataBucket =>
                   addToPolicy role
                     {| actions := ["s3:GetObject"; "s3:GetObjectVersion";
                                    "s3:GetObjectTagging"; "s3:ListBucket";
                                    "s3:ListBucketVersions"; "s3:PutObject"];
                        resources := ["arn:aws:s3:::" ++ bucketName dataBucket;
                                      "arn:aws:s3:::" ++ bucketName dataBucket ++ "/*"] |})
                role in
  let role := whenGiven (workflowTable props)
                (fun role workflowTable =>
                   addDynamoDBPermissions role workflowTable
                     ["dynamodb:GetItem"; "dynamodb:UpdateItem"])
                role in
  let role := addToPolicy role
                {| actions := ["iam:CreateServiceLinkedRole"; "iam:AttachRolePolicy";
                               "iam:PutRolePolicy"];
                   resources := ["arn:aws:iam::*:role/aws-service-role/s3.data-source.lustre.fsx.amazonaws.com/*"] |} in
  addCloudWatchLogsPermissions role "AssociationHandlerFunction"
    (region (scope props)) (account (scope props)).

Definition createJobCalculatorRole (props : LambdaRoleProps) : Role :=
  let role := createBaseLambdaRole (scope props) "JobCalculatorExecutionRole" in
  let role := whenGiven (dataBucket props) addS3ReadPermissions role in
  let role := whenGiven (resultsBucket props) addS3ReadWritePermissions role in
  let role := whenGiven (workflowTable props) addDynamoDBFullPermissions role in
  let role := whenGiven (jobStatusTable props) addDynamoDBFullPermissions role in
  whenGiven (batchJobQueue props) addBatchJobQueuePermissions role.

Definition createErrorHandlerRole (props : LambdaRoleProps) : Role :=
  let role := createBaseLambdaRole (scope props) "ErrorHandlerExecutionRole" in
  let role := whenGiven (workflowTable props)
                (fun role t => grant role (GrantReadWriteData t)) role in
  let role := whenGiven (jobStatusTable props)
                (fun role t => grant role (GrantReadWriteData t)) role in
  let role := whenGiven (batchJobQueue props)
                (fun role batchJobQueue =>
                   addBatchPermissions role batchJobQueue
                     (region (scope props)) (account (scope props))
                     ["batch:DescribeJobs"; "batch:ListJobs"])
                role in
  addCloudWatchLogsPermissions role "ErrorHandlerFunction"
    (region (scope props)) (account (scope props)).

Definition createSuccessHandlerRole (props : LambdaRoleProps) : Role :=
  let role := createBaseLambdaRole (scope props) "SuccessHandlerExecutionRole" in
  let role := whenGiven (resultsBucket props) addS3ReadPermissions role in
  let role := whenGiven (workflowTable props) addDynamoDBFullPermissions role in
  whenGiven (jobStatusTable props) addDynamoDBFullPermissions role.

Definition createCommandParserRole (props : LambdaRoleProps) : Role :=
  let role := createBaseLambdaRole (scope props) "CommandParserExecutionRole" in
  let role := addToPolicy role
                {| actions := ["batch:DescribeJobDefinitions"];
                   resources := ["arn:aws:batch:" ++ region (scope props) ++ ":" ++
                                 account (scope props) ++ ":job-definition/*"] |} in
  addCloudWatchLogsPermissions role "CommandParserFunction"
    (region (scope props)) (account (scope props)).

Definition createCleanupRole (props : LambdaRoleProps) (roleName : string)
  : Role :=
  let role := createBaseLambdaRole (scope props) roleName in
  let role := whenGiven (workflowTable props)
                (fun role t => grant role (GrantReadWriteData t)) role in
  let role := whenGiven (jobStatusTable props)
                (fun role t => grant role (GrantReadWriteData t)) role in
  addCloudWatchLogsPermissions role (replace "ExecutionRole" EmptyString roleName)
    (region (scope props)) (account (scope props)).

Definition createRunningExecutionsRole (props : LambdaRoleProps) : Role :=
  let role := createCleanupRole props "CheckRunningExecutionsExecutionRole" in
  addToPolicy role
    {| actions := ["states:ListExecutions"; "states:DescribeExecution"];
       resources := ["arn:aws:states:" ++ region (scope props) ++ ":" ++
                     account (scope props) ++ ":stateMachine:*";
                     "arn:aws:states:" ++ region (scope props) ++ ":" ++
                     account (scope props) ++ ":execution:*:*"] |}.

Definition createDeleteAssociationRole (props : LambdaRoleProps) : Role :=
  let role := createBaseLambdaRole (scope props) "DeleteAssociationExecutionRole" in
  let role := addFsxPermissions role (region (scope props)) (account (scope props))
                ["fsx:DescribeFileSystems";
                 "fsx:DescribeDataRepositoryAssociations";
                 "fsx:DeleteDataRepositoryAssociation"] in
  addCloudWatchLogsPermissions role "DeleteAssociationFunction"
    (region (scope props)) (account (scope props)).

Definition createFsxAssociationCreatorRole (props : LambdaRoleProps) : Role :=
  let role := createBaseLambdaRole (scope props)
                "FsxAssociationCreatorExecutionRole" in
  let role := addFsxPermissions role (region (scope props)) (account (scope props))
                ["fsx:DescribeFileSystems";
                 "fsx:DescribeDataRepositoryAssociations";
                 "fsx:CreateDataRepositoryAssociation"] in
  let role := whenGiven (dataBucket props)
                (fun role dataBucket =>
                   addToPolicy role
                     {| actions := ["s3:GetObject"; "s3:GetObjectVersion";
                                    "s3:GetObjectTagging"; "s3:ListBucket"];
                        resources := ["arn:aws:s3:::" ++ bucketName dataBucket;
                                      "arn:aws:s3:::" ++ bucketName dataBucket ++ "/*"] |})
                role in
  let role := addToPolicy role
                {| actions := ["iam:CreateServiceLinkedRole"];
                   resources := ["arn:aws:iam::*:role/aws-service-role/s3.data-source.lustre.fsx.amazonaws.com/*"] |} in
  addCloudWatchLogsPermissions role "FsxAssociationCreatorFunction"
    (region (scope props)) (account (scope props)).

(** The roles the class can create, the cleanup role under [roleName]. *)
Definition allRoles (props : LambdaRoleProps) (roleName : string) : list Role :=
  [createWorkflowInitRole props; createAssociationHandlerRole props;
   createJobCalculatorRole props; createErrorHandlerRole props;
   createSuccessHandlerRole props; createCommandParserRole props;
   createCleanupRole props roleName; createRunningExecutionsRole props;
   createDeleteAssociationRole props; createFsxAssociationCreatorRole props].

(** The service an action belongs to: what comes before the colon. *)
Fixpoint serviceOf (action : string) : string :=
  match action with
  | EmptyString => EmptyString
  | String c rest =>
      if Ascii.eqb c ":"%char then EmptyString else String c (serviceOf rest)
  end.

(** The services a role's own statements name. *)
Definition servicesOf (role : Role) : list string :=
  flat_map (fun st => map serviceOf (actions st)) (statements role).


End LambdaRoles.

(* ===================================================================== *)
(** ** More sample executions                                             *)
(* ===================================================================== *)

Module Cases.
Import Json Resources ASL WorkflowStack Scenario.

(** What the init function returns when it leaves out the results path. *)
Definition withoutResultsPath : json :=
  JObj [("workflowId", JStr "wf-1");
        ("s3Path", JStr "s3://data/exp-1");
        ("dataBucketPrefix", JStr "exp-1");
        ("parameters", JObj [("inputData", JStr "bed");
                             ("analysisParams", JStr "bt");
                             ("outputParams", JStr "out")])].

(** An empty plan, after an init function that named no results path. *)
Definition nowhereToReport : list Action :=
  [Main Enter; Main (Respond (Ok withoutResultsPath)); Main Enter;
   Main (Respond (Ok (plan [] []))); Main Enter; MapDone; Main Enter; MapDone;
   Main Enter].

(** A plan that lists the jobs of the first step only. *)
Definition step1JobsOnly : json := JObj [("step1Jobs", JArr [])].

Definition step2Unlisted : list Action :=
  [Main Enter; Main (Respond (Ok initialized)); Main Enter;
   Main (Respond (Ok step1JobsOnly)); Main Enter; MapDone; Main Enter].

(** Props of [LambdaRoles] with nothing but the scope. *)
Definition scopeOnly : LambdaRoles.LambdaRoleProps :=
  {| LambdaRoles.scope := {| LambdaRoles.region := "us-east-1";
                             LambdaRoles.account := "123456789012" |};
     LambdaRoles.dataBucket := None;
     LambdaRoles.resultsBucket := None;
     LambdaRoles.batchJobQueue := None;
     LambdaRoles.workflowTable := None;
     LambdaRoles.jobStatusTable := None |}.

End Cases.

(* ===================================================================== *)
(** ** Properties of the executions                                       *)
(* ===================================================================== *)

Import Json Resources ASL WorkflowStack Behaviour.

Ltac break_match :=
  match goal with
  | [ |- context[match ?x with _ => _ end] ] => destruct x eqn:?
  | [ H : context[match ?x with _ => _ end] |- _ ] => destruct x eqn:?
  end.

Ltac pair_inv H := injection H as ? ?; subst.

Ltac absurd_state :=
  match goal with
  | H : isMainTask _ |- _ => destruct H as [H|[H|[H|H]]]; discriminate
  | H : isMap _ |- _ => destruct H as [H|H]; discriminate
  end.

Section Executions.
Variable props : WorkflowStackProps.
Local Abbreviation M := (createGwasWorkflow props).
Local Abbreviation attempts := (retryAttempts (batchJobDefinition props)).

Lemma eval_root ctx d : eval "$" ctx d = Some d.
Proof. reflexivity. Qed.

Lemma isLambda_cases s :
  isLambda s ->
  s = InitializeWorkflow \/ s = CalculateBatchJobs \/ s = HandleJobErrors \/
  s = HandleSuccess \/ s = ParseStep1Command \/ s = ParseStep2Command.
Proof. unfold isLambda, isMainTask. tauto. Qed.

Lemma enter_lambda ctx s d o evs :
  isLambda s -> enterTask M ctx s d = (o, evs) -> Moves props (Pending s d) o evs.
Proof.
  intros Hs H. pose proof Hs as Hs'. apply isLambda_cases in Hs'.
  destruct Hs' as [->|[->|[->|[->|[->| ->]]]]].
  - cbn in H. pair_inv H. apply (mv_invoke props InitializeWorkflow); simpl; auto.
  - unfold enterTask in H. cbn -[fill] in H.
    destruct (fill _ _ _); cbn in H; pair_inv H.
    + apply (mv_invoke props CalculateBatchJobs); simpl; auto.
    + apply mv_invoke_fail; auto.
  - cbn in H. destruct (field "workflowId" d) eqn:Hw; cbn in H; pair_inv H.
    + apply (mv_invoke props HandleJobErrors); auto.
      exists j. split; auto.
    + apply mv_invoke_fail; auto.
  - cbn in H.
    destruct (field "workflowId" d) as [w|] eqn:Hw; cbn in H;
      [destruct (field "resultsBucketPath" d) as [b|] eqn:Hb; cbn in H|];
      (destruct (field "State" ctx) as [st|];
       [destruct (field "EnteredTime" st) as [t|]|]); cbn in H; pair_inv H;
      try (apply mv_invoke_fail; auto; fail).
    apply (mv_invoke props HandleSuccess); auto.
    exists w, b, t. auto.
  - cbn in H. pair_inv H. apply (mv_invoke props ParseStep1Command); simpl; auto.
  - cbn in H. pair_inv H. apply (mv_invoke props ParseStep2Command); simpl; auto.
Qed.

Lemma respond_lambda ctx s d a r o evs :
  isLambda s -> respond M ctx s d a r = (o, evs) -> Moves props (Waiting s d a) o evs.
Proof.
  intros Hs H. pose proof Hs as Hs'. apply isLambda_cases in Hs'.
  destruct r as [v|e c].
  - destruct Hs' as [->|[->|[->|[->|[->| ->]]]]].
    + cbn in H. pair_inv H. eapply mv_return; eauto; simpl; auto.
    + cbn in H. destruct d; cbn in H; pair_inv H;
        try (apply mv_return_fail; auto; fail).
      eapply mv_return; eauto; simpl; auto.
    + cbn in H. destruct d; cbn in H; pair_inv H;
        try (apply mv_return_fail; auto; fail).
      eapply mv_return; eauto; simpl; auto.
    + cbn in H. destruct d; cbn in H; pair_inv H;
        try (apply mv_return_fail; auto; fail).
      eapply mv_return; eauto; simpl; auto.
    + cbn in H. destruct d; cbn in H; pair_inv H;
        try (apply mv_return_fail; auto; fail).
      eapply mv_return; eauto; simpl; auto.
    + cbn in H. destruct d; cbn in H; pair_inv H;
        try (apply mv_return_fail; auto; fail).
      eapply mv_return; eauto; simpl; auto.
  - destruct Hs' as [->|[->|[->|[->|[->| ->]]]]];
      cbn in H; pair_inv H; apply mv_return_fail; auto.
Qed.

Lemma enter_batch ctx s d o evs :
  isBatch s -> enterTask M ctx s d = (o, evs) -> Moves props (Pending s d) o evs.
Proof.
  intros Hs H. pose proof Hs as Hs'.
  destruct Hs' as [-> | ->]; unfold enterTask in H; cbn -[eval] in H;
    destruct (eval "$.jobId" ctx d);
    try destruct (eval _ ctx d); cbn in H; pair_inv H;
    try (apply mv_submit; auto; fail); apply mv_submit_fail; auto.
Qed.

Lemma respond_batch ctx s d a r o evs :
  isBatch s -> respond M ctx s d a r = (o, evs) -> Moves props (Waiting s d a) o evs.
Proof.
  intros Hs H. pose proof Hs as Hs'.
  destruct r as [v|e c]; destruct a as [|a].
  - destruct Hs' as [-> | ->]; cbn in H; pair_inv H; apply mv_accept; auto.
  - destruct Hs' as [-> | ->]; cbn in H; pair_inv H; apply mv_job_ok; auto.
  - destruct Hs' as [-> | ->]; cbn in H; pair_inv H; apply mv_reject; auto.
  - destruct Hs' as [-> | ->]; unfold respond in H; cbn -[Nat.ltb] in H;
      destruct (Nat.ltb_spec (S a) attempts); cbn in H; pair_inv H;
      try (apply mv_retry; auto; fail); apply mv_job_fail; auto; lia.
Qed.

Lemma move_Moves ctx t m o evs :
  isLambda (cur t) \/ isBatch (cur t) ->
  move M ctx t m = Some (o, evs) -> Moves props t o evs.
Proof.
  intros Hs H. destruct t as [s d|s d a]; destruct m as [|r]; simpl in *;
    try discriminate; injection H as H; destruct Hs as [Hs|Hs];
    eauto using enter_lambda, respond_lambda, enter_batch, respond_batch.
Qed.


Lemma isLambda_not_batch s : isLambda s -> isBatch s -> False.
Proof.
  unfold isLambda, isMainTask, isBatch.
  intros [[->|[->|[->| ->]]]|[-> | ->]] [H|H]; discriminate.
Qed.

Lemma isMain_not_batch s : isMainTask s -> isBatch s -> False.
Proof. intros H. apply isLambda_not_batch. left. exact H. Qed.

Lemma handles_all p e :
  handles {| errors := ["States.ALL"]; catchResultPath := p |} e
  = negb (uncatchable e).
Proof.
  unfold handles. simpl. rewrite !orb_false_r.
  destruct (String.eqb_spec e "States.ALL") as [->|]; reflexivity.
Qed.

Lemma failed_map_fatal m d e c :
  isMap m -> uncatchable e = true ->
  failed M m d e c = (Failure e c, [StateFailed m e]).
Proof.
  intros [-> | ->] He; unfold failed, recover; cbn -[handles store];
    rewrite handles_all, He; reflexivity.
Qed.

Lemma failed_map_caught m d e c :
  isMap m -> isObj d -> uncatchable e = false ->
  exists d', store "$.error" (errorOutput e c) d = Some d' /\
    failed M m d e c
    = (Continue (Pending HandleJobErrors d'),
       [StateFailed m e; Caught m e HandleJobErrors]).
Proof.
  intros Hm Hd He. destruct d; try contradiction.
  eexists. split; [reflexivity|].
  destruct Hm as [-> | ->]; unfold failed, recover; cbn -[handles];
    rewrite handles_all, He; reflexivity.
Qed.

Lemma failed_task s d e c :
  catchOf s = [] -> failed M s d e c = (Failure e c, [StateFailed s e]).
Proof. intros H. unfold failed, recover. simpl. rewrite H. reflexivity. Qed.

Lemma step_Trans now c a c' evs :
  Shaped c -> step M now c a = Some (c', evs) -> Trans props c evs c'.
Proof.
  intros Hc H. destruct c as [[s d|s d k]|m d n pending inflight done|st];
    simpl in Hc; try discriminate.
  - (* the main flow enters a state *)
    destruct a as [[|r]|k0 mv0| |]; try discriminate. simpl in H. injection H as H.
    destruct Hc as [Hs|[Hs|[-> | ->]]].
    + assert (E : enterState M now s d = conclude (enterTask M (stateCtx now) s d))
        by (destruct Hs as [->|[->|[->| ->]]]; reflexivity).
      rewrite E in H. destruct (enterTask M (stateCtx now) s d) as [o es] eqn:Ho.
      apply enter_lambda in Ho; [|left; auto].
      inversion Ho; subst; cbn in H; pair_inv H;
        try (exfalso; eapply isMain_not_batch; eauto; fail).
      * apply tr_invoke; auto.
      * apply tr_invoke_fail; auto.
    + assert (E : exists p,
          enterState M now s d =
          match eval p (stateCtx now) d with
          | Some (JArr items) =>
              (AtMap s d 0 items [] [],
               [Top (StateEntered s); Top (MapStarted s (List.length items))])
          | _ => after [Top (StateEntered s)]
                       (conclude (failed M s d "States.Runtime" (JStr p)))
          end /\ (forall ctx x, eval p ctx d = Some x -> isObj d)).
      { destruct Hs as [-> | ->]; eexists; (split; [reflexivity|]);
          intros ctx x Hx; destruct d; try discriminate; exact I. }
      destruct E as (p & E & Hobj). rewrite E in H.
      rewrite (failed_map_fatal s d) in H by auto.
      destruct (eval p (stateCtx now) d) as [[]|] eqn:Hi; cbn in H; pair_inv H;
        try (apply tr_map_enter_fail; auto; fail).
      apply tr_map_enter; eauto.
    + cbn in H. pair_inv H. apply tr_fail.
    + cbn in H. pair_inv H. apply tr_succeed.
  - (* the task of the main flow answers *)
    destruct a as [[|r]|k0 mv0| |]; try discriminate. simpl in H. injection H as H.
    destruct (respond M (stateCtx now) s d k r) as [o es] eqn:Ho.
    apply respond_lambda in Ho; [|left; auto].
    inversion Ho; subst; cbn in H; pair_inv H;
      try (exfalso; eapply isMain_not_batch; eauto; fail).
    + eapply tr_return; eauto.
    + apply tr_return_fail; auto.
  - (* inside a Map *)
    destruct Hc as (Hm & Hd & Hlen & Hall & Hnd).
    assert (E : exists p, kind (states M m) = Map p (parseOf m) /\
                          maxConcurrency p = limitOf m /\
                          (exists q, mapResultPath p = q /\
                             forall v, exists d', isObj d' /\ store q v d = Some d') /\
                          nextOf m = Some (afterMap m)).
    { destruct d; try contradiction.
      destruct Hm as [-> | ->]; eexists; (split; [reflexivity|]);
        (split; [reflexivity|]); (split; [|reflexivity]);
        eexists; (split; [reflexivity|]); intros v; eexists;
        (split; [|reflexivity]); exact I. }
    destruct E as (p & Ek & Elim & (q & Eq & Hstore) & Enext).
    simpl in H. change (kind (states M m)) with (construct props m) in Ek.
    rewrite Ek in H. destruct a as [mv|k mv| |]; simpl in H; try discriminate.
    + (* an iteration moves *)
      destruct (find (isIter k) inflight) as [it|] eqn:Hf; try discriminate.
      destruct (move M (itemCtx now k (item it)) (thread it) mv)
        as [[o es]|] eqn:Hmv; try discriminate.
      apply move_Moves in Hmv.
      2:{ apply find_some in Hf. destruct Hf as [Hin _].
          rewrite Forall_forall in Hall. destruct (Hall _ Hin) as [_ Hcur].
          destruct Hm as [-> | ->]; destruct Hcur as [-> | ->]; simpl;
            unfold isLambda, isBatch; auto. }
      destruct o as [t'|out|e c].
      * pair_inv H. eapply tr_iter; eauto.
      * pair_inv H. eapply tr_iter_done; eauto.
      * destruct (uncatchable e) eqn:He.
        -- rewrite (failed_map_fatal m d e c) in H by auto. cbn in H.
           pair_inv H. eapply tr_iter_fatal; eauto.
        -- destruct (failed_map_caught m d e c Hm Hd He) as (d' & Hst & Hfl).
           rewrite Hfl in H. cbn in H. pair_inv H.
           eapply tr_iter_caught; eauto.
    + (* the next item starts *)
      destruct pending as [|v rest]; try discriminate.
      unfold hasRoom in H. rewrite Elim in H.
      assert (Hl : limitOf m <> 0) by (destruct Hm as [-> | ->]; discriminate).
      destruct (Nat.eqb_spec (limitOf m) 0); try contradiction. simpl in H.
      destruct (Nat.ltb_spec (List.length inflight) (limitOf m)); try discriminate.
      destruct (itemInput p now n v d).
      * pair_inv H. apply tr_dispatch; auto.
      * rewrite (failed_map_fatal m d) in H by auto. cbn in H. pair_inv H.
        apply tr_dispatch_fail; auto.
    + (* every item is done *)
      destruct pending; try discriminate. destruct inflight; try discriminate.
      injection H as H. unfold finish in H. rewrite Eq in H.
      destruct (Hstore (JArr (map snd done))) as (d' & Hd' & Hst).
      rewrite Hst in H.
      rewrite eval_root in H. simpl in H. rewrite Enext in H. cbn in H.
      pair_inv H. apply tr_map_done; auto.
Qed.


Lemma Moves_cur t t' evs :
  Moves props t (Continue t') evs ->
  cur t' = cur t \/ (isLambda (cur t) /\ nextOf (cur t) = Some (cur t')).
Proof. intros H. inversion H; subst; simpl; auto. Qed.

Lemma map_index_setThread k t (l : list (Iteration StateName)) :
  map (@index StateName) (map (setThread k t) l) = map (@index StateName) l.
Proof.
  induction l as [|x l IH]; simpl; [reflexivity|].
  rewrite IH. f_equal. unfold setThread. destruct (isIter k x); reflexivity.
Qed.

Lemma indices_stay_distinct (keep : Iteration StateName -> bool) inflight :
  NoDup (map (@index StateName) inflight) ->
  NoDup (map (@index StateName) (filter keep inflight)).
Proof.
  intros Hnd. induction inflight as [|it rest IH]; simpl; [constructor|].
  simpl in Hnd. apply NoDup_cons_iff in Hnd. destruct Hnd as [Hout Hnd].
  destruct (keep it); simpl; [|auto].
  apply NoDup_cons_iff. split; [|auto].
  intros Hin. apply Hout. apply in_map_iff in Hin.
  destruct Hin as (it' & E & Hin). apply filter_In in Hin.
  apply in_map_iff. exists it'. tauto.
Qed.

Lemma index_unique (l : list (Iteration StateName)) x y :
  NoDup (map (@index StateName) l) -> In x l -> In y l ->
  index x = index y -> x = y.
Proof.
  induction l as [|z l IH]; simpl; intros Hnd Hx Hy E; [destruct Hx|].
  inversion Hnd; subst.
  destruct Hx as [->|Hx], Hy as [->|Hy]; auto.
  - exfalso. apply H1. apply in_map_iff. exists y. split; auto.
  - exfalso. apply H1. apply in_map_iff. exists x. split; auto.
Qed.

Lemma find_unique (l : list (Iteration StateName)) k x it :
  NoDup (map (@index StateName) l) -> In x l -> isIter k x = true ->
  find (isIter k) l = Some it -> x = it.
Proof.
  intros Hnd Hx Hk Hf. apply find_some in Hf. destruct Hf as [Hin Hk'].
  unfold isIter in *. apply Nat.eqb_eq in Hk, Hk'.
  eapply index_unique; eauto. congruence.
Qed.

Lemma Trans_Shaped c evs c' : Shaped c -> Trans props c evs c' -> Shaped c'.
Proof.
  intros Hc H. destruct H; simpl in *.
  - exact H.
  - exact I.
  - destruct H as [->|[->|[->| ->]]]; simpl in H0; injection H0 as <-;
      unfold isMainTask, isMap; auto 10.
  - exact I.
  - repeat split; auto; try constructor; simpl; try lia.
  - exact I.
  - exact I.
  - exact I.
  - destruct Hc as (Hm & Hd & Hlen & Hall & Hnd). repeat split; auto.
    + rewrite length_app. simpl. lia.
    + apply Forall_app. split.
      * eapply Forall_impl; [|exact Hall]. intros it [Hi Hcur]. split; auto.
      * constructor; [|constructor]. split; simpl; auto.
    + rewrite map_app. simpl. apply NoDup_app; auto.
      * constructor; [intros []|constructor].
      * intros x Hx [<-|[]]. apply in_map_iff in Hx.
        destruct Hx as (it & Hit & Hin). rewrite Forall_forall in Hall.
        destruct (Hall _ Hin) as [Hlt _]. lia.
  - exact I.
  - destruct Hc as (Hm & Hd & Hlen & Hall & Hnd). repeat split; auto.
    + rewrite length_map. exact Hlen.
    + apply Forall_map. rewrite Forall_forall in *. intros x Hx.
      destruct (Hall _ Hx) as [Hi Hcur]. unfold setThread.
      destruct (isIter k x) eqn:Hk; [|split; auto]. split; simpl; auto.
      assert (x = it) by (eapply find_unique; eauto).
      subst x. apply Moves_cur in H1. destruct H1 as [->|[Hl Hn]]; auto.
      destruct Hcur as [Hc|Hc]; rewrite Hc in *.
      * right. destruct H as [-> | ->]; simpl in *; congruence.
      * exfalso. eapply isLambda_not_batch; eauto.
        destruct H as [-> | ->]; simpl; unfold isBatch; auto.
    + rewrite map_index_setThread. exact Hnd.
  - destruct Hc as (Hm & Hd & Hlen & Hall & Hnd). repeat split; auto.
    + etransitivity; [apply filter_length_le|exact Hlen].
    + rewrite Forall_forall in *. intros x Hx. apply filter_In in Hx.
      apply Hall. tauto.
    + apply indices_stay_distinct. exact Hnd.
  - left. unfold isMainTask. auto.
  - exact I.
  - destruct H as [-> | ->]; simpl; unfold isMainTask, isMap; auto 10.
Qed.

Lemma Reach_Shaped input c tr : Reach props input c tr -> Shaped c.
Proof.
  induction 1.
  - simpl. unfold isMainTask. auto.
  - eapply Trans_Shaped; eauto. eapply step_Trans; eauto.
Qed.

(** Induction over the reachable configurations, by the steps of [Trans]. *)
Lemma Reach_Trans_ind input
  (P : Config StateName -> list (Event StateName) -> Prop) :
  P (start M input) [] ->
  (forall c tr evs c',
      Reach props input c tr -> Shaped c -> P c tr ->
      Trans props c evs c' -> P c' (tr ++ evs)) ->
  forall c tr, Reach props input c tr -> P c tr.
Proof.
  intros H0 Hs c tr H. induction H; auto.
  eapply Hs; eauto using Reach_Shaped.
  eapply step_Trans; eauto using Reach_Shaped.
Qed.

Lemma exec_Reach input acts : forall t c tr c' tr',
  Reach props input c tr -> exec M t c acts = Some (c', tr') ->
  Reach props input c' (tr ++ tr').
Proof.
  induction acts as [|a acts IH]; simpl; intros t c tr c' tr' Hr H.
  - injection H as <- <-. rewrite app_nil_r. exact Hr.
  - destruct (step M (JNum (Z.of_nat t)) c a) as [[c1 e1]|] eqn:Hs; try discriminate.
    destruct (exec M (S t) c1 acts) as [[c2 e2]|] eqn:He; try discriminate.
    injection H as <- <-. rewrite app_assoc. eapply IH; eauto.
    econstructor; eauto.
Qed.

Lemma run_Reach input acts c tr :
  run M input acts = Some (c, tr) -> Reach props input c tr.
Proof.
  intros H. change tr with ([] ++ tr). eapply exec_Reach; eauto. constructor.
Qed.


(** *** Histories grow by appending *)

Lemma untouched_app m tr evs :
  untouched m tr -> untouched m evs -> untouched m (tr ++ evs).
Proof.
  intros (A & B & C) (A' & B' & C'). repeat split.
  - rewrite in_app_iff. tauto.
  - intros n. rewrite in_app_iff. specialize (B n). specialize (B' n). tauto.
  - intros k e. rewrite in_app_iff. specialize (C k e). specialize (C' k e). tauto.
Qed.

Lemma allSucceeded_app m tr evs :
  allSucceeded m tr -> (forall n, ~ In (Top (MapStarted m n)) evs) ->
  allSucceeded m (tr ++ evs).
Proof.
  intros (A & B & (n0 & C) & D) H. repeat split; try (apply in_app_iff; auto; fail).
  - exists n0. apply in_app_iff. auto.
  - intros n Hn k Hk. apply in_app_iff in Hn. apply in_app_iff.
    destruct Hn as [Hn|Hn]; [left; eauto|]. exfalso. eapply H; eauto.
Qed.

Lemma untouched_items m m' k (evs : list (Ev StateName)) :
  m <> m' -> untouched m (map (Item m' k) evs).
Proof.
  intros Hm. split; [|split].
  - intros Hin. apply in_map_iff in Hin. destruct Hin as (x & Hx & _). discriminate.
  - intros n Hin. apply in_map_iff in Hin. destruct Hin as (x & Hx & _). discriminate.
  - intros k' e Hin. apply in_map_iff in Hin. destruct Hin as (x & Hx & _).
    congruence.
Qed.

Lemma no_top_in_items m k (evs : list (Ev StateName)) e :
  ~ In (Top e) (map (Item m k) evs).
Proof.
  intros Hin. apply in_map_iff in Hin. destruct Hin as (x & Hx & _). discriminate.
Qed.

Lemma item_in_items m k (evs : list (Ev StateName)) m' k' e :
  In (Item m' k' e) (map (Item m k) evs) -> m' = m /\ k' = k /\ In e evs.
Proof.
  intros Hin. apply in_map_iff in Hin. destruct Hin as (x & Hx & Hin).
  injection Hx as -> -> ->. auto.
Qed.

Lemma isMap_cases m : isMap m -> m = SubmitStep1Jobs \/ m = SubmitStep2Jobs.
Proof. auto. Qed.

Lemma find_isIter (l : list (Iteration StateName)) k it :
  find (isIter k) l = Some it -> In it l /\ index it = k.
Proof.
  intros H. apply find_some in H. destruct H as [Hin Hk]. split; auto.
  apply Nat.eqb_eq. exact Hk.
Qed.

Lemma in_setThread (l : list (Iteration StateName)) k t it :
  In it l -> exists it', In it' (map (setThread k t) l) /\ index it' = index it.
Proof.
  intros H. exists (setThread k t it). split; [apply in_map; auto|].
  unfold setThread. destruct (isIter k it); reflexivity.
Qed.

Ltac easy_untouched :=
  repeat split; simpl; try intros ? ?; try intros ?; intuition (try discriminate; try congruence).

Lemma Moves_complete t out evs :
  Moves props t (Complete out) evs ->
  isBatch (cur t) /\ evs = [JobSucceeded (cur t); StateSucceeded (cur t)].
Proof. inversion 1; subst; simpl; auto. Qed.

Lemma parseOf_not_batch m : isBatch (parseOf m) -> False.
Proof. destruct m; simpl; intros [H|H]; discriminate. Qed.

Lemma submitOf_not_lambda m : isLambda (submitOf m) -> False.
Proof.
  unfold isLambda, isMainTask.
  destruct m; simpl; intros [[H|[H|[H|H]]]|[H|H]]; discriminate.
Qed.

Lemma Reach_Ordered input c tr : Reach props input c tr -> Ordered c tr.
Proof.
  revert c tr. apply Reach_Trans_ind.
  - simpl. unfold untouched. simpl. tauto.
  - intros c tr evs c' Hr Hs IH H. destruct H.
    + (* invoke *)
      destruct H as [->|[->|[->| ->]]]; simpl in *; auto;
        destruct IH as [A B]; split;
        try (apply untouched_app; auto; easy_untouched; fail);
        apply allSucceeded_app; auto; simpl; intuition discriminate.
    + exact I.
    + (* return *)
      destruct H as [->|[->|[->| ->]]]; simpl in H0; injection H0 as <-;
        simpl in *; auto; destruct IH as [A B]; split;
        try (apply untouched_app; auto; easy_untouched; fail);
        apply allSucceeded_app; auto; simpl; intuition discriminate.
    + exact I.
    + (* a Map state is entered *)
      assert (U : untouched m tr /\
                  match m with
                  | SubmitStep1Jobs => untouched SubmitStep2Jobs tr
                  | _ => allSucceeded SubmitStep1Jobs tr
                  end)
        by (destruct H as [-> | ->]; simpl in IH; tauto).
      destruct U as [(U1 & U2 & U3) V]. split.
      * repeat split.
        -- apply in_app_iff. simpl. auto.
        -- apply in_app_iff. simpl. auto.
        -- intros n0 Hn. apply in_app_iff in Hn. destruct Hn as [Hn|Hn].
           ++ exfalso. eapply U2; eauto.
           ++ simpl in Hn. destruct Hn as [Hn|[Hn|[]]]; try discriminate.
              injection Hn as <-. reflexivity.
        -- intros k e Hin. apply in_app_iff in Hin. destruct Hin as [Hin|Hin].
           ++ exfalso. eapply U3; eauto.
           ++ simpl in Hin. intuition discriminate.
        -- intros k Hk. lia.
      * destruct H as [-> | ->].
        -- apply untouched_app; auto. easy_untouched.
        -- apply allSucceeded_app; auto. simpl. intuition discriminate.
    + exact I.
    + exact I.
    + (* the Succeed state *)
      simpl in *. destruct IH as [A B]. split;
        apply allSucceeded_app; auto; simpl; intuition discriminate.
    + (* dispatch *)
      simpl in IH. destruct IH as [(A & B & C & D & E) V]. split.
      * repeat split.
        -- apply in_app_iff. auto.
        -- apply in_app_iff. left. simpl in B.
           replace (S n + List.length rest) with (n + S (List.length rest)) by lia.
           exact B.
        -- intros n0 Hn. apply in_app_iff in Hn. destruct Hn as [Hn|Hn].
           ++ apply C in Hn. simpl in Hn. lia.
           ++ simpl in Hn. intuition discriminate.
        -- intros k e Hin. apply in_app_iff in Hin. destruct Hin as [Hin|Hin].
           ++ apply D in Hin. lia.
           ++ simpl in Hin. destruct Hin as [Hin|[]]. injection Hin as <- <-. lia.
        -- intros k Hk. destruct (Nat.eq_dec k n) as [->|Hne].
           ++ left. eexists. split; [apply in_app_iff; right; left; reflexivity|].
              reflexivity.
           ++ destruct (E k) as [(it & Hit & Hi)|Hj]; try lia.
              ** left. exists it. split; auto. apply in_app_iff. auto.
              ** right. apply in_app_iff. auto.
      * destruct H as [-> | ->].
        -- apply untouched_app; auto. easy_untouched.
        -- apply allSucceeded_app; auto. simpl. intuition discriminate.
    + exact I.
    + (* an iteration goes on *)
      simpl in IH. destruct IH as [(A & B & C & D & E) V].
      apply find_isIter in H0. destruct H0 as [Hin Hk].
      simpl in Hs. destruct Hs as (_ & _ & _ & Hall & _).
      rewrite Forall_forall in Hall. destruct (Hall _ Hin) as [Hlt _].
      split.
      * repeat split.
        -- apply in_app_iff. auto.
        -- apply in_app_iff. auto.
        -- intros n0 Hn. apply in_app_iff in Hn. destruct Hn as [Hn|Hn]; auto.
           exfalso. eapply no_top_in_items; eauto.
        -- intros k0 e Hi. apply in_app_iff in Hi. destruct Hi as [Hi|Hi]; eauto.
           apply item_in_items in Hi. destruct Hi as (_ & -> & _). lia.
        -- intros k0 Hk0. destruct (E k0 Hk0) as [(x & Hx & Hi)|Hj].
           ++ left. destruct (in_setThread inflight k t' x Hx) as (x' & Hx' & Hi').
              exists x'. split; auto. congruence.
           ++ right. apply in_app_iff. auto.
      * destruct H as [-> | ->].
        -- apply untouched_app; auto. apply untouched_items. discriminate.
        -- apply allSucceeded_app; auto. intros n0. apply no_top_in_items.
    + (* an iteration is done *)
      simpl in IH. destruct IH as [(A & B & C & D & E) V].
      apply find_isIter in H0. destruct H0 as [Hin Hk].
      simpl in Hs. destruct Hs as (_ & _ & _ & Hall & _).
      rewrite Forall_forall in Hall. destruct (Hall _ Hin) as [Hlt Hcur].
      assert (Hev : In (JobSucceeded (submitOf m)) evs).
      { destruct (Moves_complete _ _ _ H1) as [Hb ->].
        destruct Hcur as [Hc|Hc]; rewrite Hc in *; [|simpl; auto].
        exfalso. eapply parseOf_not_batch; eauto. }
      split.
      * repeat split.
        -- apply in_app_iff. auto.
        -- apply in_app_iff. auto.
        -- intros n0 Hn. apply in_app_iff in Hn. destruct Hn as [Hn|Hn]; auto.
           exfalso. eapply no_top_in_items; eauto.
        -- intros k0 e Hi. apply in_app_iff in Hi. destruct Hi as [Hi|Hi]; eauto.
           apply item_in_items in Hi. destruct Hi as (_ & -> & _). lia.
        -- intros k0 Hk0. destruct (Nat.eq_dec k0 k) as [->|Hne].
           ++ right. apply in_app_iff. right. apply in_map. apply in_app_iff. auto.
           ++ destruct (E k0 Hk0) as [(x & Hx & Hi)|Hj].
              ** left. exists x. split; auto. apply filter_In. split; auto.
                 unfold isIter. rewrite Hi. apply negb_true_iff.
                 apply Nat.eqb_neq. exact Hne.
              ** right. apply in_app_iff. auto.
      * destruct H as [-> | ->].
        -- apply untouched_app; auto. apply untouched_items. discriminate.
        -- apply allSucceeded_app; auto. intros n0. apply no_top_in_items.
    + exact I.
    + exact I.
    + (* a Map state succeeds *)
      simpl in IH. destruct IH as [(A & B & C & D & E) V].
      assert (S : allSucceeded m (tr ++ [Top (StateSucceeded m)])).
      { repeat split; try (apply in_app_iff; simpl; auto; fail).
        - eexists. apply in_app_iff. eauto.
        - intros n0 Hn k Hk. apply in_app_iff in Hn. destruct Hn as [Hn|Hn].
          + apply C in Hn. simpl in Hn. destruct (E k) as [(x & [] & _)|Hj]; try lia.
            apply in_app_iff. auto.
          + simpl in Hn. intuition discriminate. }
      destruct H as [-> | ->]; simpl; split; auto.
      * apply untouched_app; auto. easy_untouched.
      * apply allSucceeded_app; auto. simpl. intuition discriminate.
Qed.


(** *** Two ways to use the induction *)

Lemma app_split {A} (tr evs tr1 tr2 : list A) e :
  tr ++ evs = tr1 ++ e :: tr2 ->
  (exists r, tr = tr1 ++ e :: r /\ tr2 = r ++ evs) \/
  (exists l, tr1 = tr ++ l /\ evs = l ++ e :: tr2).
Proof.
  intros H. apply app_eq_app in H. destruct H as (l & [[H1 H2]|[H1 H2]]).
  - destruct l as [|x l]; simpl in H2.
    + right. exists []. rewrite app_nil_r in *. auto.
    + injection H2 as <- ->. left. exists l. auto.
  - right. exists l. auto.
Qed.

(** What holds of the history before an entry, whenever the entry is made. *)
Lemma emitted input (Q : Event StateName -> Prop)
  (R : Event StateName -> History -> Prop) :
  (forall c tr evs c' l e r,
      Reach props input c tr -> Shaped c -> Trans props c evs c' ->
      evs = l ++ e :: r -> Q e -> R e (tr ++ l)) ->
  forall c tr, Reach props input c tr ->
  forall tr1 e tr2, tr = tr1 ++ e :: tr2 -> Q e -> R e tr1.
Proof.
  intros Hstep. apply (Reach_Trans_ind input
    (fun c tr => forall tr1 e tr2, tr = tr1 ++ e :: tr2 -> Q e -> R e tr1)).
  - intros tr1 e tr2 H. destruct tr1; discriminate.
  - intros c tr evs c' Hr Hs IH HT tr1 e tr2 E HQ.
    apply app_split in E. destruct E as [(r & -> & ->)|(l & -> & ->)].
    + eapply IH; eauto.
    + eapply Hstep; eauto.
Qed.


Lemma flawless_app tr evs : flawless tr -> flawless evs -> flawless (tr ++ evs).
Proof. intros A B e Hin. apply in_app_iff in Hin. destruct Hin; auto. Qed.

Lemma Moves_continue_flawless t t' evs m k :
  Moves props t (Continue t') evs -> flawless (map (Item m k) evs).
Proof.
  intros H e Hin. apply in_map_iff in Hin. destruct Hin as (x & <- & Hx).
  inversion H; subst; simpl in Hx; intuition (subst; simpl; auto).
Qed.

Ltac easy_flawless :=
  intros ? ?; simpl in *; intuition (subst; simpl; auto).

Lemma Reach_flawless input c tr :
  Reach props input c tr -> phase c <> Broken -> flawless tr.
Proof.
  revert c tr.
  apply (Reach_Trans_ind input (fun c tr => phase c <> Broken -> flawless tr)).
  - intros _ e [].
  - intros c tr evs c' Hr Hs IH H Hp. destruct H; simpl in Hp; try congruence.
    + apply flawless_app; [apply IH; exact Hp|]. easy_flawless.
    + apply flawless_app; [|easy_flawless].
      apply IH. destruct H as [->|[->|[->| ->]]]; simpl in *; try discriminate;
        injection H0 as <-; simpl in Hp; congruence.
    + apply flawless_app; [|easy_flawless].
      apply IH. destruct H as [-> | ->]; simpl; discriminate.
    + apply flawless_app; [|easy_flawless]. apply IH. simpl. discriminate.
    + apply flawless_app; [|easy_flawless]. apply IH. exact Hp.
    + apply flawless_app; [apply IH; exact Hp|].
      eapply Moves_continue_flawless; eauto.
    + apply flawless_app; [apply IH; exact Hp|].
      destruct (Moves_complete _ _ _ H1) as [_ ->]. easy_flawless.
    + apply flawless_app; [|easy_flawless].
      apply IH. destruct H as [-> | ->]; simpl; discriminate.
Qed.


(** *** The entries of a step *)

Lemma Moves_entries t o evs m k :
  isMap m -> cur t = parseOf m \/ cur t = submitOf m -> Moves props t o evs ->
  forall e, In e (map (Item m k) evs) -> mapEntry m e.
Proof.
  intros Hm Hcur H e Hin. apply in_map_iff in Hin. destruct Hin as (x & <- & Hx).
  inversion H; subst; simpl in Hcur, Hx;
    repeat (destruct Hx as [<-|Hx]; [simpl; auto|]); try contradiction;
    try (split; auto; destruct Hcur as [Hc|Hc]; auto; rewrite Hc in *;
         exfalso; eapply parseOf_not_batch; eauto).
Qed.

Lemma Trans_entries c evs c' :
  Shaped c -> Trans props c evs c' -> forall e, In e evs -> entryOf props c e.
Proof.
  intros Hs H. destruct H; simpl; intros x Hin; simpl in Hin;
    try (intuition (subst; simpl; auto); fail).
  - (* an iteration goes on *)
    destruct Hs as (_ & _ & _ & Hall & _). apply find_isIter in H0.
    rewrite Forall_forall in Hall. destruct (Hall _ (proj1 H0)) as [_ Hcur].
    eapply Moves_entries; eauto.
  - destruct Hs as (_ & _ & _ & Hall & _). apply find_isIter in H0.
    rewrite Forall_forall in Hall. destruct (Hall _ (proj1 H0)) as [_ Hcur].
    rewrite map_app in Hin. apply in_app_iff in Hin. destruct Hin as [Hin|Hin].
    + eapply Moves_entries; eauto.
    + simpl in Hin. intuition (subst; simpl; auto).
  - destruct Hs as (_ & _ & _ & Hall & _). apply find_isIter in H0.
    rewrite Forall_forall in Hall. destruct (Hall _ (proj1 H0)) as [_ Hcur].
    rewrite map_app in Hin. rewrite !in_app_iff in Hin.
    destruct Hin as [[Hin|Hin]|Hin].
    + eapply Moves_entries; eauto.
    + simpl in Hin. intuition (subst; simpl; auto).
    + simpl in Hin. intuition (subst; simpl; auto).
  - destruct Hs as (_ & _ & _ & Hall & _). apply find_isIter in H0.
    rewrite Forall_forall in Hall. destruct (Hall _ (proj1 H0)) as [_ Hcur].
    rewrite map_app in Hin. rewrite !in_app_iff in Hin.
    destruct Hin as [[Hin|Hin]|Hin].
    + eapply Moves_entries; eauto.
    + simpl in Hin. intuition (subst; simpl; auto).
    + simpl in Hin. intuition (subst; simpl; auto).
Qed.


(** *** The failure branch *)

Lemma onFailureBranch_Shaped c : onFailureBranch c -> Shaped c.
Proof.
  destruct c as [[s d|s d a]|m d n p i dn|[|e ca]]; simpl; try tauto;
    destruct s; simpl; try tauto; unfold isMainTask; auto 10.
Qed.

Lemma Broken_onFailureBranch c :
  Shaped c -> phase c = Broken -> onFailureBranch c.
Proof.
  destruct c as [[s d|s d a]|m d n p i dn|[|e ca]]; simpl; try tauto;
    try discriminate.
  - unfold isMainTask, isMap. destruct s; simpl; try discriminate; auto;
      intuition discriminate.
  - unfold isMainTask. destruct s; simpl; try discriminate; auto;
      intuition discriminate.
  - destruct m; discriminate.
Qed.

Lemma failure_step now c a c' evs :
  onFailureBranch c -> step M now c a = Some (c', evs) ->
  onFailureBranch c' /\ rank c' < rank c /\
  (forall e, In e evs -> ~ isSubmission e).
Proof.
  intros Hc H. pose proof (onFailureBranch_Shaped _ Hc) as Hs.
  apply (step_Trans _ _ _ _ _ Hs) in H.
  destruct c as [[s d|s d k]|m d n p i dn|[|e ca]]; simpl in Hc;
    try contradiction; try (destruct s; try contradiction);
    inversion H; subst; try absurd_state;
    try (match goal with
         | H : nextOf _ = Some _ |- _ => simpl in H; injection H as <-
         end);
    simpl; (split; [exact I|]); (split; [lia|]);
    intros x Hin; simpl in Hin; intuition (subst; simpl in *; auto).
Qed.

Lemma failure_exec acts : forall t c c' tr',
  onFailureBranch c -> exec M t c acts = Some (c', tr') ->
  onFailureBranch c' /\ List.length acts + rank c' <= rank c /\
  (forall e, In e tr' -> ~ isSubmission e).
Proof.
  induction acts as [|a acts IH]; simpl; intros t c c' tr' Hc H.
  - injection H as <- <-. repeat split; auto.
  - destruct (step M (JNum (Z.of_nat t)) c a) as [[c1 e1]|] eqn:Hs; try discriminate.
    destruct (exec M (S t) c1 acts) as [[c2 e2]|] eqn:He; try discriminate.
    injection H as <- <-. apply failure_step in Hs; auto.
    destruct Hs as (Hc1 & Hr & Hn). apply IH in He; auto.
    destruct He as (Hc2 & Hr2 & Hn2). repeat split; auto; try lia.
    intros e Hin. apply in_app_iff in Hin. destruct Hin; auto.
Qed.

Lemma failure_live c :
  onFailureBranch c ->
  (exists e ca, c = Ended (FAILED e ca)) \/
  (exists a, forall now, step M now c a <> None).
Proof.
  destruct c as [[s d|s d a]|m d n p i dn|[|e ca]]; simpl; try tauto; intros H.
  - right. exists (Main Enter). intros now. discriminate.
  - right. exists (Main (Respond (Ok JNull))). intros now. discriminate.
  - left. eauto.
Qed.

Lemma rank_le c : rank c <= 3.
Proof.
  destruct c as [[s d|s d a]|m d n p i dn|st]; simpl; try lia;
    destruct s; simpl; lia.
Qed.

Lemma failure_settles c : onFailureBranch c -> settlesFailed props c.
Proof.
  intros Hc. split; auto. intros t acts c' tr' H.
  apply failure_exec in H; auto. destruct H as (Hc' & Hr & Hn).
  repeat split; auto.
  - pose proof (rank_le c). lia.
  - apply failure_live. exact Hc'.
Qed.

Lemma untouched_iff m tr :
  untouched m tr <-> forall e, In e tr -> ~ touches m e.
Proof.
  split.
  - intros (A & B & C) e Hin Ht. destruct e as [x|m' k x| |]; simpl in Ht;
      try contradiction.
    + destruct x; try contradiction; subst; [apply A|eapply B]; eauto.
    + subst. eapply C; eauto.
  - intros H. repeat split.
    + intros Hin. apply (H _ Hin). reflexivity.
    + intros n Hin. apply (H _ Hin). reflexivity.
    + intros k e Hin. apply (H _ Hin). reflexivity.
Qed.

Lemma entry_touches c e m :
  entryOf props c e -> touches m e ->
  match c with
  | Run t => cur t = m
  | AtMap m' _ _ _ _ _ => m' = m
  | Ended _ => False
  end.
Proof.
  destruct c as [t|m' d n p i dn|st]; destruct e as [x|m0 k x| |]; simpl;
    try tauto; destruct x; simpl; intuition congruence.
Qed.

(** Once a phase-1 job has failed, phase 2 is untouched. *)
Lemma step1_failure input c tr :
  Reach props input c tr ->
  (exists k s, In (Item SubmitStep1Jobs k (JobFailed s)) tr) ->
  untouched SubmitStep2Jobs tr.
Proof.
  revert c tr.
  apply (Reach_Trans_ind input (fun c tr =>
    (exists k s, In (Item SubmitStep1Jobs k (JobFailed s)) tr) ->
    untouched SubmitStep2Jobs tr)).
  - intros (k & s & []).
  - intros c tr evs c' Hr Hs IH H (k & s & Hin).
    pose proof (Reach_Ordered _ _ _ Hr) as Ho.
    pose proof (Trans_entries _ _ _ Hs H) as He.
    apply in_app_iff in Hin. destruct Hin as [Hin|Hin].
    + (* the failure is in the past: the execution is on the failure branch *)
      assert (Hb : phase c = Broken).
      { destruct (phase c) eqn:Hp; auto;
          exfalso; eapply (Reach_flawless _ _ _ Hr); eauto;
          try (rewrite Hp; discriminate); simpl; auto. }
      apply Broken_onFailureBranch in Hb; auto.
      apply untouched_app; [apply IH; eauto|].
      apply untouched_iff. intros e Hx Ht. apply He in Hx.
      pose proof (entry_touches _ _ _ Hx Ht) as Hc.
      destruct c as [[s0 d|s0 d a]|m d n p i dn|[|e0 ca]]; simpl in Hb, Hc;
        try contradiction; subst; contradiction.
    + (* the failure happens in this step: the execution is in phase 1 *)
      pose proof (He _ Hin) as Hx.
      destruct c as [[s0 d|s0 d a]|m d n p i dn|st]; simpl in Hx; try contradiction.
      destruct Hx as [<- _]. simpl in Ho. destruct Ho as [_ U].
      apply untouched_app; auto.
      apply untouched_iff. intros e Hy Ht. apply He in Hy.
      pose proof (entry_touches _ _ _ Hy Ht) as Hc. discriminate.
Qed.

Lemma failed_on_branch input c tr e :
  Reach props input c tr -> In e tr -> isFailure e -> onFailureBranch c.
Proof.
  intros Hr Hin Hf. apply Broken_onFailureBranch; [eapply Reach_Shaped; eauto|].
  destruct (phase c) eqn:Hp; auto;
    exfalso; eapply (Reach_flawless _ _ _ Hr); eauto; rewrite Hp; discriminate.
Qed.

(** C1. No phase-2 job is submitted before the phase-1 Map state has
    succeeded with the job of every one of its items succeeded; and once a
    phase-1 job has failed, nothing of phase 2 ever happens and the
    execution can only end FAILED, which it does within three steps. *)
Theorem step2_waits_for_step1 input acts c tr :
  run M input acts = Some (c, tr) ->
  (forall tr1 k s n cmd tr2,
      tr = tr1 ++ Item SubmitStep2Jobs k (JobSubmitted s n cmd) :: tr2 ->
      allSucceeded SubmitStep1Jobs tr1) /\
  ((exists k s, In (Item SubmitStep1Jobs k (JobFailed s)) tr) ->
      untouched SubmitStep2Jobs tr /\ settlesFailed props c).
Proof.
  intros H. apply run_Reach in H. split.
  - intros tr1 k s n cmd tr2 E.
    refine (emitted input
             (fun e => exists k s n cmd,
                         e = Item SubmitStep2Jobs k (JobSubmitted s n cmd))
             (fun _ tr1 => allSucceeded SubmitStep1Jobs tr1) _ c tr H
             tr1 _ tr2 E _); [|eauto].
    clear. intros c tr evs c' l e r Hr Hs HT -> (k & s & n & cmd & ->).
    pose proof (Trans_entries _ _ _ Hs HT) as He.
    pose proof (Reach_Ordered _ _ _ Hr) as Ho.
    assert (Hx : entryOf props c (Item SubmitStep2Jobs k (JobSubmitted s n cmd)))
      by (apply He; apply in_app_iff; simpl; auto).
    destruct c as [t|m d n0 p i dn|st]; simpl in Hx; try contradiction.
    destruct Hx as [<- _]. simpl in Ho. destruct Ho as [_ Ho].
    apply allSucceeded_app; auto. intros n1 Hin.
    assert (Hy : In (Top (MapStarted SubmitStep1Jobs n1)) (l ++ Item SubmitStep2Jobs k (JobSubmitted s n cmd) :: r))
      by (apply in_app_iff; auto).
    apply He in Hy. exact Hy.
  - intros Hf. split; [eapply step1_failure; eauto|].
    destruct Hf as (k & s & Hin). apply failure_settles.
    eapply failed_on_branch; eauto. exact I.
Qed.

(** *** The error handler *)






Lemma handler_invoked input c tr :
  Reach props input c tr ->
  match c with
  | Run (Waiting HandleJobErrors _ _) => handled props tr
  | Run (Pending WorkflowFailed _) =>
      handled props tr /\ In (Top (StateSucceeded HandleJobErrors)) tr
  | _ => True
  end.
Proof.
  revert c tr.
  apply (Reach_Trans_ind input (fun c tr =>
    match c with
    | Run (Waiting HandleJobErrors _ _) => handled props tr
    | Run (Pending WorkflowFailed _) =>
        handled props tr /\ In (Top (StateSucceeded HandleJobErrors)) tr
    | _ => True
    end)).
  - exact I.
  - intros c tr evs c' Hr Hs IH H. destruct H; try exact I.
    + destruct H as [->|[->|[->| ->]]]; try exact I.
      destruct H0 as (w & Hw & ->). split.
      * apply in_app_iff. simpl. auto.
      * exists w. eexists. apply in_app_iff. right. simpl. right. left. reflexivity.
    + destruct H as [->|[->|[->| ->]]]; simpl in H0; injection H0 as <-;
        try exact I.
      destruct IH as (A & w & fj & B). repeat split.
      * apply in_app_iff. auto.
      * exists w, fj. apply in_app_iff. auto.
      * apply in_app_iff. simpl. auto.
    + destruct H as [-> | ->]; exact I.
Qed.





(** *** Runs in two parts *)


Lemma exec_ended acts : forall t st c tr,
  exec M t (Ended st) acts = Some (c, tr) ->
  acts = [] /\ c = Ended st /\ tr = [].
Proof.
  destruct acts as [|a acts]; simpl; intros t st c tr H.
  - injection H as <- <-. auto.
  - discriminate.
Qed.




(** *** Items and their Map state *)

Lemma started_step c evs c' m n :
  Trans props c evs c' -> In (Top (MapStarted m n)) evs ->
  exists d (items : list json), c = Run (Pending m d) /\ n = List.length items /\
    evs = [Top (StateEntered m); Top (MapStarted m n)] /\ isMap m.
Proof.
  intros H Hin. destruct H; simpl in Hin;
    try (exfalso; intuition discriminate; fail);
    try (exfalso; eapply no_top_in_items; eauto; fail);
    try (exfalso; apply in_app_iff in Hin; destruct Hin as [Hin|Hin];
         [eapply no_top_in_items; eauto|simpl in Hin; intuition discriminate]).
  destruct Hin as [Hin|[Hin|[]]]; try discriminate. injection Hin as <- <-.
  eauto 10.
Qed.

Lemma started_once input c tr :
  Reach props input c tr ->
  forall m n n', In (Top (MapStarted m n)) tr -> In (Top (MapStarted m n')) tr ->
                 n = n'.
Proof.
  revert c tr.
  apply (Reach_Trans_ind input (fun c tr =>
    forall m n n', In (Top (MapStarted m n)) tr ->
                   In (Top (MapStarted m n')) tr -> n = n')).
  - intros m n n' [].
  - intros c tr evs c' Hr Hs IH H m n n' H1 H2.
    pose proof (Reach_Ordered _ _ _ Hr) as Ho.
    assert (N : forall k, In (Top (MapStarted m k)) evs ->
                forall k', In (Top (MapStarted m k')) (tr ++ evs) -> k = k').
    { intros k Hk k' Hk'.
      destruct (started_step _ _ _ _ _ H Hk) as (d & items & -> & -> & -> & Hm).
      apply in_app_iff in Hk'. destruct Hk' as [Hk'|Hk'].
      - exfalso. destruct Hm as [-> | ->]; simpl in Ho;
          destruct Ho as [(_ & U & _) (_ & V & _)];
          first [eapply U; eauto; fail | eapply V; eauto].
      - simpl in Hk'. destruct Hk' as [Hk'|[Hk'|[]]]; try discriminate.
        injection Hk' as <-. reflexivity. }
    apply in_app_iff in H1. destruct H1 as [H1|H1].
    + apply in_app_iff in H2. destruct H2 as [H2|H2]; eauto.
      symmetry. eapply N; eauto. apply in_app_iff. auto.
    + eapply N; eauto.
Qed.

Lemma item_step m d n p i dn evs c' m0 k e :
  Forall (iterOk m n) i -> Trans props (AtMap m d n p i dn) evs c' ->
  In (Item m0 k e) evs -> (k = n /\ p <> []) \/ k < n.
Proof.
  intros Hall H Hin. rewrite Forall_forall in Hall.
  inversion H; subst; simpl in Hin;
    try match goal with
        | F : find (isIter _) _ = Some _ |- _ =>
            apply find_isIter in F; destruct F as [Hi <-];
            destruct (Hall _ Hi) as [Hlt _]
        end.
  - destruct Hin as [Hin|[]]. injection Hin as _ <- _. left. split; auto.
    discriminate.
  - exfalso. intuition discriminate.
  - apply item_in_items in Hin. destruct Hin as (_ & -> & _). auto.
  - apply item_in_items in Hin. destruct Hin as (_ & -> & _). auto.
  - apply in_app_iff in Hin. destruct Hin as [Hin|Hin];
      [|simpl in Hin; exfalso; intuition discriminate].
    apply item_in_items in Hin. destruct Hin as (_ & -> & _). auto.
  - apply in_app_iff in Hin. destruct Hin as [Hin|Hin];
      [|simpl in Hin; exfalso; intuition discriminate].
    apply item_in_items in Hin. destruct Hin as (_ & -> & _). auto.
  - exfalso. intuition discriminate.
Qed.

Lemma items_counted input c tr :
  Reach props input c tr ->
  forall m k e, In (Item m k e) tr ->
  isMap m /\ exists n, In (Top (MapStarted m n)) tr /\ k < n.
Proof.
  revert c tr.
  apply (Reach_Trans_ind input (fun c tr =>
    forall m k e, In (Item m k e) tr ->
    isMap m /\ exists n, In (Top (MapStarted m n)) tr /\ k < n)).
  - intros m k e [].
  - intros c tr evs c' Hr Hs IH H m k e Hin.
    apply in_app_iff in Hin. destruct Hin as [Hin|Hin].
    + destruct (IH _ _ _ Hin) as (Hm & n & Hn & Hk). split; auto.
      exists n. split; auto. apply in_app_iff. auto.
    + pose proof (Reach_Ordered _ _ _ Hr) as Ho.
      pose proof (Trans_entries _ _ _ Hs H _ Hin) as He.
      destruct c as [t|m' d n p i dn|st]; simpl in He; try contradiction.
      assert (m = m') by (destruct e; simpl in He; tauto). subst m'.
      simpl in Hs, Ho. destruct Hs as (Hm & _ & _ & Hall & _).
      destruct Ho as [(_ & B & _) _]. split; auto.
      exists (n + List.length p). split; [apply in_app_iff; auto|].
      destruct (item_step _ _ _ _ _ _ _ _ _ _ _ Hall H Hin) as [[-> Hp]|Hk];
        [|lia].
      destruct p; [contradiction|simpl; lia].
Qed.

Lemma empty_map_step now m d n dn a r :
  isMap m -> isObj d -> step M now (AtMap m d n [] [] dn) a = Some r ->
  a = MapDone /\
  exists d', r = (Run (Pending (afterMap m) d'), [Top (StateSucceeded m)]).
Proof.
  intros Hm Hd H.
  assert (Hs : Shaped (AtMap m d n [] [] dn)).
  { simpl. repeat split; auto; try constructor. lia. }
  destruct r as [c' evs]. pose proof (step_Trans _ _ _ _ _ Hs H) as HT.
  destruct a as [mv|k mv| |].
  - destruct Hm as [-> | ->]; discriminate.
  - destruct Hm as [-> | ->]; discriminate.
  - destruct Hm as [-> | ->]; discriminate.
  - split; auto. inversion HT; subst; try discriminate. eauto.
Qed.

(** C5 as the code has it.  The job calculation is always followed by the
    phase-1 Map state, and the phase-2 Map state is entered only after the
    phase-1 Map state was entered and succeeded.  When the plan holds no
    phase-1 job that state runs no iteration and submits nothing, and its
    only step is on to the phase-2 Map state; an iteration of the phase-1
    Map state runs only for an item of the plan. *)
Theorem step1_state_always_entered :
  (nextOf CalculateBatchJobs = Some SubmitStep1Jobs /\
   nextOf SubmitStep1Jobs = Some SubmitStep2Jobs) /\
  forall input acts c tr,
    run M input acts = Some (c, tr) ->
    (forall tr1 tr2,
       tr = tr1 ++ Top (StateEntered SubmitStep2Jobs) :: tr2 ->
       In (Top (StateEntered SubmitStep1Jobs)) tr1 /\
       In (Top (StateSucceeded SubmitStep1Jobs)) tr1) /\
    (In (Top (MapStarted SubmitStep1Jobs 0)) tr ->
       forall k e, ~ In (Item SubmitStep1Jobs k e) tr) /\
    (forall k e, In (Item SubmitStep1Jobs k e) tr ->
       exists n, In (Top (MapStarted SubmitStep1Jobs n)) tr /\ k < n) /\
    (forall d n dn, c = AtMap SubmitStep1Jobs d n [] [] dn ->
       forall now a r, step M now c a = Some r ->
         a = MapDone /\
         exists d', r = (Run (Pending SubmitStep2Jobs d'),
                         [Top (StateSucceeded SubmitStep1Jobs)])).
Proof.
  split; [split; reflexivity|].
  intros input acts c tr H. apply run_Reach in H.
  split; [|split; [|split]].
  - intros tr1 tr2 E.
    refine (emitted input (fun e => e = Top (StateEntered SubmitStep2Jobs))
      (fun _ tr1 => In (Top (StateEntered SubmitStep1Jobs)) tr1 /\
                    In (Top (StateSucceeded SubmitStep1Jobs)) tr1)
      _ c tr H _ _ _ E eq_refl).
    clear. intros c tr evs c' l e r Hr Hs HT -> ->.
    pose proof (Reach_Ordered _ _ _ Hr) as Ho.
    assert (Hin : In (Top (StateEntered SubmitStep2Jobs))
                     (l ++ Top (StateEntered SubmitStep2Jobs) :: r))
      by (apply in_app_iff; simpl; auto).
    pose proof (Trans_entries _ _ _ Hs HT _ Hin) as He.
    destruct c as [[s d|s d a]|m d n p i dn|st]; simpl in He;
      try contradiction; subst s; simpl in Hs; [|absurd_state].
    simpl in Ho. destruct Ho as [(A & B & _) _].
    rewrite !in_app_iff. auto.
  - intros H0 k e Hin. destruct (items_counted _ _ _ H _ _ _ Hin) as (_ & n & Hn & Hk).
    rewrite (started_once _ _ _ H _ _ _ Hn H0) in Hk. lia.
  - intros k e Hin. apply (items_counted _ _ _ H _ _ _ Hin).
  - intros d n dn -> now a r Hst.
    pose proof (Reach_Shaped _ _ _ H) as Hs. simpl in Hs.
    eapply (empty_map_step now SubmitStep1Jobs); eauto; tauto.
Qed.

(** *** The success handler *)

Lemma completing_app tr evs : completing props tr -> completing props (tr ++ evs).
Proof.
  intros (A & w & b & t & B). split; [apply in_app_iff; auto|].
  exists w, b, t. apply in_app_iff. auto.
Qed.

Lemma Reach_succeededAt input c tr : Reach props input c tr -> succeededAt props c tr.
Proof.
  revert c tr. apply Reach_Trans_ind.
  - simpl. auto.
  - intros c tr evs c' Hr Hs IH H. destruct H.
    + (* invoke *)
      destruct H as [->|[->|[->| ->]]]; simpl in *;
        try (rewrite in_app_iff; simpl; intuition discriminate).
      split; [|rewrite in_app_iff; simpl; intuition discriminate].
      destruct H0 as (w & b & t & _ & _ & ->). split.
      * apply in_app_iff. simpl. auto.
      * exists w, b, t. apply in_app_iff. simpl. auto.
    + destruct H as [->|[->|[->| ->]]]; simpl in *;
        rewrite in_app_iff; simpl; intuition discriminate.
    + destruct H as [->|[->|[->| ->]]]; simpl in H0; injection H0 as <-;
        simpl in *; try (rewrite in_app_iff; simpl; intuition discriminate).
      destruct IH as [A B]. split; [apply completing_app; auto|].
      apply in_app_iff. simpl. auto.
    + destruct H as [->|[->|[->| ->]]]; simpl in *;
        rewrite in_app_iff; simpl; intuition discriminate.
    + destruct H as [-> | ->]; simpl in *;
        rewrite in_app_iff; simpl; intuition discriminate.
    + destruct H as [-> | ->]; simpl in *;
        rewrite in_app_iff; simpl; intuition discriminate.
    + simpl in *. rewrite in_app_iff; simpl; intuition discriminate.
    + simpl in *. destruct IH as [A B]. split; [apply completing_app; auto|].
      apply in_app_iff. auto.
    + simpl in *. destruct m; rewrite in_app_iff; simpl; intuition discriminate.
    + simpl in *. assert (~ In (Top (StateSucceeded HandleSuccess)) tr)
        by (destruct m; auto).
      rewrite in_app_iff; simpl; intuition discriminate.
    + simpl in *. assert (~ In (Top (StateSucceeded HandleSuccess)) tr)
        by (destruct m; auto).
      assert (~ In (Top (StateSucceeded HandleSuccess)) (map (Item m k) evs))
        by apply no_top_in_items.
      destruct m; rewrite in_app_iff; tauto.
    + simpl in *. assert (~ In (Top (StateSucceeded HandleSuccess)) tr)
        by (destruct m; auto).
      assert (~ In (Top (StateSucceeded HandleSuccess))
                (map (Item m k) (evs ++ [IterationSucceeded])))
        by apply no_top_in_items.
      destruct m; rewrite in_app_iff; tauto.
    + simpl in *. assert (~ In (Top (StateSucceeded HandleSuccess)) tr)
        by (destruct m; auto).
      assert (~ In (Top (StateSucceeded HandleSuccess))
                (map (Item m k) (evs ++ [IterationFailed])))
        by apply no_top_in_items.
      rewrite !in_app_iff; simpl; intuition discriminate.
    + simpl in *. assert (~ In (Top (StateSucceeded HandleSuccess)) tr)
        by (destruct m; auto).
      assert (~ In (Top (StateSucceeded HandleSuccess))
                (map (Item m k) (evs ++ [IterationFailed])))
        by apply no_top_in_items.
      rewrite !in_app_iff; simpl; intuition discriminate.
    + simpl in *. assert (~ In (Top (StateSucceeded HandleSuccess)) tr)
        by (destruct m; auto).
      destruct H as [-> | ->]; simpl; rewrite in_app_iff; simpl;
        intuition discriminate.
Qed.

Lemma Reach_afterStep2 input c tr :
  Reach props input c tr ->
  In (Top (StateSucceeded SubmitStep2Jobs)) tr -> afterStep2 c tr.
Proof.
  revert c tr.
  apply (Reach_Trans_ind input (fun c tr =>
    In (Top (StateSucceeded SubmitStep2Jobs)) tr -> afterStep2 c tr)).
  - intros [].
  - intros c tr evs c' Hr Hs IH H Hin. apply in_app_iff in Hin.
    destruct Hin as [Hin|Hin].
    + specialize (IH Hin).
      destruct c as [[s d|s d a]|m d n p i dn|[|e ca]]; simpl in IH;
        try contradiction; try (destruct s; try contradiction);
        inversion H; subst; try absurd_state;
        try (match goal with
             | E : nextOf _ = Some _ |- _ => simpl in E; injection E as <-
             end);
        simpl; auto; try (apply in_app_iff; simpl; auto; fail).
    + destruct H; simpl in Hin;
        try (exfalso; intuition (try discriminate); fail);
        try (exfalso; eapply no_top_in_items; eauto; fail);
        try (exfalso; apply in_app_iff in Hin; destruct Hin as [Hin|Hin];
             [eapply no_top_in_items; eauto
             |simpl in Hin; intuition discriminate]).
      * exfalso. destruct Hin as [Hin|[]]. injection Hin as ->.
        destruct H as [H|[H|[H|H]]]; discriminate.
      * destruct Hin as [Hin|[]]. injection Hin as ->. exact I.
Qed.

(** C6 as the code has it.  An ended execution has succeeded exactly when
    the success handler step succeeded.  That step succeeds only after both
    Map states succeeded with the job of every item of the plan succeeded,
    in a history without any failure.  When the phase-2 Map state succeeded
    and the execution still ended FAILED, it is the success handler step
    that failed.  The succeeded end is entered only after the success
    handler was invoked with workflowId, resultsBucketPath and
    completionTime, and returned. *)
Theorem succeeds_iff_handler_succeeds input acts c tr :
  run M input acts = Some (c, tr) ->
  (forall st, c = Ended st ->
     (st = SUCCEEDED <-> In (Top (StateSucceeded HandleSuccess)) tr)) /\
  (In (Top (StateSucceeded HandleSuccess)) tr ->
     allSucceeded SubmitStep1Jobs tr /\ allSucceeded SubmitStep2Jobs tr /\
     flawless tr) /\
  (forall e ca, c = Ended (FAILED e ca) ->
     In (Top (StateSucceeded SubmitStep2Jobs)) tr ->
     In (Top (StateFailed HandleSuccess e)) tr) /\
  (forall tr1 tr2, tr = tr1 ++ ExecutionSucceeded :: tr2 ->
     completing props tr1 /\ In (Top (StateSucceeded HandleSuccess)) tr1).
Proof.
  intros H. apply run_Reach in H.
  pose proof (Reach_succeededAt _ _ _ H) as Hsa.
  split; [|split; [|split]].
  - intros st ->. destruct st as [|e ca]; simpl in Hsa.
    + tauto.
    + split; [discriminate|tauto].
  - intros Hin.
    assert (Hp : phase c = Late).
    { destruct c as [[s d|s d a]|m d n p i dn|[|e ca]]; simpl in Hsa;
        try reflexivity; try (destruct s; simpl in Hsa; tauto);
        try (destruct m; tauto). tauto. }
    pose proof (Reach_Ordered _ _ _ H) as Ho.
    assert (Hf : flawless tr)
      by (eapply Reach_flawless; eauto; rewrite Hp; discriminate).
    destruct c as [[s d|s d a]|m d n p i dn|[|e ca]]; simpl in Hp, Ho;
      try discriminate; try (destruct m; discriminate);
      try (rewrite Hp in Ho); tauto.
  - intros e ca -> Hin. apply (Reach_afterStep2 _ _ _ H Hin).
  - intros tr1 tr2 E.
    refine (emitted input (fun e => e = ExecutionSucceeded)
      (fun _ tr1 => completing props tr1 /\
                    In (Top (StateSucceeded HandleSuccess)) tr1)
      _ c tr H _ _ _ E eq_refl).
    clear. intros c tr evs c' l e r Hr Hs HT -> ->.
    pose proof (Reach_succeededAt _ _ _ Hr) as Hsa.
    assert (Hin : In (@ExecutionSucceeded StateName)
                     (l ++ ExecutionSucceeded :: r))
      by (apply in_app_iff; simpl; auto).
    pose proof (Trans_entries _ _ _ Hs HT _ Hin) as He.
    destruct c as [[s d|s d a]|m d n p i dn|st]; simpl in He;
      try contradiction; subst s; simpl in Hs; [|absurd_state].
    simpl in Hsa. destruct Hsa as [A B].
    split; [apply completing_app; auto|apply in_app_iff; auto].
Qed.

(** *** Phase-1 jobs in flight *)

Lemma openJobs_app tr evs :
  openJobs (tr ++ evs) = fold_left openStep1 evs (openJobs tr).
Proof. unfold openJobs. apply fold_left_app. Qed.

Lemma fold_inert evs acc :
  (forall e, In e evs -> inert e) -> fold_left openStep1 evs acc = acc.
Proof.
  revert acc. induction evs as [|e evs IH]; simpl; intros acc H; auto.
  rewrite (H e) by auto. apply IH. auto.
Qed.

Lemma inert_top e : inert (Top e).
Proof. intros acc. reflexivity. Qed.

Lemma inert_step2 k e : inert (Item SubmitStep2Jobs k e).
Proof. intros acc. reflexivity. Qed.

Lemma flying_single k t (it : Iteration StateName) :
  index it = k ->
  map (@index StateName) (filter awaitsJob [setThread k t it])
  = if awaitsJob {| index := k; item := item it; thread := t |} then [k] else [].
Proof.
  intros <-. unfold setThread, isIter. rewrite Nat.eqb_refl. simpl.
  destruct (awaitsJob _); reflexivity.
Qed.

Lemma single_inflight (l : list (Iteration StateName)) k it :
  List.length l <= 1 -> find (isIter k) l = Some it -> l = [it] /\ index it = k.
Proof.
  intros Hl Hf. apply find_isIter in Hf. destruct Hf as [Hin Hk].
  destruct l as [|x [|y l]]; simpl in *.
  - contradiction.
  - destruct Hin as [->|[]]. auto.
  - lia.
Qed.

Lemma awaitsJob_waiting k v s d a :
  awaitsJob {| index := k; item := v; thread := Waiting s d a |} = true
  <-> isBatch s.
Proof.
  unfold awaitsJob, isBatch. simpl. destruct s; split; intros H;
    try discriminate; auto; destruct H; discriminate.
Qed.

Lemma remove_single k : remove Nat.eq_dec k [k] = [].
Proof. simpl. destruct (Nat.eq_dec k k); [reflexivity|contradiction]. Qed.

(** The effect of one move of the only iteration of the phase-1 Map state
    on the jobs in flight. *)
Lemma Moves_flying k v t o evs :
  Moves props t o evs ->
  fold_left openStep1 (map (Item SubmitStep1Jobs k) evs)
    (if awaitsJob {| index := k; item := v; thread := t |} then [k] else [])
  = match o with
    | Continue t' =>
        if awaitsJob {| index := k; item := v; thread := t' |} then [k] else []
    | _ => []
    end.
Proof.
  intros H. inversion H; subst; simpl;
    repeat match goal with
           | Hb : isBatch ?s |- context [awaitsJob {| index := _; item := _; thread := Waiting ?s ?d ?a |}] =>
               rewrite (proj2 (awaitsJob_waiting k v s d a) Hb)
           | Hl : isLambda ?s |- context [awaitsJob {| index := _; item := _; thread := Waiting ?s ?d ?a |}] =>
               let E := fresh in
               destruct (awaitsJob {| index := k; item := v; thread := Waiting s d a |}) eqn:E;
               [apply awaitsJob_waiting in E; exfalso; eapply isLambda_not_batch; eauto|]
           end;
    simpl; try reflexivity;
    destruct (Nat.eq_dec k k); try contradiction; reflexivity.
Qed.

Lemma flying_one d n p (it : Iteration StateName) dn :
  flying (AtMap SubmitStep1Jobs d n p [it] dn)
  = if awaitsJob it then [index it] else [].
Proof. simpl. destruct (awaitsJob it); reflexivity. Qed.

Lemma Reach_openJobs input c tr :
  Reach props input c tr -> openJobs tr = flying c.
Proof.
  revert c tr.
  apply (Reach_Trans_ind input (fun c tr => openJobs tr = flying c)).
  - reflexivity.
  - intros c tr evs c' Hr Hs IH H. rewrite openJobs_app, IH. clear IH Hr.
    destruct H; simpl in Hs;
      try (simpl; first [reflexivity | destruct m; reflexivity]).
    + (* dispatch *)
      simpl. destruct H as [-> | ->]; simpl; [|reflexivity].
      rewrite filter_app, map_app. simpl. rewrite app_nil_r. reflexivity.
    + (* dispatch fails: nothing is in flight in the phase-1 Map *)
      destruct H as [-> | ->]; simpl in *; [|reflexivity].
      destruct inflight; simpl in *; [reflexivity|lia].
    + (* an iteration goes on *)
      destruct H as [-> | ->].
      * destruct Hs as (_ & _ & Hl & _).
        destruct (single_inflight _ _ _ Hl H0) as [-> Hk].
        change (flying (AtMap SubmitStep1Jobs d n pending
                              (map (setThread k t') [it]) done))
          with (map (@index StateName) (filter awaitsJob [setThread k t' it])).
        rewrite (flying_single k t' it Hk), flying_one.
        pose proof (Moves_flying k (item it) _ _ _ H1) as F.
        simpl in F. rewrite <- F. subst k. destruct it; simpl. reflexivity.
      * rewrite fold_inert; [reflexivity|]. intros e Hin.
        apply in_map_iff in Hin. destruct Hin as (x & <- & _). apply inert_step2.
    + (* an iteration is done *)
      destruct H as [-> | ->].
      * destruct Hs as (_ & _ & Hl & _).
        destruct (single_inflight _ _ _ Hl H0) as [-> Hk]. rewrite flying_one.
        simpl. unfold isIter at 1. rewrite Hk, Nat.eqb_refl. simpl.
        pose proof (Moves_flying k (item it) _ _ _ H1) as F. simpl in F.
        rewrite map_app, fold_left_app.
        try rewrite Hk.
        change (awaitsJob it)
          with (awaitsJob {| index := k; item := item it; thread := thread it |}).
        rewrite F. reflexivity.
      * rewrite fold_inert; [reflexivity|]. intros e Hin.
        apply in_map_iff in Hin. destruct Hin as (x & <- & _). apply inert_step2.
    + (* an iteration fails, caught *)
      destruct H as [-> | ->].
      * destruct Hs as (_ & _ & Hl & _).
        destruct (single_inflight _ _ _ Hl H0) as [-> Hk]. rewrite flying_one.
        pose proof (Moves_flying k (item it) _ _ _ H1) as F. simpl in F.
        rewrite fold_left_app, map_app, fold_left_app.
        try rewrite Hk.
        change (awaitsJob it)
          with (awaitsJob {| index := k; item := item it; thread := thread it |}).
        rewrite F. reflexivity.
      * rewrite fold_left_app.
        rewrite (fold_inert (map (Item SubmitStep2Jobs k) _)); [reflexivity|].
        intros x Hin.
        apply in_map_iff in Hin. destruct Hin as (y & <- & _). apply inert_step2.
    + (* an iteration fails, not caught *)
      destruct H as [-> | ->].
      * destruct Hs as (_ & _ & Hl & _).
        destruct (single_inflight _ _ _ Hl H0) as [-> Hk]. rewrite flying_one.
        pose proof (Moves_flying k (item it) _ _ _ H1) as F. simpl in F.
        rewrite fold_left_app, map_app, fold_left_app.
        try rewrite Hk.
        change (awaitsJob it)
          with (awaitsJob {| index := k; item := item it; thread := thread it |}).
        rewrite F. reflexivity.
      * rewrite fold_left_app.
        rewrite (fold_inert (map (Item SubmitStep2Jobs k) _)); [reflexivity|].
        intros x Hin.
        apply in_map_iff in Hin. destruct Hin as (y & <- & _). apply inert_step2.
Qed.

Lemma flying_short c : Shaped c -> List.length (flying c) <= 1.
Proof.
  destruct c as [t|m d n p i dn|st]; simpl; try lia.
  intros (_ & _ & Hl & _). destruct m; simpl; try lia.
  rewrite length_map. etransitivity; [apply filter_length_le|exact Hl].
Qed.

Lemma Moves_submission t o evs s n cmd :
  Moves props t o evs -> In (JobSubmitted s n cmd) evs ->
  exists d, t = Pending s d /\ evs = [StateEntered s; JobSubmitted s n cmd].
Proof.
  intros H Hin. inversion H; subst; simpl in Hin;
    try (exfalso; intuition discriminate; fail).
  destruct Hin as [Hin|[Hin|[]]]; try discriminate.
  injection Hin as <- <- <-. eauto.
Qed.

(** A job is submitted in one way only: an iteration enters its Batch task. *)
Lemma submission_shape c evs c' l e r :
  Trans props c evs c' -> evs = l ++ e :: r -> isSubmission e ->
  exists m d n p i dn k it s d0 j cmd,
    c = AtMap m d n p i dn /\ isMap m /\ find (isIter k) i = Some it /\
    thread it = Pending s d0 /\ l = [Item m k (StateEntered s)] /\
    e = Item m k (JobSubmitted s j cmd).
Proof.
  intros H E He.
  assert (Hin : In e evs) by (rewrite E; apply in_app_iff; simpl; auto).
  destruct e as [x|m0 k0 x| |]; simpl in He; try contradiction.
  destruct x; try contradiction.
  destruct H; simpl in Hin; try (exfalso; intuition discriminate; fail).
  - (* an iteration goes on: it has just entered its Batch task *)
    apply item_in_items in Hin. destruct Hin as (-> & -> & Hin).
    destruct (Moves_submission _ _ _ _ _ _ H1 Hin) as (d0 & Ht & ->).
    simpl in E. destruct l as [|a [|b l]]; simpl in E; try discriminate;
      [|exfalso; injection E; intros E' _ _; destruct l; discriminate].
    injection E; intros; subst. eauto 20.
  - exfalso. apply item_in_items in Hin. destruct Hin as (_ & _ & Hin).
    apply in_app_iff in Hin. destruct Hin as [Hin|Hin];
      [|simpl in Hin; intuition discriminate].
    destruct (Moves_submission _ _ _ _ _ _ H1 Hin) as (d0 & Ht & ->).
    rewrite Ht in H1. inversion H1.
  - exfalso. apply in_app_iff in Hin. destruct Hin as [Hin|Hin];
      [|simpl in Hin; intuition discriminate].
    apply item_in_items in Hin. destruct Hin as (_ & _ & Hin).
    apply in_app_iff in Hin. destruct Hin as [Hin|Hin];
      [|simpl in Hin; intuition discriminate].
    destruct (Moves_submission _ _ _ _ _ _ H1 Hin) as (d0 & Ht & ->).
    rewrite Ht in H1. inversion H1.
  - exfalso. apply in_app_iff in Hin. destruct Hin as [Hin|Hin];
      [|simpl in Hin; intuition discriminate].
    apply item_in_items in Hin. destruct Hin as (_ & _ & Hin).
    apply in_app_iff in Hin. destruct Hin as [Hin|Hin];
      [|simpl in Hin; intuition discriminate].
    destruct (Moves_submission _ _ _ _ _ _ H1 Hin) as (d0 & Ht & ->).
    rewrite Ht in H1. inversion H1.
Qed.

Lemma submission_step c evs c' l e r :
  Shaped c -> Trans props c evs c' -> evs = l ++ e :: r -> isSubmission e ->
  fold_left openStep1 l (flying c) = [].
Proof.
  intros Hs H E He.
  destruct (submission_shape _ _ _ _ _ _ H E He)
    as (m & d & n & p & i & dn & k & it & s & d0 & j & cmd &
        -> & Hm & Hf & Ht & -> & ->).
  simpl in Hs. destruct Hs as (_ & _ & Hl & _).
  destruct Hm as [-> | ->]; [|reflexivity].
  destruct (single_inflight _ _ _ Hl Hf) as [-> Hk]. rewrite flying_one.
  unfold awaitsJob. rewrite Ht. reflexivity.
Qed.

Lemma open_closed mid : forall acc k,
  In k acc -> fold_left openStep1 mid acc = [] ->
  exists x, In (Item SubmitStep1Jobs k x) mid /\ isJobEnd x.
Proof.
  induction mid as [|e mid IH]; simpl; intros acc k Hk H.
  - subst acc. destruct Hk.
  - destruct (in_dec Nat.eq_dec k (openStep1 acc e)) as [Hin|Hout].
    + destruct (IH _ _ Hin H) as (x & Hx & He). eauto.
    + exists (match e with Item _ _ x => x | _ => IterationStarted end).
      destruct e as [x|m k' x| |]; simpl in Hout; try contradiction.
      destruct m; try contradiction;
        destruct x; try contradiction;
        try (exfalso; apply Hout; right; exact Hk);
        (destruct (Nat.eq_dec k k') as [->|Hne];
         [split; [left; reflexivity|exact I]
         |exfalso; apply Hout; apply in_in_remove; auto]).
Qed.

(** C7. The phase-1 Map state has concurrency 1.  In every execution it
    holds at most one iteration, at most one phase-1 job is in flight, no
    job of either phase is submitted while a phase-1 job is in flight, and
    so between the submission of a phase-1 job and any later submission
    that job has ended. *)
Theorem step1_is_serial :
  (exists p, construct props SubmitStep1Jobs = Map p ParseStep1Command /\
             maxConcurrency p = 1) /\
  forall input acts c tr,
    run M input acts = Some (c, tr) ->
    (forall d n p inflight dn,
       c = AtMap SubmitStep1Jobs d n p inflight dn ->
       List.length inflight <= 1) /\
    List.length (openJobs tr) <= 1 /\
    (forall tr1 e tr2,
       tr = tr1 ++ e :: tr2 -> isSubmission e -> openJobs tr1 = []) /\
    (forall tr1 k s n cmd mid e tr2,
       tr = tr1 ++ Item SubmitStep1Jobs k (JobSubmitted s n cmd) :: mid
               ++ e :: tr2 ->
       isSubmission e ->
       exists x, In (Item SubmitStep1Jobs k x) mid /\ isJobEnd x).
Proof.
  split; [eexists; split; reflexivity|].
  intros input acts c tr H. apply run_Reach in H.
  assert (F3 : forall tr1 e tr2,
             tr = tr1 ++ e :: tr2 -> isSubmission e -> openJobs tr1 = []).
  { intros tr1 e tr2 E He.
    refine (emitted input isSubmission (fun _ tr1 => openJobs tr1 = [])
              _ c tr H _ _ _ E He).
    clear. intros c tr evs c' l e r Hr Hs HT E He.
    rewrite openJobs_app, (Reach_openJobs _ _ _ Hr).
    eapply submission_step; eauto. }
  split; [|split; [|split]].
  - intros d n p inflight dn ->. pose proof (Reach_Shaped _ _ _ H) as Hs.
    simpl in Hs. tauto.
  - rewrite (Reach_openJobs _ _ _ H). apply flying_short.
    eapply Reach_Shaped; eauto.
  - exact F3.
  - intros tr1 k s n cmd mid e tr2 E He.
    assert (E' : tr = (tr1 ++ Item SubmitStep1Jobs k (JobSubmitted s n cmd) :: mid)
                      ++ e :: tr2)
      by (rewrite E, <- app_assoc; reflexivity).
    pose proof (F3 _ _ _ E' He) as Ho.
    rewrite openJobs_app in Ho. simpl in Ho.
    eapply open_closed; [|exact Ho]. left. reflexivity.
Qed.

(** *** One submission per item, a bounded number of attempts *)






(** C8 as the code has it.  The phase-2 Map state has concurrency 50,
    whatever the props of the stack.  In every execution it holds at most
    50 iterations; with 50 in flight the state machine itself starts no
    further item; with fewer in flight and an item pending it can start
    one. *)
Theorem step2_ceiling_is_the_maps :
  (exists p, construct props SubmitStep2Jobs = Map p ParseStep2Command /\
             maxConcurrency p = 50) /\
  forall input acts c tr,
    run M input acts = Some (c, tr) ->
    forall d n p inflight dn,
      c = AtMap SubmitStep2Jobs d n p inflight dn ->
      List.length inflight <= 50 /\
      (List.length inflight = 50 -> forall now, step M now c Dispatch = None) /\
      (List.length inflight < 50 -> p <> [] ->
       forall now, step M now c Dispatch <> None).
Proof.
  split; [eexists; split; reflexivity|].
  intros input acts c tr H d n p inflight dn ->. apply run_Reach in H.
  pose proof (Reach_Shaped _ _ _ H) as Hs. simpl in Hs.
  destruct Hs as (_ & _ & Hl & _). simpl in Hl. split; [exact Hl|split].
  - intros E now. simpl. destruct p as [|v rest]; [reflexivity|].
    unfold hasRoom. simpl. rewrite E. reflexivity.
  - intros E Hp now. simpl. destruct p as [|v rest]; [contradiction|].
    unfold hasRoom. simpl.
    destruct (Nat.ltb_spec (List.length inflight) 50); [|lia].
    destruct (itemInput _ _ _ _ _); discriminate.
Qed.

End Executions.


Import Scenario.

Lemma step2_waits_for_step1_witness :
  exists c tr,
    run machine JNull step1Fails = Some (c, tr) /\
    In (Item SubmitStep1Jobs 0 (JobFailed SubmitStep1Job)) tr /\
    untouched SubmitStep2Jobs tr /\ settlesFailed props c.
Proof.
  eexists. eexists. split; [vm_compute; reflexivity|]. split.
  - repeat (first [left; reflexivity | right]).
  - apply (step2_waits_for_step1 props JNull step1Fails);
      [vm_compute; reflexivity|].
    exists 0, SubmitStep1Job. repeat (first [left; reflexivity | right]).
Defined.

Lemma step1_state_always_entered_witness :
  exists c tr,
    run machine JNull step2Only = Some (c, tr) /\
    In (Top (MapStarted SubmitStep1Jobs 0)) tr /\
    forall k e, ~ In (Item SubmitStep1Jobs k e) tr.
Proof.
  eexists. eexists. split; [vm_compute; reflexivity|]. split.
  - repeat (first [left; reflexivity | right]).
  - refine (proj1 (proj2 (proj2 (step1_state_always_entered props)
                                 JNull step2Only _ _ _)) _).
    + vm_compute. reflexivity.
    + repeat (first [left; reflexivity | right]).
Defined.

(** C5 as the spec has it fails: with a plan that holds no phase-1 job the
    execution still enters the phase-1 Map state, and enters it before the
    phase-2 Map state. *)
Lemma step1_state_not_skipped :
  ~ (forall step2 rest c tr,
       run machine JNull (prologue (plan [] step2) ++ rest) = Some (c, tr) ->
       ~ In (Top (StateEntered SubmitStep1Jobs)) tr).
Proof.
  intros H.
  apply (H [job "chr1" 2]
           ([MapDone; Main Enter; Dispatch] ++ oneJob 0 ++ [MapDone] ++ epilogue)
           (Ended SUCCEEDED)
           (match run machine JNull step2Only with
            | Some (_, tr) => tr
            | None => []
            end)).
  - vm_compute. reflexivity.
  - vm_compute. repeat (first [left; reflexivity | right]).
Qed.

Lemma succeeds_iff_handler_succeeds_witness :
  exists c tr,
    run machine JNull happy = Some (c, tr) /\
    c = Ended SUCCEEDED /\
    allSucceeded SubmitStep1Jobs tr /\ allSucceeded SubmitStep2Jobs tr /\
    flawless tr.
Proof.
  eexists. eexists. split; [vm_compute; reflexivity|]. split; [reflexivity|].
  refine (proj1 (proj2 (succeeds_iff_handler_succeeds props JNull happy _ _ _)) _).
  - vm_compute. reflexivity.
  - repeat (first [left; reflexivity | right]).
Defined.

(** C6 as the spec has it fails: every phase-2 job that was submitted
    succeeded, and the execution ended FAILED, because the success handler
    threw. *)
Lemma all_jobs_succeed_yet_failed :
  ~ (forall acts st tr,
       run machine JNull acts = Some (Ended st, tr) ->
       (st = SUCCEEDED <->
        forall k s n cmd,
          In (Item SubmitStep2Jobs k (JobSubmitted s n cmd)) tr ->
          In (Item SubmitStep2Jobs k (JobSucceeded s)) tr)).
Proof.
  intros H.
  specialize (H successHandlerThrows
                (FAILED "ClientError" (JStr "table not found"))
                (match run machine JNull successHandlerThrows with
                 | Some (_, tr) => tr
                 | None => []
                 end)).
  assert (E : FAILED "ClientError" (JStr "table not found") = SUCCEEDED);
    [|discriminate].
  apply H; [vm_compute; reflexivity|].
  vm_compute. intros k s n cmd Hin.
  repeat (destruct Hin as [Hin|Hin]; try discriminate); try contradiction.
  injection Hin as <- <- _ _.
  repeat (first [left; reflexivity | right]).
Qed.

Lemma step1_is_serial_witness :
  exists c tr,
    run machine JNull happy = Some (c, tr) /\
    List.length (openJobs tr) <= 1 /\
    forall tr1 e tr2,
      tr = tr1 ++ e :: tr2 -> isSubmission e -> openJobs tr1 = [].
Proof.
  eexists. eexists. split; [vm_compute; reflexivity|].
  refine ((fun H => conj (proj1 (proj2 H)) (proj1 (proj2 (proj2 H))))
            (proj2 (step1_is_serial props) JNull happy _ _ _)).
  vm_compute. reflexivity.
Defined.






Lemma step2_ceiling_is_the_maps_witness :
  exists d n p inflight dn tr,
    run machine JNull (crowd 50)
    = Some (AtMap SubmitStep2Jobs d n p inflight dn, tr) /\
    List.length inflight = 50 /\ p <> [] /\
    forall now,
      step machine now (AtMap SubmitStep2Jobs d n p inflight dn) Dispatch = None.
Proof.
  do 6 eexists. split; [vm_compute; reflexivity|].
  split; [reflexivity|]. split; [discriminate|].
  refine (proj1 (proj2 (proj2 (step2_ceiling_is_the_maps props)
                          JNull (crowd 50) _ _ _ _ _ _ _ _ eq_refl)) _).
  - vm_compute. reflexivity.
  - reflexivity.
Defined.

(** C8 as the spec has it fails: the ceiling is not left to the job queue.
    With fifty iterations in flight and an item still pending, the state
    machine itself does not start the item. *)
Lemma the_map_holds_the_ceiling :
  ~ (forall acts c tr now,
       run machine JNull acts = Some (c, tr) ->
       match c with
       | AtMap SubmitStep2Jobs _ _ (_ :: _) _ _ =>
           step machine now c Dispatch <> None
       | _ => True
       end).
Proof.
  intros H.
  specialize (H (crowd 50)
                (match run machine JNull (crowd 50) with
                 | Some (c, _) => c
                 | None => Ended SUCCEEDED
                 end)
                (match run machine JNull (crowd 50) with
                 | Some (_, tr) => tr
                 | None => []
                 end)
                JNull ltac:(vm_compute; reflexivity)).
  vm_compute in H. apply H. reflexivity.
Qed.

(** *** The manifest trigger *)

Import Trigger.

Lemma endsWith_app suf p : endsWith suf (p ++ suf) = true.
Proof.
  induction p as [|ch p IH].
  - destruct suf; cbn -[String.eqb]; rewrite String.eqb_refl; reflexivity.
  - cbn -[String.eqb]. cbn -[String.eqb] in IH. rewrite IH. apply orb_true_r.
Qed.

Lemma endsWith_spec suf s :
  endsWith suf s = true <-> exists p, s = (p ++ suf)%string.
Proof.
  split.
  - induction s as [|ch s IH]; cbn -[String.eqb]; intros H.
    + rewrite orb_false_r in H. apply String.eqb_eq in H. subst.
      exists EmptyString. reflexivity.
    + apply orb_true_iff in H. destruct H as [H|H].
      * apply String.eqb_eq in H. exists EmptyString. simpl. exact H.
      * destruct (IH H) as (p & ->). exists (String ch p). reflexivity.
  - intros (p & ->). apply endsWith_app.
Qed.

(** C10. The rule on the data bucket matches exactly the Object Created
    events of S3 for that bucket whose key ends in [.json]; a matched event
    goes to the topic, from there to the queue, from there to the manifest
    processor.  So every JSON upload to the data bucket reaches that
    function, whether or not it is named like a manifest. *)
Theorem every_json_upload_triggers (dataBucketName : string) :
  (forall e,
      matchesPattern (eventPattern (manifestRule dataBucketName)) e = true <->
      source e = "aws.s3" /\ detailType e = "Object Created" /\
      bucketName e = dataBucketName /\
      exists p, objectKey e = (p ++ ".json")%string) /\
  (forall p,
      delivered (manifestRule dataBucketName)
                {| source := "aws.s3"; detailType := "Object Created";
                   bucketName := dataBucketName;
                   objectKey := (p ++ ".json")%string |}
      = [Lambda manifestProcessorFunction]) /\
  (forall e,
      matchesPattern (eventPattern (manifestRule dataBucketName)) e = false ->
      delivered (manifestRule dataBucketName) e = []) /\
  (endsWith ".manifest.json" "results/summary.json" = false /\
   delivered (manifestRule dataBucketName)
             {| source := "aws.s3"; detailType := "Object Created";
                bucketName := dataBucketName;
                objectKey := "results/summary.json" |}
   = [Lambda manifestProcessorFunction]).
Proof.
  assert (M : forall e,
      matchesPattern (eventPattern (manifestRule dataBucketName)) e = true <->
      source e = "aws.s3" /\ detailType e = "Object Created" /\
      bucketName e = dataBucketName /\
      exists p, objectKey e = (p ++ ".json")%string).
  { intros e. unfold matchesPattern, matchAny. simpl.
    rewrite !orb_false_r, !andb_true_iff, !String.eqb_eq.
    rewrite (endsWith_spec ".json"). tauto. }
  split; [exact M|split; [|split; [|split]]].
  - intros p. unfold delivered.
    rewrite (proj2 (M _)); [reflexivity|]. simpl. eauto.
  - intros e H. unfold delivered. rewrite H. reflexivity.
  - reflexivity.
  - unfold delivered.
    rewrite (proj2 (M _)); [reflexivity|]. simpl.
    repeat split. exists "results/summary". reflexivity.
Qed.

Lemma every_json_upload_triggers_witness :
  matchesPattern (eventPattern (manifestRule "genomic-data"))
                 {| source := "aws.s3"; detailType := "Object Created";
                    bucketName := "genomic-data";
                    objectKey := "cohort/readme.txt" |} = false /\
  delivered (manifestRule "genomic-data")
            {| source := "aws.s3"; detailType := "Object Created";
               bucketName := "genomic-data";
               objectKey := "cohort/readme.txt" |} = [].
Proof.
  split; [reflexivity|].
  apply (proj1 (proj2 (proj2 (every_json_upload_triggers "genomic-data")))).
  reflexivity.
Defined.

(* ===================================================================== *)
(** ** Properties of the data flow, of the failures and of the length     *)
(* ===================================================================== *)

Import DataFlow.

Lemma assoc_put_same k v m : assoc k (put k v m) = Some v.
Proof.
  induction m as [|[k' v'] m IH]; simpl.
  - rewrite String.eqb_refl. reflexivity.
  - destruct (String.eqb_spec k k') as [->|Hne]; simpl.
    + rewrite String.eqb_refl. reflexivity.
    + destruct (String.eqb_spec k k'); [contradiction|exact IH].
Qed.

Lemma assoc_put_other k k' v m : k <> k' -> assoc k (put k' v m) = assoc k m.
Proof.
  intros Hne. induction m as [|[k0 v0] m IH]; simpl.
  - destruct (String.eqb_spec k k'); [contradiction|reflexivity].
  - destruct (String.eqb_spec k' k0) as [->|Hne0]; simpl.
    + destruct (String.eqb_spec k k0); [contradiction|reflexivity].
    + destruct (String.eqb_spec k k0); [reflexivity|exact IH].
Qed.

Section Flow.
Variable props : WorkflowStackProps.
Local Abbreviation M := (createGwasWorkflow props).

Lemma t_init_enter now input :
  step M now (Run (Pending InitializeWorkflow input)) (Main Enter)
  = Some (Run (Waiting InitializeWorkflow input 0),
          [Top (StateEntered InitializeWorkflow);
           Top (LambdaInvoked (workflowInitFunction props) input)]).
Proof. reflexivity. Qed.

Lemma t_init_return now input a r :
  step M now (Run (Waiting InitializeWorkflow input a)) (Main (Respond (Ok r)))
  = Some (Run (Pending CalculateBatchJobs r),
          [Top (StateSucceeded InitializeWorkflow)]).
Proof. reflexivity. Qed.

Lemma calc_enter now d :
  step M now (Run (Pending CalculateBatchJobs d)) (Main Enter)
  = Some
      match field "workflowId" d, field "s3Path" d, field "dataBucketPrefix" d,
            field2 "parameters" "inputData" d,
            field2 "parameters" "analysisParams" d,
            field2 "parameters" "outputParams" d with
      | Some w, Some s, Some p, Some i, Some a, Some o =>
          (Run (Waiting CalculateBatchJobs d 0),
           [Top (StateEntered CalculateBatchJobs);
            Top (LambdaInvoked (jobCalculatorFunction props)
                   (JObj [("workflowId", w); ("s3Path", s);
                          ("analysisSubdir", p); ("inputData", i);
                          ("analysisParams", a); ("outputParams", o)]))])
      | _, _, _, _, _, _ =>
          (Ended (FAILED "States.Runtime" (JStr "Payload")),
           [Top (StateEntered CalculateBatchJobs);
            Top (StateFailed CalculateBatchJobs "States.Runtime");
            ExecutionFailed "States.Runtime" (JStr "Payload")])
      end.
Proof.
  unfold field2. cbn.
  destruct (field "workflowId" d); cbn; [|reflexivity].
  destruct (field "s3Path" d); cbn.
  2:{ reflexivity. }
  destruct (field "dataBucketPrefix" d); cbn.
  2:{ destruct (field "parameters" d) as [x|]; [|reflexivity].
      destruct (field "inputData" x); reflexivity. }
  destruct (field "parameters" d) as [x|]; cbn; [|reflexivity].
  destruct (field "inputData" x); cbn; [|reflexivity].
  destruct (field "analysisParams" x); cbn; [|reflexivity].
  destruct (field "outputParams" x); cbn; reflexivity.
Qed.

Lemma map_enter now m d c' evs :
  isMap m -> step M now (Run (Pending m d)) (Main Enter) = Some (c', evs) ->
  (exists items,
      field3 "JobCalculation" "Payload" (itemsKey m) d = Some (JArr items) /\
      c' = AtMap m d 0 items [] [] /\
      evs = [Top (StateEntered m); Top (MapStarted m (List.length items))]) \/
  (exists ca,
      c' = Ended (FAILED "States.Runtime" ca) /\
      evs = [Top (StateEntered m); Top (StateFailed m "States.Runtime");
             ExecutionFailed "States.Runtime" ca]).
Proof.
  intros Hm H. unfold field3, field2.
  destruct Hm as [-> | ->]; cbn in H; injection H as H;
    (destruct (field "JobCalculation" d) as [x|]; cbn in H;
     [destruct (field "Payload" x) as [y|]; cbn in H;
      [destruct (field _ y) as [[]|]; cbn in H|]|]);
    pair_inv H; eauto.
Qed.

Lemma item_input now m p proc n v d :
  isMap m -> construct props m = Map p proc ->
  itemInput p now n v d
  = match field "workflowId" d with
    | Some w => option_map JObj (selected w v)
    | None => None
    end.
Proof.
  intros Hm H. unfold selected.
  destruct Hm as [-> | ->]; injection H as <- <-; cbn;
    destruct (field "jobId" v), (field "Command" v), (field "stepNumber" v),
             (field "workflowId" d); reflexivity.
Qed.

Lemma map_kind m :
  isMap m ->
  exists p, construct props m = Map p (parseOf m) /\
            maxConcurrency p = limitOf m.
Proof. intros [-> | ->]; eexists; split; reflexivity. Qed.

Lemma dispatch_step now m d n pending inflight done c' evs :
  isMap m ->
  step M now (AtMap m d n pending inflight done) Dispatch = Some (c', evs) ->
  exists v rest, pending = v :: rest /\
    ((exists w b, field "workflowId" d = Some w /\ selected w v = Some b /\
        c' = AtMap m d (S n) rest
               (inflight ++ [{| index := n; item := v;
                                thread := Pending (parseOf m) (JObj b) |}])
               done /\
        evs = [Item m n IterationStarted]) \/
     (exists ca, c' = Ended (FAILED "States.Runtime" ca) /\
        evs = [Top (StateFailed m "States.Runtime");
               ExecutionFailed "States.Runtime" ca])).
Proof.
  intros Hm H. destruct (map_kind m Hm) as (p & Ek & _).
  simpl in H. change (kind (states M m)) with (construct props m) in H.
  rewrite Ek in H. simpl in H.
  destruct pending as [|v rest]; [discriminate|]. exists v, rest. split; auto.
  destruct (hasRoom p inflight); [|discriminate].
  rewrite (item_input now m p (parseOf m) n v d Hm Ek) in H.
  destruct (field "workflowId" d) as [w|].
  - destruct (selected w v) as [b|] eqn:Hb; cbn in H.
    + pair_inv H. left. eauto 10.
    + rewrite (failed_map_fatal props m d) in H by auto. cbn in H. pair_inv H.
      right. eauto.
  - rewrite (failed_map_fatal props m d) in H by auto. cbn in H. pair_inv H.
    right. eauto.
Qed.

Lemma iter_step now m d n pending inflight done k mv c' evs :
  isMap m ->
  step M now (AtMap m d n pending inflight done) (Iter k mv) = Some (c', evs) ->
  exists it o evs0,
    find (isIter k) inflight = Some it /\
    move M (itemCtx now k (item it)) (thread it) mv = Some (o, evs0) /\
    match o with
    | Continue t' =>
        c' = AtMap m d n pending (map (setThread k t') inflight) done /\
        evs = map (Item m k) evs0
    | Complete out =>
        c' = AtMap m d n pending
               (filter (fun it' => negb (isIter k it')) inflight)
               (insertResult k out done) /\
        evs = map (Item m k) (evs0 ++ [IterationSucceeded])
    | Failure e ca =>
        (c', evs) = after (map (Item m k) (evs0 ++ [IterationFailed]))
                          (conclude (failed M m d e ca))
    end.
Proof.
  intros Hm H. destruct (map_kind m Hm) as (p & Ek & _).
  simpl in H. change (kind (states M m)) with (construct props m) in H.
  rewrite Ek in H. simpl in H.
  destruct (find (isIter k) inflight) as [it|]; [|discriminate].
  destruct (move M (itemCtx now k (item it)) (thread it) mv) as [[o evs0]|] eqn:Hmv;
    [|discriminate].
  exists it, o, evs0. split; auto. split; auto.
  destruct o as [t'|out|e ca].
  - injection H as <- <-. split; reflexivity.
  - injection H as <- <-. split; reflexivity.
  - injection H as <- <-. reflexivity.
Qed.

Lemma map_done_step now m d n pending inflight done c' evs :
  isMap m -> isObj d ->
  step M now (AtMap m d n pending inflight done) MapDone = Some (c', evs) ->
  pending = [] /\ inflight = [] /\
  exists mm k, d = JObj mm /\ In k ["Step1BatchJobs"; "Step2BatchJobs"] /\
    c' = Run (Pending (afterMap m)
                      (JObj (put k (JArr (map snd done)) mm))) /\
    evs = [Top (StateSucceeded m)].
Proof.
  intros Hm Hd H. destruct d as [| | | | |mm]; try contradiction.
  destruct pending; [|destruct Hm as [-> | ->]; discriminate].
  destruct inflight; [|destruct Hm as [-> | ->]; discriminate].
  split; auto. split; auto. exists mm.
  destruct Hm as [-> | ->]; cbn in H; pair_inv H; eexists; simpl; eauto 10.
Qed.

Lemma move_data ctx m t mv o evs0 :
  isMap m -> cur t = parseOf m \/ cur t = submitOf m ->
  move M ctx t mv = Some (o, evs0) ->
  (forall f pl, In (LambdaInvoked f pl) evs0 ->
     f = commandParserFunction props /\ t = Pending (parseOf m) pl) /\
  (forall s nm cmd, In (JobSubmitted s nm cmd) evs0 ->
     exists td, t = Pending (submitOf m) td /\ field "jobId" td = Some nm) /\
  (forall t', o = Continue t' ->
     (cur t' = cur t /\ dataOf t' = dataOf t) \/
     (cur t = parseOf m /\ cur t' = submitOf m /\
      exists v mm, dataOf t = JObj mm /\
        dataOf t' = JObj (put "parsedCommand" (lambdaResult v) mm))).
Proof.
  intros Hm Hcur H.
  destruct t as [s d|s d a]; destruct mv as [|[v|e c]]; simpl in H;
    try discriminate; injection H as H; simpl in Hcur.
  - (* a state is entered *)
    destruct Hcur as [-> | ->].
    + destruct Hm as [-> | ->]; cbn in H; pair_inv H;
        (split;
         [ intros f pl [Hin|[Hin|[]]]; try discriminate;
           injection Hin as <- <-; auto
         | split;
           [ intros s0 nm cmd [Hin|[Hin|[]]]; discriminate
           | intros t' Ht; injection Ht as <-; left; auto ]]).
    + destruct Hm as [-> | ->]; unfold enterTask in H; cbn -[eval] in H;
        (destruct (eval "$.jobId" ctx d) as [nm0|] eqn:Hn;
         [destruct (eval "$.parsedCommand.Payload.jobSubmission.ContainerOverrides.Command"
                         ctx d) as [cmd0|]|]); cbn in H; pair_inv H;
        (split;
         [ intros f pl [Hin|[Hin|[]]]; discriminate
         | split;
           [ intros s0 nm cmd [Hin|[Hin|[]]]; try discriminate;
             injection Hin as <- <- <-; eexists; (split; [reflexivity|]);
             cbn in Hn; destruct (field "jobId" d); congruence
           | intros t' Ht; try discriminate; injection Ht as <-; left; auto ]]).
  - (* a function returns, a job is accepted or ends well *)
    destruct Hcur as [-> | ->]; destruct Hm as [-> | ->].
    1-2: destruct d; cbn in H; pair_inv H;
         (split;
          [ intros f pl Hin; simpl in Hin; intuition discriminate
          | split;
            [ intros s0 nm cmd0 Hin; simpl in Hin; intuition discriminate
            | intros t' Ht; try discriminate; injection Ht as <-;
              right; simpl; eauto 10 ]]).
    all: destruct a; cbn in H; pair_inv H;
         (split;
          [ intros f pl Hin; simpl in Hin; intuition discriminate
          | split;
            [ intros s0 nm cmd0 Hin; simpl in Hin; intuition discriminate
            | intros t' Ht; try discriminate; injection Ht as <-; left; auto ]]).
  - (* a function throws, a job is rejected or ends badly *)
    destruct Hcur as [-> | ->]; destruct Hm as [-> | ->].
    1-2: cbn in H; pair_inv H;
         (split;
          [ intros f pl Hin; simpl in Hin; intuition discriminate
          | split;
            [ intros s0 nm cmd0 Hin; simpl in Hin; intuition discriminate
            | intros t' Ht; discriminate ]]).
    all: destruct a; unfold respond in H; cbn -[Nat.ltb] in H;
         try destruct (_ <? _)%nat; cbn in H; pair_inv H;
         (split;
          [ intros f pl Hin; simpl in Hin; intuition discriminate
          | split;
            [ intros s0 nm cmd0 Hin; simpl in Hin; intuition discriminate
            | intros t' Ht; try discriminate; injection Ht as <-; left; auto ]]).
Qed.

Section Plan.

Variables r plan w : json.
Hypothesis Hw : field "workflowId" r = Some w.

Lemma kept_put mm k v :
  kept r plan (JObj mm) -> In k resultKeys -> k <> "JobCalculation" ->
  kept r plan (JObj (put k v mm)).
Proof.
  intros [Hc Hk] Hin Hne. split.
  - simpl in *. rewrite assoc_put_other; auto.
  - intros k' Hk'. rewrite <- (Hk k' Hk'). simpl.
    apply assoc_put_other. intros ->. contradiction.
Qed.

Lemma kept_id d : kept r plan d -> field "workflowId" d = Some w.
Proof.
  intros [_ Hk]. rewrite Hk; auto. simpl. intuition discriminate.
Qed.

Lemma kept_items m d items :
  kept r plan d ->
  field3 "JobCalculation" "Payload" (itemsKey m) d = Some (JArr items) ->
  itemsOf m plan = items.
Proof.
  intros [Hc _] H. unfold field3, field2 in H. rewrite Hc in H. simpl in H.
  unfold itemsOf. rewrite H. reflexivity.
Qed.

Lemma selected_put v b x :
  selected w v = Some b ->
  put "parsedCommand" x b = b ++ [("parsedCommand", x)].
Proof.
  unfold selected. intros H.
  destruct (field "jobId" v), (field "Command" v), (field "stepNumber" v);
    try discriminate.
  injection H as <-. reflexivity.
Qed.

Lemma selected_jobId v b x :
  selected w v = Some b ->
  (assoc "jobId" b = field "jobId" v) /\
  (assoc "jobId" (b ++ [("parsedCommand", x)]) = field "jobId" v).
Proof.
  unfold selected. intros H.
  destruct (field "jobId" v), (field "Command" v), (field "stepNumber" v);
    try discriminate.
  injection H as <-. split; reflexivity.
Qed.

Lemma skipn_head {A} n (l : list A) v rest :
  v :: rest = skipn n l -> nth_error l n = Some v /\ rest = skipn (S n) l.
Proof.
  revert l. induction n as [|n IH]; intros l H.
  - simpl in H. subst l. split; reflexivity.
  - destruct l as [|x l]; [discriminate|]. simpl in H. apply IH in H.
    simpl. exact H.
Qed.

Lemma planned_step now c a c' evs :
  Shaped c -> planned r plan w c ->
  step M now c a = Some (c', evs) ->
  planned r plan w c' /\ forall e, In e evs -> asPlanned props r plan w e.
Proof.
  intros Hs Hp H.
  destruct c as [[s d|s d k]|m d n pending inflight done|st];
    [| | |discriminate].
  - (* the main flow enters a state *)
    assert (Ha : a = Main Enter)
      by (destruct a as [[|?]|? ?| |]; try discriminate; reflexivity).
    subst a. simpl in Hp.
    destruct s; try contradiction.
    + (* the error handler *)
      apply (step_Trans props _ _ _ _ _ Hs) in H.
      inversion H; subst; try absurd_state.
      * split; [simpl; auto|]. intros e [<-|[<-|[]]]; simpl; auto.
        left. split; [reflexivity|].
        match goal with
        | P : payloadShape _ _ _ |- _ => destruct P as (w' & Ew & ->)
        end.
        rewrite (kept_id _ Hp) in Ew. injection Ew as <-. eauto.
      * split; [exact I|]. intros e [<-|[<-|[<-|[]]]]; exact I.
    + (* the Fail state *)
      cbn in H. pair_inv H. split; [exact I|].
      intros e [<-|[<-|[]]]; exact I.
    + (* the phase-1 Map *)
      apply map_enter in H; [|left; reflexivity].
      destruct H as [(items & Hi & -> & ->)|(ca & -> & ->)].
      * pose proof (kept_items _ _ _ Hp Hi) as E. split.
        -- simpl. rewrite E. split; auto. split; auto. intros it [].
        -- intros e [<-|[<-|[]]]; simpl; auto. rewrite E. reflexivity.
      * split; [exact I|]. intros e [<-|[<-|[<-|[]]]]; exact I.
    + (* the phase-2 Map *)
      apply map_enter in H; [|right; reflexivity].
      destruct H as [(items & Hi & -> & ->)|(ca & -> & ->)].
      * pose proof (kept_items _ _ _ Hp Hi) as E. split.
        -- simpl. rewrite E. split; auto. split; auto. intros it [].
        -- intros e [<-|[<-|[]]]; simpl; auto. rewrite E. reflexivity.
      * split; [exact I|]. intros e [<-|[<-|[<-|[]]]]; exact I.
    + (* the success handler *)
      apply (step_Trans props _ _ _ _ _ Hs) in H.
      inversion H; subst; try absurd_state.
      * split; [simpl; auto|]. intros e [<-|[<-|[]]]; simpl; auto.
        right. split; [reflexivity|].
        match goal with
        | P : payloadShape _ _ _ |- _ =>
            destruct P as (w' & b & t & Ew & Eb & ->)
        end.
        rewrite (kept_id _ Hp) in Ew. injection Ew as <-.
        destruct Hp as [_ Hk]. rewrite Hk in Eb
          by (simpl; intuition discriminate).
        eauto.
      * split; [exact I|]. intros e [<-|[<-|[<-|[]]]]; exact I.
    + (* the Succeed state *)
      cbn in H. pair_inv H. split; [exact I|].
      intros e [<-|[<-|[]]]; exact I.
  - (* a handler answers *)
    apply (step_Trans props _ _ _ _ _ Hs) in H. simpl in Hp.
    inversion H; subst.
    + split; [|intros x [<-|[]]; exact I].
      destruct Hp as [-> | ->];
        match goal with
        | E : nextOf _ = Some _ |- _ => simpl in E; injection E as <-
        end; exact I.
    + split; [exact I|]. intros x [<-|[<-|[]]]; exact I.
  - (* inside a Map *)
    destruct Hs as (Hm & Hd & Hlen & Hall & Hnd).
    destruct Hp as (Hk & Hpend & Hits).
    destruct a as [mv|k mv| |].
    + exfalso. destruct (map_kind m Hm) as (p & Ek & _). simpl in H.
      change (kind (states M m)) with (construct props m) in H.
      rewrite Ek in H. discriminate.
    + (* an iteration moves *)
      apply iter_step in H; auto.
      destruct H as (it & o & evs0 & Hf & Hmv & Ho).
      pose proof (find_isIter _ _ _ Hf) as [Hin Hidx].
      rewrite Forall_forall in Hall. destruct (Hall _ Hin) as [_ Hcur].
      destruct (Hits _ Hin) as (Hnth & b & Hb & Hdata).
      destruct (move_data _ _ _ _ _ _ Hm Hcur Hmv) as (Hinv & Hsub & Hcont).
      assert (Hany : forall x, asPlanned props r plan w (Item m k x) <->
                 match x with
                 | LambdaInvoked f pl =>
                     f = commandParserFunction props /\ pl = JObj b
                 | JobSubmitted s nm cmd => field "jobId" (item it) = Some nm
                 | _ => True
                 end).
      { intros x. simpl. rewrite <- Hidx. split.
        - intros (v' & b' & Hn' & Hb' & Hx).
          rewrite Hnth in Hn'. injection Hn' as <-.
          rewrite Hb in Hb'. injection Hb' as <-. exact Hx.
        - intros Hx. exists (item it), b. auto. }
      assert (Hev : forall x, In x evs0 -> asPlanned props r plan w (Item m k x)).
      { intros x Hx. apply Hany. destruct x; auto.
        - destruct (Hinv _ _ Hx) as [-> Ht]. split; auto.
          rewrite Ht in Hdata. destruct Hdata as [[_ Hd0]|[Hc0 _]].
          + simpl in Hd0. exact Hd0.
          + exfalso. simpl in Hc0. apply (parseOf_not_batch m).
            rewrite Hc0. destruct Hm as [-> | ->]; simpl; unfold isBatch; auto.
        - destruct (Hsub _ _ _ Hx) as (td & Ht & Hj).
          rewrite Ht in Hdata. simpl in Hdata.
          destruct Hdata as [[_ Hd0]|[_ (v & Hd0)]]; simpl in Hd0; subst td;
            simpl in Hj;
            [rewrite (proj1 (selected_jobId _ _ JNull Hb)) in Hj
            |rewrite (proj2 (selected_jobId _ _ _ Hb)) in Hj]; exact Hj. }
      destruct o as [t'|out|e ca].
      * destruct Ho as [-> ->]. split.
        -- simpl. split; auto. split; auto. intros it' Hin'.
           apply in_map_iff in Hin'. destruct Hin' as (it0 & <- & Hin0).
           unfold setThread. destruct (isIter k it0) eqn:Hk0; [|auto].
           assert (it0 = it) by (eapply find_unique; eauto). subst it0.
           split; [exact Hnth|]. exists b. split; [exact Hb|]. simpl.
           destruct (Hcont _ eq_refl) as [[Ec Ed]|(Ec & Ec' & v & mm & Ed & Ed')].
           ++ unfold iterData in *. rewrite Ec, Ed. exact Hdata.
           ++ right. split; auto. exists v. rewrite Ed'.
              destruct Hdata as [[_ Hd0]|[Hc0 _]].
              ** rewrite Ed in Hd0. injection Hd0 as ->.
                 rewrite (selected_put _ _ _ Hb). reflexivity.
              ** exfalso. apply (parseOf_not_batch m). rewrite <- Ec, Hc0.
                 destruct Hm as [-> | ->]; simpl; unfold isBatch; auto.
        -- intros x Hx. apply in_map_iff in Hx. destruct Hx as (y & <- & Hy).
           auto.
      * destruct Ho as [-> ->]. split.
        -- simpl. split; auto. split; auto. intros it' Hin'.
           apply filter_In in Hin'. apply Hits. tauto.
        -- intros x Hx. apply in_map_iff in Hx. destruct Hx as (y & <- & Hy).
           apply in_app_iff in Hy. destruct Hy as [Hy|[<-|[]]]; auto.
           apply Hany. exact I.
      * destruct (uncatchable e) eqn:He.
        -- rewrite (failed_map_fatal props m d e ca) in Ho by auto. cbn in Ho.
           pair_inv Ho. split; [exact I|]. intros x Hx.
           apply in_app_iff in Hx. destruct Hx as [Hx|[<-|[<-|[]]]];
             try exact I.
           apply in_map_iff in Hx. destruct Hx as (y & <- & Hy).
           apply in_app_iff in Hy. destruct Hy as [Hy|[<-|[]]]; auto.
           apply Hany. exact I.
        -- destruct (failed_map_caught props m d e ca Hm Hd He) as (d' & Hst & Hfl).
           rewrite Hfl in Ho. cbn in Ho. pair_inv Ho. split.
           ++ simpl. destruct d as [| | | | |mm]; try contradiction.
              cbn in Hst. injection Hst as <-. apply kept_put; auto.
              ** simpl. auto 10.
              ** discriminate.
           ++ intros x Hx.
              apply in_app_iff in Hx. destruct Hx as [Hx|[<-|[<-|[]]]];
                try exact I.
              apply in_map_iff in Hx. destruct Hx as (y & <- & Hy).
              apply in_app_iff in Hy. destruct Hy as [Hy|[<-|[]]]; auto.
              apply Hany. exact I.
    + (* the next item starts *)
      apply dispatch_step in H; auto.
      destruct H as (v & rest & -> & [(w' & b & Ew & Hb & -> & ->)|(ca & -> & ->)]).
      * rewrite (kept_id _ Hk) in Ew. injection Ew as <-.
        apply skipn_head in Hpend. destruct Hpend as [Hnth Hrest].
        split.
        -- simpl. split; auto. split; auto. intros it Hin.
           apply in_app_iff in Hin. destruct Hin as [Hin|[<-|[]]]; auto.
           split; [exact Hnth|]. exists b. split; [exact Hb|].
           left. split; reflexivity.
        -- intros e [<-|[]]. simpl. eauto.
      * split; [exact I|]. intros e [<-|[<-|[]]]; exact I.
    + (* every item is done *)
      apply map_done_step in H; auto.
      destruct H as (-> & -> & mm & k & -> & Hin & -> & ->). split.
      * assert (Hk' : kept r plan (JObj (put k (JArr (map snd done)) mm))).
        { apply kept_put; auto.
          - simpl in *. intuition.
          - simpl in Hin. intros ->. intuition discriminate. }
        destruct Hm as [-> | ->]; simpl; exact Hk'.
      * intros e [<-|[]]. exact I.
Qed.

Lemma step_Shaped now c a c' evs :
  Shaped c -> step M now c a = Some (c', evs) -> Shaped c'.
Proof.
  intros Hs H. eapply Trans_Shaped; eauto. eapply step_Trans; eauto.
Qed.

Lemma flows_step now c a c' evs tr :
  Shaped c -> flows props r plan w c tr ->
  step M now c a = Some (c', evs) ->
  flows props r plan w c' (tr ++ evs).
Proof.
  intros Hs (Hp & Hev & Hc & Hq) H.
  destruct (planned_step _ _ _ _ _ Hs Hp H) as [Hp' Hev'].
  pose proof (step_Trans props _ _ _ _ _ Hs H) as HT.
  pose proof (Trans_entries props _ _ _ Hs HT) as Hent.
  split; [exact Hp'|]. split.
  { intros e Hin. apply in_app_iff in Hin. destruct Hin; auto. }
  assert (Hold : In (Top (StateEntered HandleSuccess)) tr ->
                 field "resultsBucketPath" r = None -> False).
  { intros Hin Hn. destruct (Hq Hin Hn) as [(ca & ->) _]. discriminate. }
  split.
  - (* the success handler's invocation stays in the history *)
    inversion HT; subst; try exact I; simpl in Hp.
    + (* a handler is invoked *)
      destruct s; try exact I.
      match goal with
      | P : payloadShape _ _ _ |- _ => destruct P as (w' & b & t & Ew & Eb & ->)
      end.
      rewrite (kept_id _ Hp) in Ew. injection Ew as <-.
      destruct Hp as [_ Hk]. rewrite Hk in Eb by (simpl; intuition discriminate).
      exists b, t. split; auto. apply in_app_iff. right. simpl. auto.
    + (* a handler returns *)
      match goal with
      | E : nextOf _ = Some _ |- _ =>
          destruct Hp as [-> | ->]; simpl in E; injection E as <-
      end; [exact I|].
      destruct Hc as (b & t & Eb & Hin). exists b, t. split; auto.
      apply in_app_iff. auto.
    + (* the Succeed state *)
      destruct Hc as (b & t & Eb & Hin). exists b, t. split; auto.
      apply in_app_iff. auto.
    + destruct H0 as [-> | ->]; exact I.
  - (* without results path the success handler step fails *)
    intros Hin Hn. apply in_app_iff in Hin. destruct Hin as [Hin|Hin].
    { exfalso. auto. }
    pose proof (Hent _ Hin) as He.
    destruct c as [[s d|s d k]|m d n pending inflight done|st]; simpl in He;
      try contradiction; subst s.
    + inversion HT; subst; try absurd_state.
      * exfalso. simpl in Hp.
        match goal with
        | P : payloadShape _ _ _ |- _ => destruct P as (w' & b & t & Ew & Eb & ->)
        end.
        destruct Hp as [_ Hk]. rewrite Hk in Eb by (simpl; intuition discriminate).
        congruence.
      * split; [eauto|]. apply in_app_iff. right. simpl. auto.
    + exfalso. inversion HT; subst; simpl in Hin; intuition discriminate.
Qed.

Lemma exec_flows acts : forall t c tr c' tr',
  Shaped c -> flows props r plan w c tr ->
  exec M t c acts = Some (c', tr') ->
  flows props r plan w c' (tr ++ tr').
Proof.
  induction acts as [|a acts IH]; simpl; intros t c tr c' tr' Hs Hf H.
  - injection H as <- <-. rewrite app_nil_r. exact Hf.
  - destruct (step M (JNum (Z.of_nat t)) c a) as [[c1 e1]|] eqn:Hst;
      try discriminate.
    destruct (exec M (S t) c1 acts) as [[c2 e2]|] eqn:He; try discriminate.
    injection H as <- <-. rewrite app_assoc.
    eapply IH; [| |exact He].
    + eapply step_Shaped; eauto.
    + eapply flows_step; eauto.
Qed.

End Plan.

(** *** From the start of an execution to the plan *)

Lemma calc_return now r a plan :
  step M now (Run (Waiting CalculateBatchJobs r a)) (Main (Respond (Ok plan)))
  = Some
      match r with
      | JObj m0 =>
          (Run (Pending SubmitStep1Jobs
                  (JObj (put "JobCalculation" (lambdaResult plan) m0))),
           [Top (StateSucceeded CalculateBatchJobs)])
      | _ =>
          (Ended (FAILED "States.ResultPathMatchFailure"
                         (JStr "$.JobCalculation")),
           [Top (StateFailed CalculateBatchJobs "States.ResultPathMatchFailure");
            ExecutionFailed "States.ResultPathMatchFailure"
                            (JStr "$.JobCalculation")])
      end.
Proof. destruct r; reflexivity. Qed.

Lemma run_after_init input r rest c tr :
  run M input (Main Enter :: Main (Respond (Ok r)) :: rest) = Some (c, tr) ->
  exists tr',
    exec M 2 (Run (Pending CalculateBatchJobs r)) rest = Some (c, tr') /\
    tr = Top (StateEntered InitializeWorkflow)
         :: Top (LambdaInvoked (workflowInitFunction props) input)
         :: Top (StateSucceeded InitializeWorkflow) :: tr'.
Proof.
  unfold run. cbn [exec]. intros H.
  change (step M (JNum (Z.of_nat 0)) (start M input) (Main Enter))
    with (Some (Run (Waiting InitializeWorkflow input 0),
                [Top (StateEntered InitializeWorkflow);
                 Top (LambdaInvoked (workflowInitFunction props) input)])) in H.
  cbn iota in H.
  change (step M (JNum (Z.of_nat 1)) (Run (Waiting InitializeWorkflow input 0))
               (Main (Respond (Ok r))))
    with (Some (Run (Pending CalculateBatchJobs r),
                [Top (StateSucceeded InitializeWorkflow)])) in H.
  cbn iota in H.
  destruct (exec M 2 (Run (Pending CalculateBatchJobs r)) rest) as [[c2 e2]|];
    [|discriminate].
  injection H as <- <-. eexists. split; reflexivity.
Qed.

Lemma calc_enter_cases now r c1 e1 :
  step M now (Run (Pending CalculateBatchJobs r)) (Main Enter) = Some (c1, e1) ->
  (exists ca, c1 = Ended (FAILED "States.Runtime" ca) /\
     e1 = [Top (StateEntered CalculateBatchJobs);
           Top (StateFailed CalculateBatchJobs "States.Runtime");
           ExecutionFailed "States.Runtime" ca]) \/
  (exists w pl, field "workflowId" r = Some w /\ field "workflowId" pl = Some w /\
     c1 = Run (Waiting CalculateBatchJobs r 0) /\
     e1 = [Top (StateEntered CalculateBatchJobs);
           Top (LambdaInvoked (jobCalculatorFunction props) pl)]).
Proof.
  rewrite calc_enter. intros H. injection H as H.
  destruct (field "workflowId" r) as [w|]; [|pair_inv H; eauto].
  destruct (field "s3Path" r); [|pair_inv H; eauto].
  destruct (field "dataBucketPrefix" r); [|pair_inv H; eauto].
  destruct (field2 "parameters" "inputData" r); [|pair_inv H; eauto].
  destruct (field2 "parameters" "analysisParams" r); [|pair_inv H; eauto].
  destruct (field2 "parameters" "outputParams" r); pair_inv H; eauto.
  right. eexists. eexists. split; [reflexivity|]. split; [|eauto]. reflexivity.
Qed.

(** The ways an execution can go from the job calculation on: it stays
    within that step, or the job calculator returns a plan. *)
Lemma after_init t r rest c tr :
  exec M t (Run (Pending CalculateBatchJobs r)) rest = Some (c, tr) ->
  (c <> Ended SUCCEEDED /\ forall e, In e tr -> calculating props r e) \/
  (exists w pl plan m0 rest' tr',
      field "workflowId" r = Some w /\ field "workflowId" pl = Some w /\
      r = JObj m0 /\
      rest = Main Enter :: Main (Respond (Ok plan)) :: rest' /\
      exec M (S (S t))
           (Run (Pending SubmitStep1Jobs
                   (JObj (put "JobCalculation" (lambdaResult plan) m0))))
           rest' = Some (c, tr') /\
      tr = Top (StateEntered CalculateBatchJobs)
           :: Top (LambdaInvoked (jobCalculatorFunction props) pl)
           :: Top (StateSucceeded CalculateBatchJobs) :: tr').
Proof.
  intros H. destruct rest as [|a rest].
  { injection H as <- <-. left. split; [discriminate|]. intros e []. }
  cbn [exec] in H.
  destruct (step M (JNum (Z.of_nat t)) (Run (Pending CalculateBatchJobs r)) a)
    as [[c1 e1]|] eqn:Hs; [|discriminate].
  assert (a = Main Enter)
    by (destruct a as [[|?]|? ?| |]; try discriminate; reflexivity).
  subst a. apply calc_enter_cases in Hs.
  destruct Hs as [(ca & -> & ->)|(w & pl & Ew & Epl & -> & ->)].
  { destruct (exec M (S t) _ rest) as [[c2 e2]|] eqn:He; [|discriminate].
    apply (exec_ended props) in He. destruct He as (-> & -> & ->).
    injection H as <- <-. left. split; [discriminate|].
    intros e [<-|[<-|[<-|[]]]]; simpl; auto. }
  destruct rest as [|a rest].
  { injection H as <- <-. left. split; [discriminate|].
    intros e [<-|[<-|[]]]; simpl; eauto. }
  cbn [exec] in H.
  destruct (step M (JNum (Z.of_nat (S t))) (Run (Waiting CalculateBatchJobs r 0)) a)
    as [[c1 e1]|] eqn:Hs; [|discriminate].
  destruct a as [[|[plan|e ca]]|? ?| |]; try discriminate.
  - rewrite calc_return in Hs.
    destruct r as [| | | | |m0]; try discriminate.
    pair_inv Hs.
    destruct (exec M (S (S t)) _ rest) as [[c2 e2]|] eqn:He; [|discriminate].
    injection H as <- <-. right. exists w, pl, plan, m0, rest, e2. auto 10.
  - cbn in Hs. pair_inv Hs.
    destruct (exec M (S (S t)) _ rest) as [[c2 e2]|] eqn:He; [|discriminate].
    apply (exec_ended props) in He. destruct He as (-> & -> & ->).
    injection H as <- <-. left. split; [discriminate|].
    intros x [<-|[<-|[<-|[<-|[]]]]]; simpl; eauto.
Qed.

Lemma planned_start r plan m0 w :
  r = JObj m0 -> field "workflowId" r = Some w ->
  flows props r plan w
        (Run (Pending SubmitStep1Jobs
                (JObj (put "JobCalculation" (lambdaResult plan) m0)))) [].
Proof.
  intros -> Hw. split; [|split; [|split]].
  - simpl. split.
    + apply assoc_put_same.
    + intros k Hk. apply assoc_put_other. intros ->. apply Hk. simpl. auto.
  - intros e [].
  - exact I.
  - intros [].
Qed.

Lemma selected_id w v b : selected w v = Some b -> assoc "workflowId" b = Some w.
Proof.
  unfold selected. intros H.
  destruct (field "jobId" v), (field "Command" v), (field "stepNumber" v);
    try discriminate.
  injection H as <-. reflexivity.
Qed.

Lemma run_flows input r plan rest c tr :
  run M input (Main Enter :: Main (Respond (Ok r)) :: Main Enter
               :: Main (Respond (Ok plan)) :: rest) = Some (c, tr) ->
  exists w pl tr',
    field "workflowId" r = Some w /\ field "workflowId" pl = Some w /\
    flows props r plan w c tr' /\
    tr = [Top (StateEntered InitializeWorkflow);
          Top (LambdaInvoked (workflowInitFunction props) input);
          Top (StateSucceeded InitializeWorkflow);
          Top (StateEntered CalculateBatchJobs);
          Top (LambdaInvoked (jobCalculatorFunction props) pl);
          Top (StateSucceeded CalculateBatchJobs)] ++ tr'.
Proof.
  intros H. apply run_after_init in H. destruct H as (tr1 & H & ->).
  cbn [exec] in H.
  destruct (step M (JNum (Z.of_nat 2)) (Run (Pending CalculateBatchJobs r))
                 (Main Enter)) as [[c1 e1]|] eqn:Hs; [|discriminate].
  apply calc_enter_cases in Hs.
  destruct Hs as [(ca & -> & ->)|(w & pl & Ew & Epl & -> & ->)];
    [discriminate|].
  rewrite calc_return in H.
  destruct r as [| | | | |m0]; try discriminate.
  destruct (exec M 4 _ rest) as [[c2 e2]|] eqn:He; [|discriminate].
  injection H as <- <-.
  exists w, pl, e2. split; auto. split; auto. split; [|reflexivity].
  change e2 with ([] ++ e2).
  eapply (exec_flows (JObj m0) plan w Ew rest 4); [| |exact He].
  - simpl. unfold isMap. auto.
  - apply planned_start; auto.
Qed.

(** X1. The k-th iteration of a Map state handles the k-th job of the
    plan. *)
Theorem jobs_follow_the_plan input r plan rest c tr :
  run M input (Main Enter :: Main (Respond (Ok r)) :: Main Enter
               :: Main (Respond (Ok plan)) :: rest) = Some (c, tr) ->
  exists w, field "workflowId" r = Some w /\
  forall m k,
    (forall n, In (Top (MapStarted m n)) tr -> n = List.length (itemsOf m plan)) /\
    (forall x, In (Item m k x) tr ->
       exists v j cmd sn,
         nth_error (itemsOf m plan) k = Some v /\
         field "jobId" v = Some j /\ field "Command" v = Some cmd /\
         field "stepNumber" v = Some sn /\
         (forall f pl, x = LambdaInvoked f pl ->
            f = commandParserFunction props /\
            pl = JObj [("jobId", j); ("Command", cmd); ("stepNumber", sn);
                       ("workflowId", w)]) /\
         (forall s nm c0, x = JobSubmitted s nm c0 -> nm = j)).
Proof.
  intros H. apply run_flows in H.
  destruct H as (w & pl0 & tr' & Ew & _ & (_ & Hev & _) & ->).
  exists w. split; [exact Ew|]. intros m k. split.
  - intros n Hn. apply in_app_iff in Hn. destruct Hn as [Hn|Hn].
    + simpl in Hn. repeat (destruct Hn as [Hn|Hn]; [discriminate|]).
      contradiction.
    + apply (Hev _ Hn).
  - intros x Hi.
    assert (Hi' : In (Item m k x) tr').
    { apply in_app_iff in Hi. destruct Hi as [Hi|Hi]; auto.
      simpl in Hi. intuition discriminate. }
    destruct (Hev _ Hi') as (v & b & Hnth & Hb & Hx).
    unfold selected in Hb.
    destruct (field "jobId" v) as [j|] eqn:Ej; [|discriminate].
    destruct (field "Command" v) as [cmd|] eqn:Ec; [|discriminate].
    destruct (field "stepNumber" v) as [sn|] eqn:En; [|discriminate].
    injection Hb as <-. exists v, j, cmd, sn.
    split; auto. split; auto. split; auto. split; auto. split.
    + intros f pl ->. exact Hx.
    + intros s nm c0 ->. congruence.
Qed.

(** X2. Every function invoked after the init function is given the
    workflow id the init function returned. *)
Theorem workflow_id_is_threaded input r rest c tr :
  run M input (Main Enter :: Main (Respond (Ok r)) :: rest) = Some (c, tr) ->
  exists tr',
    tr = Top (StateEntered InitializeWorkflow)
         :: Top (LambdaInvoked (workflowInitFunction props) input) :: tr' /\
    forall f pl,
      In (Top (LambdaInvoked f pl)) tr' \/
      (exists m k, In (Item m k (LambdaInvoked f pl)) tr') ->
      exists w, field "workflowId" r = Some w /\ field "workflowId" pl = Some w.
Proof.
  intros H. apply run_after_init in H. destruct H as (tr1 & H & ->).
  eexists. split; [reflexivity|]. intros f pl Hin.
  assert (Hin1 : In (Top (LambdaInvoked f pl)) tr1 \/
                 (exists m k, In (Item m k (LambdaInvoked f pl)) tr1)).
  { destruct Hin as [[Hin|Hin]|(m & k & [Hin|Hin])]; try discriminate; eauto. }
  clear Hin. apply after_init in H.
  destruct H as [[_ H]|(w & pl0 & plan & m0 & rest' & tr' & Ew & Epl & Er & _ & H & ->)].
  - destruct Hin1 as [Hin|(m & k & Hin)]; apply H in Hin; simpl in Hin.
    + tauto.
    + contradiction.
  - exists w. split; [exact Ew|].
    assert (Hf : flows props r plan w c ([] ++ tr')).
    { eapply (exec_flows r plan w Ew rest'); [| |exact H].
      - simpl. unfold isMap. auto.
      - apply planned_start; auto. }
    destruct Hf as (_ & Hev & _). simpl in Hev.
    destruct Hin1 as [[Hin|[Hin|[Hin|Hin]]]|(m & k & [Hin|[Hin|[Hin|Hin]]])];
      try discriminate.
    + injection Hin as <- <-. exact Epl.
    + apply Hev in Hin. simpl in Hin.
      destruct Hin as [(_ & fj & ->)|(_ & b & t & _ & ->)]; reflexivity.
    + apply Hev in Hin. simpl in Hin.
      destruct Hin as (v & b & _ & Hb & _ & ->). simpl.
      eapply selected_id; eauto.
Qed.

(** X3. An execution succeeds only if the init function returned a results
    path, which the success handler is sent with the workflow id; without
    one, an execution that gets to the success handler step fails there
    with States.Runtime. *)
Theorem success_needs_the_results_path input r rest c tr :
  run M input (Main Enter :: Main (Respond (Ok r)) :: rest) = Some (c, tr) ->
  (c = Ended SUCCEEDED ->
   exists w b t,
     field "workflowId" r = Some w /\ field "resultsBucketPath" r = Some b /\
     In (Top (LambdaInvoked (successHandlerFunction props)
               (JObj [("workflowId", w); ("resultsBucketPath", b);
                      ("completionTime", t)]))) tr) /\
  (field "resultsBucketPath" r = None ->
   In (Top (StateEntered HandleSuccess)) tr ->
   (exists ca, c = Ended (FAILED "States.Runtime" ca)) /\
   In (Top (StateFailed HandleSuccess "States.Runtime")) tr).
Proof.
  intros H. apply run_after_init in H. destruct H as (tr1 & H & ->).
  apply after_init in H.
  destruct H as [[Hc H]|(w & pl0 & plan & m0 & rest' & tr' & Ew & Epl & Er & _ & H & ->)].
  - split; [intros ->; contradiction|].
    intros _ [Hin|[Hin|[Hin|Hin]]]; try discriminate.
    apply H in Hin. simpl in Hin. discriminate.
  - assert (Hf : flows props r plan w c ([] ++ tr')).
    { eapply (exec_flows r plan w Ew rest'); [| |exact H].
      - simpl. unfold isMap. auto.
      - apply planned_start; auto. }
    destruct Hf as (_ & _ & Hs & Hq). simpl in Hs, Hq. split.
    + intros ->. destruct Hs as (b & t & Eb & Hin).
      exists w, b, t. split; auto. split; auto. simpl. auto 10.
    + intros Hn Hin.
      assert (Hin' : In (Top (StateEntered HandleSuccess)) tr').
      { simpl in Hin. intuition discriminate. }
      destruct (Hq Hin' Hn) as [Hc Hfl]. split; auto. simpl. auto 10.
Qed.

Lemma run_from_init input r rest c tr' :
  exec M 2 (Run (Pending CalculateBatchJobs r)) rest = Some (c, tr') ->
  run M input (Main Enter :: Main (Respond (Ok r)) :: rest)
  = Some (c, Top (StateEntered InitializeWorkflow)
             :: Top (LambdaInvoked (workflowInitFunction props) input)
             :: Top (StateSucceeded InitializeWorkflow) :: tr').
Proof.
  intros H. unfold run. cbn [exec].
  change (step M (JNum (Z.of_nat 0)) (start M input) (Main Enter))
    with (Some (Run (Waiting InitializeWorkflow input 0),
                [Top (StateEntered InitializeWorkflow);
                 Top (LambdaInvoked (workflowInitFunction props) input)])).
  cbn iota.
  change (step M (JNum (Z.of_nat 1)) (Run (Waiting InitializeWorkflow input 0))
               (Main (Respond (Ok r))))
    with (Some (Run (Pending CalculateBatchJobs r),
                [Top (StateSucceeded InitializeWorkflow)])).
  cbn iota. rewrite H. reflexivity.
Qed.

(** X4. The execution input reaches the init function and nothing else:
    from the return of the init function on, two executions that are given
    the same answers go the same way whatever their inputs were. *)
Theorem input_stops_at_init input input' r rest c tr :
  run M input (Main Enter :: Main (Respond (Ok r)) :: rest) = Some (c, tr) ->
  exists tr',
    tr = Top (StateEntered InitializeWorkflow)
         :: Top (LambdaInvoked (workflowInitFunction props) input) :: tr' /\
    run M input' (Main Enter :: Main (Respond (Ok r)) :: rest)
    = Some (c, Top (StateEntered InitializeWorkflow)
               :: Top (LambdaInvoked (workflowInitFunction props) input')
               :: tr').
Proof.
  intros H. apply run_after_init in H. destruct H as (tr1 & H & ->).
  eexists. split; [reflexivity|]. apply run_from_init. exact H.
Qed.

(** X5. The job calculator is sent six values of the init function's
    return value under flat names; when one of them is missing it is not
    invoked and the execution fails. *)
Theorem calculator_payload input r :
  (forall w s p i a o,
      field "workflowId" r = Some w -> field "s3Path" r = Some s ->
      field "dataBucketPrefix" r = Some p ->
      field2 "parameters" "inputData" r = Some i ->
      field2 "parameters" "analysisParams" r = Some a ->
      field2 "parameters" "outputParams" r = Some o ->
      run M input [Main Enter; Main (Respond (Ok r)); Main Enter]
      = Some (Run (Waiting CalculateBatchJobs r 0),
              [Top (StateEntered InitializeWorkflow);
               Top (LambdaInvoked (workflowInitFunction props) input);
               Top (StateSucceeded InitializeWorkflow);
               Top (StateEntered CalculateBatchJobs);
               Top (LambdaInvoked (jobCalculatorFunction props)
                      (JObj [("workflowId", w); ("s3Path", s);
                             ("analysisSubdir", p); ("inputData", i);
                             ("analysisParams", a); ("outputParams", o)]))])) /\
  (field "workflowId" r = None \/ field "s3Path" r = None \/
   field "dataBucketPrefix" r = None \/
   field2 "parameters" "inputData" r = None \/
   field2 "parameters" "analysisParams" r = None \/
   field2 "parameters" "outputParams" r = None ->
   run M input [Main Enter; Main (Respond (Ok r)); Main Enter]
   = Some (Ended (FAILED "States.Runtime" (JStr "Payload")),
           [Top (StateEntered InitializeWorkflow);
            Top (LambdaInvoked (workflowInitFunction props) input);
            Top (StateSucceeded InitializeWorkflow);
            Top (StateEntered CalculateBatchJobs);
            Top (StateFailed CalculateBatchJobs "States.Runtime");
            ExecutionFailed "States.Runtime" (JStr "Payload")])).
Proof.
  split.
  - intros w s p i a o Ew Es Ep Ei Ea Eo. apply run_from_init.
    cbn [exec]. rewrite calc_enter, Ew, Es, Ep, Ei, Ea, Eo. reflexivity.
  - intros H. apply run_from_init. cbn [exec]. rewrite calc_enter.
    destruct (field "workflowId" r); [|reflexivity].
    destruct (field "s3Path" r); [|reflexivity].
    destruct (field "dataBucketPrefix" r); [|reflexivity].
    destruct (field2 "parameters" "inputData" r); [|reflexivity].
    destruct (field2 "parameters" "analysisParams" r); [|reflexivity].
    destruct (field2 "parameters" "outputParams" r); [|reflexivity].
    exfalso. intuition discriminate.
Qed.

(** *** How executions fail *)

Lemma last_step input c tr :
  Reach props input c tr ->
  (c = start M input /\ tr = []) \/
  exists c0 tr0 evs,
    Reach props input c0 tr0 /\ Shaped c0 /\ Trans props c0 evs c /\
    tr = tr0 ++ evs.
Proof.
  intros H. destruct H as [|c tr now a c' evs Hr Hs]; [auto|].
  right. exists c, tr, evs. pose proof (Reach_Shaped props _ _ _ Hr) as Hsh.
  repeat split; auto. eapply step_Trans; eauto.
Qed.

(** X6. A failed execution reports BatchJobError when it went through the
    error handler and the Fail state; otherwise it reports the error of one
    of the four Lambda steps of the main flow, or an error of a Map state
    that States.ALL does not cover. *)
Theorem failed_endings_classified input acts e ca tr :
  run M input acts = Some (Ended (FAILED e ca), tr) ->
  (e = "BatchJobError" /\ ca = JStr "Job execution failed" /\
   exists tr0,
     tr = tr0 ++ [Top (StateEntered WorkflowFailed); ExecutionFailed e ca] /\
     In (Top (StateSucceeded HandleJobErrors)) tr0) \/
  (exists s tr0,
     isMainTask s /\
     tr = tr0 ++ [Top (StateFailed s e); ExecutionFailed e ca]) \/
  (exists m tr0,
     isMap m /\ uncatchable e = true /\
     tr = tr0 ++ [Top (StateFailed m e); ExecutionFailed e ca]).
Proof.
  intros H. apply (run_Reach props) in H. apply last_step in H.
  destruct H as [[H _]|(c0 & tr0 & evs & Hr & Hs & HT & ->)]; [discriminate|].
  inversion HT; subst.
  - right. left. exists s, (tr0 ++ [Top (StateEntered s)]).
    split; auto. rewrite <- app_assoc. reflexivity.
  - right. left. exists s, tr0. auto.
  - right. right. exists m, (tr0 ++ [Top (StateEntered m)]).
    split; auto. split; [reflexivity|]. rewrite <- app_assoc. reflexivity.
  - left. split; auto. split; auto. exists tr0. split; auto.
    apply (handler_invoked props) in Hr. tauto.
  - right. right. exists m, tr0. auto.
  - right. right.
    exists m, (tr0 ++ map (Item m k) (evs0 ++ [IterationFailed])).
    split; auto. split; auto. rewrite <- app_assoc. reflexivity.
Qed.

Lemma failureB_spec e : failureB e = true <-> isFailure e.
Proof.
  destruct e as [x|m k x| |]; simpl; try destruct x; simpl;
    intuition discriminate.
Qed.

Lemma failuresLast_spec evs :
  failuresLast evs = true ->
  forall l e r, evs = l ++ e :: r -> isFailure e ->
  forall x, In x r -> isFailure x.
Proof.
  induction evs as [|y evs IH]; simpl; intros H l e r E He x Hx.
  - destruct l; discriminate.
  - destruct l as [|z l]; simpl in E; injection E as -> ->.
    + apply failureB_spec in He. rewrite He in H.
      rewrite forallb_forall in H. apply failureB_spec. auto.
    + destruct (failureB z) eqn:Hz.
      * rewrite forallb_forall in H. apply failureB_spec. apply H.
        apply in_app_iff. right. simpl. auto.
      * eapply IH; eauto.
Qed.

Lemma flawless_last evs :
  flawless evs ->
  forall l e r, evs = l ++ e :: r -> isFailure e ->
  forall x, In x r -> isFailure x.
Proof.
  intros H l e r -> He. exfalso. apply (H e); auto.
  apply in_app_iff. right. simpl. auto.
Qed.

Lemma Trans_failures_last c evs c' :
  Trans props c evs c' ->
  forall l e r, evs = l ++ e :: r -> isFailure e ->
  forall x, In x r -> isFailure x.
Proof.
  intros H. destruct H;
    try (apply failuresLast_spec; reflexivity).
  - eapply flawless_last, Moves_continue_flawless; eauto.
  - destruct (Moves_complete props _ _ _ H1) as [_ ->].
    apply failuresLast_spec. reflexivity.
  - inversion H1; subst; apply failuresLast_spec; reflexivity.
  - inversion H1; subst; apply failuresLast_spec; reflexivity.
Qed.

Lemma failure_branch_entries c evs c' :
  onFailureBranch c -> Trans props c evs c' ->
  forall x, In x evs -> afterFailure props x.
Proof.
  intros Hc H x Hin.
  destruct c as [[s d|s d a]|m d n p i dn|[|e ca]]; simpl in Hc;
    try contradiction; try (destruct s; try contradiction);
    inversion H; subst; try absurd_state; simpl in Hin;
    unfold afterFailure;
    repeat (destruct Hin as [<-|Hin]; [simpl; auto|]); try contradiction.
Qed.

(** X7. After the first failure nothing but the failure branch happens. *)
Theorem nothing_starts_after_a_failure input acts c tr :
  run M input acts = Some (c, tr) ->
  forall tr1 e tr2,
    tr = tr1 ++ e :: tr2 -> isFailure e ->
    forall x, In x tr2 -> afterFailure props x.
Proof.
  intros H. apply (run_Reach props) in H. revert c tr H.
  apply (Reach_Trans_ind props input (fun c tr =>
    forall tr1 e tr2, tr = tr1 ++ e :: tr2 -> isFailure e ->
    forall x, In x tr2 -> afterFailure props x)).
  - intros tr1 e tr2 E. destruct tr1; discriminate.
  - intros c tr evs c' Hr Hs IH HT tr1 e tr2 E He x Hx.
    apply app_split in E. destruct E as [(r & -> & ->)|(l & -> & ->)].
    + apply in_app_iff in Hx. destruct Hx as [Hx|Hx].
      * eapply IH; eauto.
      * eapply failure_branch_entries; eauto.
        eapply failed_on_branch; eauto. apply in_app_iff. right. simpl. auto.
    + left. eapply Trans_failures_last; eauto.
Qed.

(** *** The order of the main flow *)

Lemma entered_step c evs c' s :
  Trans props c evs c' -> In (Top (StateEntered s)) evs ->
  exists d rest,
    c = Run (Pending s d) /\ evs = Top (StateEntered s) :: rest /\
    forall s', ~ In (Top (StateEntered s')) rest.
Proof.
  intros H Hin. destruct H; simpl in Hin;
    try (repeat (destruct Hin as [Hin|Hin];
                 [try discriminate; injection Hin as <-|]);
         try contradiction;
         eexists; eexists; (split; [reflexivity|]); (split; [reflexivity|]);
         intros s' Hin'; simpl in Hin'; intuition discriminate).
  - exfalso. eapply no_top_in_items; eauto.
  - exfalso. eapply no_top_in_items; eauto.
  - exfalso. apply in_app_iff in Hin. destruct Hin as [Hin|Hin].
    + eapply no_top_in_items; eauto.
    + simpl in Hin. intuition discriminate.
  - exfalso. apply in_app_iff in Hin. destruct Hin as [Hin|Hin].
    + eapply no_top_in_items; eauto.
    + simpl in Hin. intuition discriminate.
Qed.

Lemma order_next s s' :
  isMainTask s -> nextOf s = Some s' -> order s < order s'.
Proof.
  intros [->|[->|[->| ->]]] H; simpl in H; injection H as <-; simpl; lia.
Qed.

Lemma Reach_inOrder input c tr : Reach props input c tr -> inOrder c tr.
Proof.
  revert c tr. apply (Reach_Trans_ind props input inOrder).
  - intros s' [].
  - intros c tr evs c' Hr Hs IH H s' Hin.
    apply in_app_iff in Hin. destruct Hin as [Hin|Hin].
    + specialize (IH s' Hin). destruct H; simpl in *; auto; try lia.
      * pose proof (order_next _ _ H H0). lia.
      * destruct H as [-> | ->]; simpl in *; lia.
      * destruct H as [-> | ->]; simpl in *; lia.
    + destruct (entered_step _ _ _ _ H Hin) as (d & rest & -> & -> & _).
      inversion H; subst; simpl; auto.
Qed.

(** X8. The main flow enters its states in one order, each at most once. *)
Theorem states_are_entered_in_order input acts c tr :
  run M input acts = Some (c, tr) ->
  forall tr1 s tr2,
    tr = tr1 ++ Top (StateEntered s) :: tr2 ->
    forall s', In (Top (StateEntered s')) tr1 -> order s' < order s.
Proof.
  intros H. apply (run_Reach props) in H. revert c tr H.
  apply (Reach_Trans_ind props input (fun c tr =>
    forall tr1 s tr2, tr = tr1 ++ Top (StateEntered s) :: tr2 ->
    forall s', In (Top (StateEntered s')) tr1 -> order s' < order s)).
  - intros tr1 s tr2 E. destruct tr1; discriminate.
  - intros c tr evs c' Hr Hs IH HT tr1 s tr2 E s' Hin.
    apply app_split in E. destruct E as [(r & -> & ->)|(l & -> & E)].
    + eapply IH; eauto.
    + assert (Hs' : In (Top (StateEntered s)) evs)
        by (rewrite E; apply in_app_iff; right; simpl; auto).
      destruct (entered_step _ _ _ _ HT Hs') as (d & rest & -> & E' & Hno).
      destruct l as [|x l].
      * rewrite app_nil_r in Hin.
        apply (Reach_inOrder _ _ _ Hr s' Hin).
      * exfalso. rewrite E' in E. simpl in E. injection E as _ ->.
        apply (Hno s). apply in_app_iff. right. simpl. auto.
Qed.

(** *** Executions do not get stuck *)



(** *** Executions end *)








Section Bound.

Variables r plan w : json.
Hypothesis Hw : field "workflowId" r = Some w.



End Bound.

Lemma run_plan input r plan rest c tr :
  run M input (Main Enter :: Main (Respond (Ok r)) :: Main Enter
               :: Main (Respond (Ok plan)) :: rest) = Some (c, tr) ->
  exists w m0 pre tr',
    field "workflowId" r = Some w /\ r = JObj m0 /\
    Reach props input
          (Run (Pending SubmitStep1Jobs
                  (JObj (put "JobCalculation" (lambdaResult plan) m0)))) pre /\
    (forall s, In (Top (StateEntered s)) pre ->
               s = InitializeWorkflow \/ s = CalculateBatchJobs) /\
    exec M 4 (Run (Pending SubmitStep1Jobs
                     (JObj (put "JobCalculation" (lambdaResult plan) m0))))
         rest = Some (c, tr') /\
    tr = pre ++ tr'.
Proof.
  intros H. apply run_after_init in H. destruct H as (tr1 & H & ->).
  cbn [exec] in H.
  destruct (step M (JNum (Z.of_nat 2)) (Run (Pending CalculateBatchJobs r))
                 (Main Enter)) as [[c1 e1]|] eqn:Hs; [|discriminate].
  pose proof Hs as Hs'. apply calc_enter_cases in Hs.
  destruct Hs as [(ca & -> & ->)|(w & pl & Ew & Epl & -> & ->)];
    [discriminate|].
  pose proof (calc_return (JNum (Z.of_nat 3)) r 0 plan) as Hs2.
  rewrite Hs2 in H.
  destruct r as [| | | | |m0]; try discriminate.
  destruct (exec M 4 _ rest) as [[c2 e2]|] eqn:He; [|discriminate].
  injection H as <- <-.
  exists w, m0,
    (((([] ++ [Top (StateEntered InitializeWorkflow);
               Top (LambdaInvoked (workflowInitFunction props) input)])
       ++ [Top (StateSucceeded InitializeWorkflow)])
      ++ [Top (StateEntered CalculateBatchJobs);
          Top (LambdaInvoked (jobCalculatorFunction props) pl)])
     ++ [Top (StateSucceeded CalculateBatchJobs)]), e2.
  split; auto. split; auto. split; [|split; [|split; [exact He|reflexivity]]].
  - econstructor; [|exact Hs2]. econstructor; [|exact Hs'].
    econstructor; [|apply (t_init_return (JNum 1))].
    econstructor; [constructor|apply (t_init_enter (JNum 0))].
  - simpl. intros s Hin.
    repeat (destruct Hin as [Hin|Hin]; [try discriminate; injection Hin as <-; auto|]).
    contradiction.
Qed.


(** *** A plan that lacks a list *)

Section Lists.

Variables input r plan w : json.
Hypothesis Hw : field "workflowId" r = Some w.
Variable pre : History.
Variable m : StateName.
Hypothesis Hm : isMap m.
Hypothesis Hnone : forall items, field (itemsKey m) plan <> Some (JArr items).

Lemma unlisted_step now c a c' evs tr :
  unlisted props input r plan w pre m c tr -> step M now c a = Some (c', evs) -> unlisted props input r plan w pre m c' (tr ++ evs).
Proof.
  intros (Hr & Hf & Hno & IH) H.
  pose proof (Reach_Shaped props _ _ _ Hr) as Hs.
  pose proof (step_Trans props _ _ _ _ _ Hs H) as HT.
  assert (Hfail : forall d, c = Run (Pending m d) ->
            exists ca, c' = Ended (FAILED "States.Runtime" ca) /\
              evs = [Top (StateEntered m); Top (StateFailed m "States.Runtime");
                     ExecutionFailed "States.Runtime" ca]).
  { intros d ->. destruct a as [[|?]|? ?| |]; try discriminate.
    apply map_enter in H; auto.
    destruct H as [(items & Hi & _ & _)|(ca & -> & E)]; [|eauto].
    exfalso. destruct Hf as (Hp & _). destruct Hm as [-> | ->]; simpl in Hp;
      destruct Hp as [Hc _]; unfold field3, field2 in Hi; rewrite Hc in Hi;
      simpl in Hi; apply (Hnone items); exact Hi. }
  split; [|split; [|split]].
  - rewrite app_assoc. econstructor; eauto.
  - eapply flows_step; eauto.
  - intros n Hin. apply in_app_iff in Hin. destruct Hin as [Hin|Hin].
    + apply (Hno n Hin).
    + destruct (started_step props _ _ _ _ _ HT Hin) as (d & items & -> & _ & E & _).
      destruct (Hfail d eq_refl) as (ca & _ & E'). rewrite E' in E.
      discriminate.
  - intros Hin. apply in_app_iff in Hin. destruct Hin as [Hin|Hin].
    { destruct (IH Hin) as [(ca & ->) _]. discriminate. }
    destruct (entered_step _ _ _ _ HT Hin) as (d & rest & -> & _ & _).
    destruct (Hfail d eq_refl) as (ca & -> & ->).
    split; [eauto|]. split; [apply in_app_iff; right; simpl; auto|].
    rewrite app_assoc. intros Hh. apply in_app_iff in Hh.
    destruct Hh as [Hh|Hh].
    + pose proof (Reach_inOrder _ _ _ Hr _ Hh) as Ho. simpl in Ho.
      destruct Hm as [-> | ->]; simpl in Ho; lia.
    + simpl in Hh. destruct Hm as [-> | ->]; intuition discriminate.
Qed.

Lemma exec_unlisted acts : forall t c tr c' tr',
  unlisted props input r plan w pre m c tr -> exec M t c acts = Some (c', tr') -> unlisted props input r plan w pre m c' (tr ++ tr').
Proof.
  induction acts as [|a acts IH]; simpl; intros t c tr c' tr' Hu H.
  - injection H as <- <-. rewrite app_nil_r. exact Hu.
  - destruct (step M (JNum (Z.of_nat t)) c a) as [[c1 e1]|] eqn:Hst;
      try discriminate.
    destruct (exec M (S t) c1 acts) as [[c2 e2]|] eqn:He; try discriminate.
    injection H as <- <-. rewrite app_assoc.
    eapply IH; [|exact He]. eapply unlisted_step; eauto.
Qed.

End Lists.

Lemma itemsOf_unlisted m plan :
  (forall items, field (itemsKey m) plan <> Some (JArr items)) ->
  itemsOf m plan = [].
Proof.
  intros H. unfold itemsOf. destruct (field (itemsKey m) plan) as [[]|]; auto.
  exfalso. eapply H; eauto.
Qed.

(** X11. A plan has to list the jobs of both steps: a Map state whose list
    is missing, or is no array, never starts an item; when the execution
    gets to it, it fails there and the error handler does not run. *)
Theorem a_plan_lists_both_steps input r plan rest c tr m :
  run M input (Main Enter :: Main (Respond (Ok r)) :: Main Enter
               :: Main (Respond (Ok plan)) :: rest) = Some (c, tr) ->
  isMap m ->
  (forall items, field (itemsKey m) plan <> Some (JArr items)) ->
  (forall n, ~ In (Top (MapStarted m n)) tr) /\
  (forall k x, ~ In (Item m k x) tr) /\
  (In (Top (StateEntered m)) tr ->
   (exists ca, c = Ended (FAILED "States.Runtime" ca)) /\
   In (Top (StateFailed m "States.Runtime")) tr /\
   ~ In (Top (StateEntered HandleJobErrors)) tr).
Proof.
  intros H Hm Hnone. apply run_plan in H.
  destruct H as (w & m0 & pre & tr' & Ew & Er & Hr & Hpre & H & ->).
  assert (Hu : unlisted props input r plan w pre m c ([] ++ tr')).
  { eapply (exec_unlisted input r plan w Ew pre m Hm Hnone rest); [|exact H].
    split; [rewrite app_nil_r; exact Hr|].
    split; [apply planned_start; auto|]. split; [intros n []|intros []]. }
  destruct Hu as (_ & (_ & Hev & _) & Hno & Hq). simpl in Hev, Hno, Hq.
  assert (Hin : forall e, In e (pre ++ tr') ->
            (forall s, e = Top (StateEntered s) ->
                       s = InitializeWorkflow \/ s = CalculateBatchJobs) ->
            In e pre \/ In e tr') by (intros e He _; apply in_app_iff; auto).
  split; [|split].
  - intros n Hn. apply in_app_iff in Hn. destruct Hn as [Hn|Hn].
    + pose proof (Reach_Ordered props _ _ _ Hr) as Ho. simpl in Ho.
      destruct Ho as [(_ & A & _) (_ & B & _)].
      destruct Hm as [-> | ->]; [apply (A n Hn)|apply (B n Hn)].
    + apply (Hno n Hn).
  - intros k x Hx. apply in_app_iff in Hx. destruct Hx as [Hx|Hx].
    + pose proof (Reach_Ordered props _ _ _ Hr) as Ho. simpl in Ho.
      destruct Ho as [(_ & _ & A) (_ & _ & B)].
      destruct Hm as [-> | ->]; [apply (A k x Hx)|apply (B k x Hx)].
    + apply Hev in Hx. simpl in Hx. destruct Hx as (v & b & Hn & _).
      rewrite (itemsOf_unlisted _ _ Hnone) in Hn. destruct k; discriminate.
  - intros He. apply in_app_iff in He. destruct He as [He|He].
    + exfalso. apply Hpre in He. destruct Hm as [-> | ->];
        destruct He; discriminate.
    + destruct (Hq He) as (Hc & Hf & Hh). split; auto. split; auto.
      apply in_app_iff. auto.
Qed.

End Flow.

(** *** The role of the state machine *)

Import StateMachineRole.

Section Granted.

Variable props : WorkflowStackProps.

Lemma Moves_parser t o evs m f pl :
  isMap m -> cur t = parseOf m \/ cur t = submitOf m -> Moves props t o evs ->
  In (LambdaInvoked f pl) evs -> f = commandParserFunction props.
Proof.
  intros Hm Hcur H Hin.
  inversion H; subst; simpl in Hcur, Hin;
    repeat (destruct Hin as [Hin|Hin]; try discriminate); try contradiction.
  injection Hin as <- _.
  destruct Hcur as [->| ->].
  - destruct Hm as [-> | ->]; reflexivity.
  - exfalso. eapply submitOf_not_lambda; eauto.
Qed.

Lemma Trans_granted c evs c' :
  Shaped c -> Trans props c evs c' ->
  (forall f pl, In (Top (LambdaInvoked f pl)) evs ->
     exists s, isMainTask s /\ f = lambdaOf props s) /\
  (forall m k f pl, In (Item m k (LambdaInvoked f pl)) evs ->
     f = commandParserFunction props).
Proof.
  intros Hs H. split.
  - intros f pl Hin. apply (Trans_entries props _ _ _ Hs H) in Hin.
    destruct c as [t| |]; simpl in Hin; try contradiction.
    exists (cur t). tauto.
  - intros m0 k0 f pl Hin.
    assert (Hit : forall m d n pending inflight done k it o evs0,
              c = AtMap m d n pending inflight done -> isMap m ->
              find (isIter k) inflight = Some it ->
              Moves props (thread it) o evs0 ->
              forall tl, In (Item m0 k0 (LambdaInvoked f pl))
                            (map (Item m k) (evs0 ++ tl)) ->
              (forall x, In x tl -> forall g q, x <> LambdaInvoked g q) ->
              f = commandParserFunction props).
    { intros m d n pending inflight done k it o evs0 -> Hm Hf Hmv tl Hi Htl.
      destruct Hs as (_ & _ & _ & Hall & _). apply find_isIter in Hf.
      rewrite Forall_forall in Hall. destruct (Hall _ (proj1 Hf)) as [_ Hcur].
      apply in_map_iff in Hi. destruct Hi as (x & E & Hx).
      injection E as <- <- ->. apply in_app_iff in Hx. destruct Hx as [Hx|Hx].
      - eapply Moves_parser; eauto.
      - exfalso. eapply Htl; eauto. }
    destruct H; simpl in Hin;
      try (repeat (destruct Hin as [Hin|Hin]; try discriminate);
           try contradiction; fail).
    + eapply (Hit _ _ _ _ _ _ _ _ _ _ eq_refl H H0 H1 []).
      * rewrite app_nil_r. exact Hin.
      * intros x [].
    + eapply (Hit _ _ _ _ _ _ _ _ _ _ eq_refl H H0 H1); [exact Hin|].
      intros x [<-|[]] g q. discriminate.
    + apply in_app_iff in Hin. destruct Hin as [Hin|Hin].
      * eapply (Hit _ _ _ _ _ _ _ _ _ _ eq_refl H H0 H1); [exact Hin|].
        intros x [<-|[]] g q. discriminate.
      * simpl in Hin. repeat (destruct Hin as [Hin|Hin]; try discriminate).
        contradiction.
    + apply in_app_iff in Hin. destruct Hin as [Hin|Hin].
      * eapply (Hit _ _ _ _ _ _ _ _ _ _ eq_refl H H0 H1); [exact Hin|].
        intros x [<-|[]] g q. discriminate.
      * simpl in Hin. repeat (destruct Hin as [Hin|Hin]; try discriminate).
        contradiction.
Qed.

(** X12. The state machine invokes no function its role was not granted: the
    main flow invokes the init function, the job calculator and the two
    handlers, the iterations of the Map states invoke the command parser
    and nothing else. *)
Theorem only_granted_functions_are_invoked input acts c tr :
  run (createGwasWorkflow props) input acts = Some (c, tr) ->
  (forall f pl,
      In (Top (LambdaInvoked f pl)) tr ->
      In f [workflowInitFunction props; jobCalculatorFunction props;
            errorHandlerFunction props; successHandlerFunction props]) /\
  (forall m k f pl,
      In (Item m k (LambdaInvoked f pl)) tr ->
      f = commandParserFunction props) /\
  (forall f pl,
      In (Top (LambdaInvoked f pl)) tr \/
      (exists m k, In (Item m k (LambdaInvoked f pl)) tr) ->
      In f (grantInvoke props)).
Proof.
  intros H. apply (run_Reach props) in H.
  assert (HP : (forall f pl, In (Top (LambdaInvoked f pl)) tr ->
                  exists s, isMainTask s /\ f = lambdaOf props s) /\
               (forall m k f pl, In (Item m k (LambdaInvoked f pl)) tr ->
                  f = commandParserFunction props)).
  { revert c tr H. apply (Reach_Trans_ind props input (fun c tr =>
      (forall f pl, In (Top (LambdaInvoked f pl)) tr ->
         exists s, isMainTask s /\ f = lambdaOf props s) /\
      (forall m k f pl, In (Item m k (LambdaInvoked f pl)) tr ->
         f = commandParserFunction props))).
    - split; intros; contradiction.
    - intros c tr evs c' _ Hs [IH1 IH2] HT.
      destruct (Trans_granted _ _ _ Hs HT) as [H1 H2].
      split; intros; match goal with
                     | Hin : In _ (_ ++ _) |- _ =>
                         apply in_app_iff in Hin; destruct Hin; eauto
                     end. }
  destruct HP as [H1 H2].
  assert (HT : forall f pl, In (Top (LambdaInvoked f pl)) tr ->
            In f [workflowInitFunction props; jobCalculatorFunction props;
                  errorHandlerFunction props; successHandlerFunction props]).
  { intros f pl Hin. destruct (H1 _ _ Hin) as (s & [->|[->|[->| ->]]] & ->);
      simpl; auto. }
  split; [exact HT|]. split; [exact H2|].
  intros f pl [Hin|(m & k & Hin)].
  - apply HT in Hin. unfold grantInvoke. simpl in *. tauto.
  - apply H2 in Hin. subst f. unfold grantInvoke. simpl. auto.
Qed.

End Granted.

(** *** The theorems on sample executions *)

Import Cases.

Lemma jobs_follow_the_plan_witness :
  exists c tr,
    run machine JNull happy = Some (c, tr) /\
    forall x,
      In (Item SubmitStep2Jobs 1 x) tr ->
      (forall f pl, x = LambdaInvoked f pl ->
         pl = JObj [("jobId", JStr "chr2"); ("Command", JStr "regenie");
                    ("stepNumber", JNum 2); ("workflowId", JStr "wf-1")]) /\
      (forall s nm c0, x = JobSubmitted s nm c0 -> nm = JStr "chr2").
Proof.
  eexists. eexists. split; [vm_compute; reflexivity|]. intros x Hin.
  destruct (jobs_follow_the_plan props JNull initialized
              (plan [job "step1" 1] [job "chr1" 2; job "chr2" 2])
              (skipn 4 happy) _ _ ltac:(vm_compute; reflexivity))
    as (w & Ew & H).
  destruct (proj2 (H SubmitStep2Jobs 1) x Hin)
    as (v & j & cmd & sn & Hv & Hj & Hc & Hs & Hl & Hb).
  vm_compute in Ew, Hv. injection Ew as <-. injection Hv as <-.
  vm_compute in Hj, Hc, Hs.
  injection Hj as <-. injection Hc as <-. injection Hs as <-.
  split.
  - intros f pl E. exact (proj2 (Hl f pl E)).
  - exact Hb.
Defined.

Lemma workflow_id_is_threaded_witness :
  exists c tr tr',
    run machine JNull happy = Some (c, tr) /\
    tr = Top (StateEntered InitializeWorkflow)
         :: Top (LambdaInvoked (workflowInitFunction props) JNull) :: tr' /\
    forall f pl,
      In (Top (LambdaInvoked f pl)) tr' \/
      (exists m k, In (Item m k (LambdaInvoked f pl)) tr') ->
      field "workflowId" pl = Some (JStr "wf-1").
Proof.
  destruct (workflow_id_is_threaded props JNull initialized (skipn 2 happy)
              (Ended SUCCEEDED)
              (match run machine JNull happy with
               | Some (_, tr) => tr
               | None => []
               end) ltac:(vm_compute; reflexivity)) as (tr' & E & H).
  eexists. eexists. exists tr'. split; [vm_compute; reflexivity|].
  split; [exact E|]. intros f pl Hin.
  destruct (H f pl Hin) as (w & Ew & Ep).
  vm_compute in Ew. injection Ew as <-. exact Ep.
Defined.

Lemma success_needs_the_results_path_witness :
  exists c tr,
    run machine JNull nowhereToReport = Some (c, tr) /\
    (exists ca, c = Ended (FAILED "States.Runtime" ca)) /\
    In (Top (StateFailed HandleSuccess "States.Runtime")) tr.
Proof.
  eexists. eexists. split; [vm_compute; reflexivity|].
  refine (proj2 (success_needs_the_results_path props JNull withoutResultsPath
                   (skipn 2 nowhereToReport) _ _ _) _ _).
  - vm_compute. reflexivity.
  - reflexivity.
  - repeat (first [left; reflexivity | right]).
Defined.

Lemma input_stops_at_init_witness :
  exists c tr tr',
    run machine JNull happy = Some (c, tr) /\
    tr = Top (StateEntered InitializeWorkflow)
         :: Top (LambdaInvoked (workflowInitFunction props) JNull) :: tr' /\
    run machine (JStr "manifest.json") happy
    = Some (c, Top (StateEntered InitializeWorkflow)
               :: Top (LambdaInvoked (workflowInitFunction props)
                         (JStr "manifest.json"))
               :: tr').
Proof.
  destruct (input_stops_at_init props JNull (JStr "manifest.json") initialized
              (skipn 2 happy) (Ended SUCCEEDED)
              (match run machine JNull happy with
               | Some (_, tr) => tr
               | None => []
               end) ltac:(vm_compute; reflexivity)) as (tr' & E & H).
  eexists. eexists. exists tr'. split; [vm_compute; reflexivity|].
  split; [exact E|exact H].
Defined.

Lemma calculator_payload_witness :
  run machine JNull [Main Enter; Main (Respond (Ok initialized)); Main Enter]
  = Some (Run (Waiting CalculateBatchJobs initialized 0),
          [Top (StateEntered InitializeWorkflow);
           Top (LambdaInvoked (workflowInitFunction props) JNull);
           Top (StateSucceeded InitializeWorkflow);
           Top (StateEntered CalculateBatchJobs);
           Top (LambdaInvoked (jobCalculatorFunction props)
                  (JObj [("workflowId", JStr "wf-1");
                         ("s3Path", JStr "s3://data/exp-1");
                         ("analysisSubdir", JStr "exp-1");
                         ("inputData", JStr "bed");
                         ("analysisParams", JStr "bt");
                         ("outputParams", JStr "out")]))]).
Proof.
  apply (proj1 (calculator_payload props JNull initialized)); reflexivity.
Defined.

Lemma failed_endings_classified_witness :
  exists tr,
    run machine JNull step1Fails
    = Some (Ended (FAILED "BatchJobError" (JStr "Job execution failed")), tr) /\
    ((exists tr0,
        tr = tr0 ++ [Top (StateEntered WorkflowFailed);
                     ExecutionFailed "BatchJobError"
                       (JStr "Job execution failed")] /\
        In (Top (StateSucceeded HandleJobErrors)) tr0) \/
     (exists s tr0,
        isMainTask s /\
        tr = tr0 ++ [Top (StateFailed s "BatchJobError");
                     ExecutionFailed "BatchJobError"
                       (JStr "Job execution failed")]) \/
     (exists m tr0,
        isMap m /\ uncatchable "BatchJobError" = true /\
        tr = tr0 ++ [Top (StateFailed m "BatchJobError");
                     ExecutionFailed "BatchJobError"
                       (JStr "Job execution failed")])).
Proof.
  eexists. split; [vm_compute; reflexivity|].
  destruct (failed_endings_classified props JNull step1Fails _ _ _
              ltac:(vm_compute; reflexivity)) as [(_ & _ & H)|[H|H]]; auto.
Defined.

Lemma nothing_starts_after_a_failure_witness :
  exists c tr,
    run machine JNull step1Fails = Some (c, tr) /\
    forall tr1 e tr2,
      tr = tr1 ++ e :: tr2 -> isFailure e ->
      forall x, In x tr2 -> afterFailure props x.
Proof.
  eexists. eexists. split; [vm_compute; reflexivity|].
  refine (nothing_starts_after_a_failure props JNull step1Fails _ _ _).
  vm_compute. reflexivity.
Defined.

Lemma states_are_entered_in_order_witness :
  exists c tr,
    run machine JNull happy = Some (c, tr) /\
    forall tr1 s tr2,
      tr = tr1 ++ Top (StateEntered s) :: tr2 ->
      forall s', In (Top (StateEntered s')) tr1 -> order s' < order s.
Proof.
  eexists. eexists. split; [vm_compute; reflexivity|].
  refine (states_are_entered_in_order props JNull happy _ _ _).
  vm_compute. reflexivity.
Defined.



Lemma a_plan_lists_both_steps_witness :
  exists c tr,
    run machine JNull step2Unlisted = Some (c, tr) /\
    (exists ca, c = Ended (FAILED "States.Runtime" ca)) /\
    In (Top (StateFailed SubmitStep2Jobs "States.Runtime")) tr /\
    ~ In (Top (StateEntered HandleJobErrors)) tr.
Proof.
  eexists. eexists. split; [vm_compute; reflexivity|].
  refine (proj2 (proj2 (a_plan_lists_both_steps props JNull initialized
                          step1JobsOnly (skipn 4 step2Unlisted) _ _
                          SubmitStep2Jobs _ _ _)) _).
  - vm_compute. reflexivity.
  - right. reflexivity.
  - intros items. vm_compute. discriminate.
  - repeat (first [left; reflexivity | right]).
Defined.

Lemma only_granted_functions_are_invoked_witness :
  exists c tr,
    run machine JNull happy = Some (c, tr) /\
    forall f pl,
      In (Top (LambdaInvoked f pl)) tr \/
      (exists m k, In (Item m k (LambdaInvoked f pl)) tr) ->
      In f (grantInvoke props).
Proof.
  eexists. eexists. split; [vm_compute; reflexivity|].
  refine (proj2 (proj2 (only_granted_functions_are_invoked props JNull happy
                          _ _ _))).
  vm_compute. reflexivity.
Defined.

(* ===================================================================== *)
(** ** Properties of the other stacks                                     *)
(* ===================================================================== *)

(** *** The network *)

Import NetworkStack.


(** *** The application *)

Import CdkApp.

Lemma sameStack_eq a b : sameStack a b = true -> a = b.
Proof. destruct a, b; simpl; intros H; try discriminate; reflexivity. Qed.

Lemma dependsOn_rank n : forall s t, dependsOn n s t = true -> deployRank t < deployRank s.
Proof.
  induction n as [|n IH]; simpl; intros s t H; [discriminate|].
  apply existsb_exists in H. destruct H as (u & Hin & H).
  assert (Hu : deployRank u < deployRank s)
    by (destruct s; simpl in Hin; intuition (subst; simpl; lia)).
  apply orb_true_iff in H. destruct H as [H|H].
  - apply sameStack_eq in H. subst u. exact Hu.
  - apply IH in H. lia.
Qed.

(** X14. A stack is handed resources only of stacks that are deployed before
    it, and the dependencies have no cycle. *)
Theorem props_come_from_dependencies :
  (forall s t, In t (propsFrom s) -> exists n, dependsOn n s t = true) /\
  (forall n s, dependsOn n s s = false) /\
  (forall n s t, dependsOn n s t = true -> dependsOn n t s = false).
Proof.
  split; [|split].
  - intros s t Hin. exists 4. destruct s; simpl in Hin;
      repeat (destruct Hin as [<-|Hin]; [reflexivity|]); contradiction.
  - intros n s. destruct (dependsOn n s s) eqn:H; [|reflexivity].
    apply dependsOn_rank in H. lia.
  - intros n s t H. destruct (dependsOn n t s) eqn:H'; [|reflexivity].
    apply dependsOn_rank in H, H'. lia.
Qed.

(** *** The manifest queue *)

Import QueueProcessingStack.

Lemma receives_done q outcomes p :
  p = Handled \/ p = DeadLettered -> receives q outcomes p = (p, 0).
Proof.
  intros Hp. induction outcomes as [|ok rest IH]; simpl; [reflexivity|].
  destruct Hp as [-> | ->]; simpl; rewrite IH by auto; reflexivity.
Qed.

(** X15. A manifest notification is handed to the function at most five
    times; it leaves the queue when the function handles it, and goes to
    the dead-letter queue when it is received again after five failures. *)
Theorem manifest_is_tried_five_times outcomes place invocations :
  receives manifestQueue outcomes (Queued 0) = (place, invocations) ->
  invocations <= 5 /\
  (place = Handled <-> existsb (fun ok => ok) (firstn 5 outcomes) = true) /\
  (place = DeadLettered <->
   5 < List.length outcomes /\
   existsb (fun ok => ok) (firstn 5 outcomes) = false) /\
  (place = DeadLettered -> invocations = 5) /\
  (forall n, place = Queued n ->
     n = List.length outcomes /\ invocations = n /\ n <= 5).
Proof.
  intros H.
  destruct outcomes as [|a [|b [|c [|d [|e [|f rest]]]]]];
    try destruct a; try destruct b; try destruct c; try destruct d;
    try destruct e; try destruct f;
    simpl in H; rewrite ?receives_done in H by auto;
    injection H as <- <-;
    (split; [simpl; lia|]);
    (split; [split; [intros E; first [discriminate E|reflexivity]
                    |intros E; first [discriminate E|reflexivity]]|]);
    (split; [split; [intros E;
                     first [discriminate E|split; [simpl; lia|reflexivity]]
                    |intros [E1 E2];
                     first [discriminate E2|simpl in E1; lia|reflexivity]]|]);
    (split; [intros E; first [discriminate E|reflexivity]|]);
    intros n E;
    first [discriminate E|injection E as <-; simpl; repeat split; lia].
Qed.

(** *** The execution roles *)

Import LambdaRoles.

Section Roles.
Local Open Scope string_scope.

(** X16. A role is given nothing for a resource that was not passed. *)
Theorem no_permission_without_its_resource props name role :
  In role (allRoles props name) ->
  (workflowTable props = None -> jobStatusTable props = None ->
   ~ In "dynamodb" (servicesOf role) /\
   forall t, ~ In (GrantReadWriteData t) (grants role)) /\
  (dataBucket props = None -> resultsBucket props = None ->
   ~ In "s3" (servicesOf role) /\
   forall b, ~ In (GrantRead b) (grants role) /\
             ~ In (GrantReadWrite b) (grants role)) /\
  (batchJobQueue props = None ->
   forall st a, In st (statements role) -> In a (actions st) ->
     serviceOf a = "batch" -> a = "batch:DescribeJobDefinitions").
Proof.
  destruct props as [sc db rb q wt jt]. simpl.
  intros Hin. split; [|split].
  - intros -> ->. unfold allRoles in Hin.
    repeat (destruct Hin as [<-|Hin];
            [destruct db, rb, q; cbn; (split; [|intros t]); intuition discriminate|]).
    contradiction.
  - intros -> ->. unfold allRoles in Hin.
    repeat (destruct Hin as [<-|Hin];
            [destruct q, wt, jt; cbn; (split; [|intros b; split]);
             intuition discriminate|]).
    contradiction.
  - intros ->. unfold allRoles in Hin.
    repeat (destruct Hin as [<-|Hin];
            [destruct db, rb, wt, jt; cbn; intros st a Hs Ha Hb;
             repeat (destruct Hs as [<-|Hs];
                     [simpl in Ha;
                      repeat (destruct Ha as [<-|Ha];
                              [first [discriminate Hb|reflexivity]|]);
                      contradiction|]);
             contradiction|]).
    contradiction.
Qed.






End Roles.

Import CdkApp QueueProcessingStack LambdaRoles Cases.

Lemma props_come_from_dependencies_witness :
  In GwasComputeStack (propsFrom GwasMonitoringStack) /\
  exists n, dependsOn n GwasMonitoringStack GwasComputeStack = true.
Proof.
  assert (H : In GwasComputeStack (propsFrom GwasMonitoringStack))
    by (simpl; auto).
  split; [exact H|].
  exact (proj1 props_come_from_dependencies _ _ H).
Defined.

Lemma manifest_is_tried_five_times_witness :
  receives manifestQueue [false; false; false; false; false; false; true]
           (Queued 0) = (DeadLettered, 5) /\
  5 <= 5.
Proof.
  split; [reflexivity|].
  exact (proj1 (manifest_is_tried_five_times
                  [false; false; false; false; false; false; true]
                  DeadLettered 5 eq_refl)).
Defined.

Lemma no_permission_without_its_resource_witness :
  In (createErrorHandlerRole scopeOnly) (allRoles scopeOnly "CleanupExecutionRole") /\
  ~ In "dynamodb" (servicesOf (createErrorHandlerRole scopeOnly)).
Proof.
  assert (H : In (createErrorHandlerRole scopeOnly)
                 (allRoles scopeOnly "CleanupExecutionRole"))
    by (simpl; auto).
  split; [exact H|].
  exact (proj1 (proj1 (no_permission_without_its_resource scopeOnly
                         "CleanupExecutionRole" _ H) eq_refl eq_refl)).
Defined.

